(** * Bay Area company data scraper: text normalizers and record assembly

    A shallow embedding of the parsing and cleaning code of the repository
    (the two cleaners, the directory-card extractor and the wiki list
    scraper), together with the properties its specification states.

    Python strings are sequences of Unicode code points; they are modelled
    as lists of code points.  The regular expressions of the source are
    written as values of a small pattern type and run by a backtracking
    matcher that tries alternatives in the order Python's [re] does. *)

From Stdlib Require Import ZArith NArith List String Ascii Bool Lia SpecFloat.
From stdpp Require Import gmap strings list.

Local Open Scope N_scope.

(** ** Characters and strings *)

Abbreviation char := N (only parsing).
Abbreviation str := (list N) (only parsing).

Definition ch (a : ascii) : char := N_of_ascii a.

(** Decoder for the UTF-8 bytes of a Rocq string literal, so that the
    source's literals can be written down as they are. *)
Fixpoint utf8_dec (bs : list N) : str :=
  match bs with
  | [] => []
  | b :: t =>
    if b <? 128 then b :: utf8_dec t
    else if b <? 224 then
      match t with
      | b2 :: t2 => (N.land b 31 * 64 + N.land b2 63) :: utf8_dec t2
      | _ => []
      end
    else if b <? 240 then
      match t with
      | b2 :: b3 :: t3 =>
        (N.land b 15 * 4096 + N.land b2 63 * 64 + N.land b3 63) :: utf8_dec t3
      | _ => []
      end
    else
      match t with
      | b2 :: b3 :: b4 :: t4 =>
        (N.land b 7 * 262144 + N.land b2 63 * 4096 + N.land b3 63 * 64
         + N.land b4 63) :: utf8_dec t4
      | _ => []
      end
  end.

Fixpoint bytes_of (s : string) : list N :=
  match s with
  | EmptyString => []
  | String a s' => N_of_ascii a :: bytes_of s'
  end.

Definition utf8 (s : string) : str := utf8_dec (bytes_of s).

(** [\s], also the characters [str.strip()] removes: the white space of
    [str.isspace()]. *)
Definition is_space (c : char) : bool :=
  ((9 <=? c) && (c <=? 13)) || ((28 <=? c) && (c <=? 32))
  || (c =? 133) || (c =? 160) || (c =? 5760)
  || ((8192 <=? c) && (c <=? 8202))
  || (c =? 8232) || (c =? 8233) || (c =? 8239) || (c =? 8287)
  || (c =? 12288).

(** ** Unicode tables

    The classification of ASCII characters is fixed below.  For the code
    points from U+0080 on, the interpreter's Unicode database decides what
    is a decimal digit, a digit, an alphanumeric character, and what the
    lower-case form is; the database depends on the interpreter's version
    and is a parameter of the development.  All that is asked of it is
    that no white space is a decimal digit. *)
Class UnicodeTables := {
  uni_decimal : char -> option N;
  uni_digit : char -> bool;
  uni_alnum : char -> bool;
  uni_lower : char -> str;
  uni_decimal_space : forall c, is_space c = true -> uni_decimal c = None
}.

(** The tables of the Latin-1 Supplement block (U+0080 to U+00FF), with
    every code point beyond taken as unassigned. *)
Definition latin1_alnum (c : char) : bool :=
  (c =? 170) || (c =? 178) || (c =? 179) || (c =? 181) || (c =? 185)
  || (c =? 186) || ((188 <=? c) && (c <=? 190))
  || ((192 <=? c) && (c <=? 214)) || ((216 <=? c) && (c <=? 246))
  || ((248 <=? c) && (c <=? 255)).

Definition latin1_tables : UnicodeTables := {|
  uni_decimal := fun _ => None;
  uni_digit := fun c => (c =? 178) || (c =? 179) || (c =? 185);
  uni_alnum := latin1_alnum;
  uni_lower := fun c =>
    if ((192 <=? c) && (c <=? 214)) || ((216 <=? c) && (c <=? 222))
    then [c + 32] else [c];
  uni_decimal_space := fun _ _ => eq_refl
|}.

Section Chars.
Context {U : UnicodeTables}.

(** Value of a decimal digit (category Nd), as [int()], [float()] and the
    pattern [\d] see it. *)
Definition decimal_value (c : char) : option N :=
  if (48 <=? c) && (c <=? 57) then Some (c - 48)
  else if c <? 128 then None
  else uni_decimal c.

(** [\d] *)
Definition is_decimal (c : char) : bool :=
  match decimal_value c with Some _ => true | None => false end.

(** One character of [str.isdigit()]. *)
Definition is_digit_char (c : char) : bool :=
  if c <? 128 then (48 <=? c) && (c <=? 57) else uni_digit c.

(** [\w]: alphanumeric or underscore. *)
Definition is_word (c : char) : bool :=
  if c <? 128 then
    ((48 <=? c) && (c <=? 57)) || ((65 <=? c) && (c <=? 90))
    || ((97 <=? c) && (c <=? 122)) || (c =? 95)
  else uni_alnum c.

(** [.] without DOTALL: anything but a line feed. *)
Definition is_dot (c : char) : bool := negb (c =? 10).

(** Lower-casing of one code point by the matcher under IGNORECASE (the
    simple case mapping): only these code points map to an ASCII letter. *)
Definition simple_lower (c : char) : char :=
  if (65 <=? c) && (c <=? 90) then c + 32
  else if c =? 304 then 105
  else if c =? 8490 then 107
  else c.

(** A literal letter [l] (given in lower case) of a pattern compiled with
    IGNORECASE: it matches its two cases, and the matcher adds U+0131 for
    [i] and U+017F for [s]. *)
Definition ieq (l c : char) : bool :=
  (simple_lower c =? l)
  || ((l =? 105) && (c =? 305))
  || ((l =? 115) && (c =? 383)).

(** [str.lower()] on one code point. *)
Definition lower_char (c : char) : str :=
  if c <? 128 then [if (65 <=? c) && (c <=? 90) then c + 32 else c]
  else uni_lower c.

Definition lower (s : str) : str := flat_map lower_char s.

End Chars.

(** ** Patterns and the matcher

    The patterns of the source repeat single characters only ([\d+],
    [\s*], [.*?], [[\d,\.]*]), so repetition is over a character class;
    an optional part [r?] is the alternative of [r] and the empty
    pattern, tried in that order. *)
Inductive re :=
| Eps
| Chr (p : char -> bool)
| Cat (r1 r2 : re)
| Alt (r1 r2 : re)
| Star (greedy : bool) (p : char -> bool)
| Grp (n : nat) (r : re)
| Eos
| Wordb.

(** A position in the subject: the character before it (for [\b]), the
    text from it on, and the groups captured so far, latest first. *)
Record mstate := MState {
  prev : option char;
  rest : str;
  caps : list (nat * str)
}.

(** The part of [s] that lies before its suffix [s']. *)
Definition taken (s s' : str) : str := firstn (length s - length s') s.
Arguments taken : simpl never.

Fixpoint group (n : nat) (cs : list (nat * str)) : option str :=
  match cs with
  | [] => None
  | (i, t) :: cs' => if Nat.eqb i n then Some t else group n cs'
  end.

Definition plus (p : char -> bool) : re := Cat (Chr p) (Star true p).
Definition opt (r : re) : re := Alt r Eps.
Definition lit (a : ascii) : re := Chr (N.eqb (ch a)).
Definition cat (rs : list re) : re := fold_right Cat Eps rs.
Fixpoint alt (rs : list re) : re :=
  match rs with
  | [] => Eps
  | [r] => r
  | r :: rs' => Alt r (alt rs')
  end.

Fixpoint lits (s : string) : re :=
  match s with
  | EmptyString => Eps
  | String a s' => Cat (lit a) (lits s')
  end.

Section Matcher.
Context {U : UnicodeTables}.

Fixpoint ilits (s : string) : re :=
  match s with
  | EmptyString => Eps
  | String a s' => Cat (Chr (ieq (ch a))) (ilits s')
  end.

Definition word_opt (o : option char) : bool :=
  match o with Some c => is_word c | None => false end.

Fixpoint star_loop {R} (greedy : bool) (p : char -> bool)
    (pv : option char) (s : str) (k : option char -> str -> option R)
    : option R :=
  match s with
  | c :: s' =>
    if p c then
      if greedy then
        match star_loop greedy p (Some c) s' k with
        | Some x => Some x
        | None => k pv s
        end
      else
        match k pv s with
        | Some x => Some x
        | None => star_loop greedy p (Some c) s' k
        end
    else k pv s
  | [] => k pv s
  end.

(** [m r st k]: match [r] at [st] and hand the position reached to [k];
    when [k] fails the next way of matching [r] is tried. *)
Fixpoint m {R} (r : re) (st : mstate) (k : mstate -> option R) : option R :=
  match r with
  | Eps => k st
  | Chr p =>
    match rest st with
    | c :: s' => if p c then k (MState (Some c) s' (caps st)) else None
    | [] => None
    end
  | Cat r1 r2 => m r1 st (fun st1 => m r2 st1 k)
  | Alt r1 r2 =>
    match m r1 st k with
    | Some x => Some x
    | None => m r2 st k
    end
  | Star g p =>
    star_loop g p (prev st) (rest st) (fun pv s => k (MState pv s (caps st)))
  | Grp n r' =>
    m r' st (fun st' =>
      k (MState (prev st') (rest st')
                ((n, taken (rest st) (rest st')) :: caps st')))
  | Eos =>
    match rest st with
    | [] => k st
    | [c] => if c =? 10 then k st else None
    | _ => None
    end
  | Wordb =>
    if xorb (word_opt (prev st)) (word_opt (head (rest st)))
    then k st else None
  end.

(** One match: the text before it, the matched text, the text after it and
    its groups. *)
Record found := Found {
  before : str;
  whole : str;
  after : str;
  groups : list (nat * str)
}.

Definition match_here (r : re) (pv : option char) (s : str) : option mstate :=
  m r (MState pv s []) Some.

(** [re.match] *)
Definition re_match (r : re) (s : str) : option found :=
  match match_here r None s with
  | Some st => Some (Found [] (taken s (rest st)) (rest st) (caps st))
  | None => None
  end.

Fixpoint search_from (r : re) (pv : option char) (s : str) : option found :=
  match match_here r pv s with
  | Some st => Some (Found [] (taken s (rest st)) (rest st) (caps st))
  | None =>
    match s with
    | [] => None
    | c :: s' =>
      match search_from r (Some c) s' with
      | Some f => Some (Found (c :: before f) (whole f) (after f) (groups f))
      | None => None
      end
    end
  end.

(** [re.search] *)
Definition re_search (r : re) (s : str) : option found := search_from r None s.

(** [re.sub] with a constant replacement.  Matches are taken from left to
    right and do not overlap: [skip] counts the characters of the last
    match still to pass over.  After an empty match the scan advances by
    one character. *)
Fixpoint sub_loop (r : re) (repl : str) (pv : option char) (s : str)
    (skip : nat) {struct s} : str :=
  match s with
  | [] =>
    match skip with
    | O => match match_here r pv [] with Some _ => repl | None => [] end
    | S _ => []
    end
  | c :: s' =>
    match skip with
    | S n => sub_loop r repl (Some c) s' n
    | O =>
      match match_here r pv s with
      | Some st =>
        match (length s - length (rest st))%nat with
        | O => repl ++ c :: sub_loop r repl (Some c) s' 0
        | S n => repl ++ sub_loop r repl (Some c) s' n
        end
      | None => c :: sub_loop r repl (Some c) s' 0
      end
    end
  end.

Definition re_sub (r : re) (repl : str) (s : str) : str :=
  sub_loop r repl None s 0.

(** The matches [re.findall] walks through, each with its text and its
    groups. *)
Fixpoint find_loop (r : re) (pv : option char) (s : str) (skip : nat)
    {struct s} : list (str * list (nat * str)) :=
  match s with
  | [] =>
    match skip with
    | O => match match_here r pv [] with
           | Some st => [([], caps st)]
           | None => []
           end
    | S _ => []
    end
  | c :: s' =>
    match skip with
    | S n => find_loop r (Some c) s' n
    | O =>
      match match_here r pv s with
      | Some st =>
        (taken s (rest st), caps st) ::
        find_loop r (Some c) s' (pred (length s - length (rest st)))
      | None => find_loop r (Some c) s' 0
      end
    end
  end.

(** [re.findall] for a pattern with exactly one group: the list of the
    texts of group 1. *)
Definition re_findall1 (r : re) (s : str) : list str :=
  map (fun mt => match group 1 (snd mt) with Some t => t | None => [] end)
      (find_loop r None s 0).

(** [re.split] with [maxsplit=1] for a pattern without groups. *)
Definition re_split1 (r : re) (s : str) : list str :=
  match re_search r s with
  | Some f => [before f; after f]
  | None => [s]
  end.

End Matcher.

(** ** Exceptions *)

Inductive exn :=
| ValueError | TypeError | AttributeError | IndexError | KeyError
| OverflowError.

Inductive result (A : Type) :=
| Ok (a : A)
| Raise (e : exn).
Arguments Ok {A} a.
Arguments Raise {A} e.

Definition bind {A B} (r : result A) (f : A -> result B) : result B :=
  match r with
  | Ok a => f a
  | Raise e => Raise e
  end.

Notation "'let*' x ':=' e 'in' k" := (bind e (fun x => k))
  (at level 10, x pattern, e at level 100, k at level 200).

(** [try: body / except: handler] with a bare [except]. *)
Definition try_except {A} (body handler : result A) : result A :=
  match body with
  | Ok a => Ok a
  | Raise _ => handler
  end.

Definition returns {A} (r : result A) : Prop := exists a, r = Ok a.

(** ** Floats

    [float] is IEEE 754 binary64, computed by the operations of the
    Standard Library's specification of floating-point arithmetic. *)
Definition fprec : Z := 53.
Definition femax : Z := 1024.
Definition float := spec_float.

(** [float(n)] for an integer [n]. *)
Definition float_of_Z (z : Z) : float := binary_normalize fprec femax z 0 false.

(** The float nearest to [mant / 10^scale] (ties to even): the value
    [float()] gives a decimal numeral. *)
Definition pow10 (scale : N) : positive :=
  match scale with
  | N0 => 1%positive
  | Npos q => Pos.pow 10 q
  end.

Definition float_of_decimal (mant : N) (scale : N) : float :=
  match mant with
  | N0 => S754_zero false
  | Npos p =>
    SFdiv fprec femax (S754_finite false p 0)
          (S754_finite false (pow10 scale) 0)
  end.

Definition fmul (x y : float) : float := SFmul fprec femax x y.

(** [int(x)] for a float [x]: truncation toward zero. *)
Definition int_of_float (x : float) : result Z :=
  match x with
  | S754_zero _ => Ok 0%Z
  | S754_infinity _ => Raise OverflowError
  | S754_nan => Raise ValueError
  | S754_finite s mt e => Ok (cond_Zopp s (Z.shiftl (Zpos mt) e))
  end.

(** ** String methods and conversions *)

Section Builtins.
Context {U : UnicodeTables}.

Fixpoint drop_while (p : char -> bool) (s : str) : str :=
  match s with
  | c :: s' => if p c then drop_while p s' else s
  | [] => []
  end.

Definition lstrip_by (p : char -> bool) (s : str) : str := drop_while p s.
Definition rstrip_by (p : char -> bool) (s : str) : str :=
  rev (drop_while p (rev s)).
Definition strip_by (p : char -> bool) (s : str) : str :=
  rstrip_by p (lstrip_by p s).

Definition mem (cs : str) (c : char) : bool := existsb (N.eqb c) cs.

(** [s.strip()] *)
Definition strip (s : str) : str := strip_by is_space s.
(** [s.strip(chars)] and [s.rstrip(chars)] *)
Definition strip_chars (cs : str) (s : str) : str := strip_by (mem cs) s.
Definition rstrip_chars (cs : str) (s : str) : str := rstrip_by (mem cs) s.

Fixpoint is_prefix (p s : str) : bool :=
  match p, s with
  | [], _ => true
  | a :: p', b :: s' => (a =? b) && is_prefix p' s'
  | _ :: _, [] => false
  end.

(** [s.startswith(p)] *)
Definition startswith (p s : str) : bool := is_prefix p s.

(** [needle in s] *)
Fixpoint contains (needle s : str) : bool :=
  is_prefix needle s ||
  match s with
  | [] => false
  | _ :: s' => contains needle s'
  end.

(** [s.replace(old, new)] for a non-empty [old]; [skip] counts the
    characters of the occurrence being passed over. *)
Fixpoint replace_loop (old new : str) (s : str) (skip : nat) : str :=
  match s with
  | [] => []
  | c :: s' =>
    match skip with
    | S n => replace_loop old new s' n
    | O =>
      if is_prefix old s
      then new ++ replace_loop old new s' (pred (length old))
      else c :: replace_loop old new s' 0
    end
  end.

Definition replace (old new s : str) : str := replace_loop old new s 0.

(** [s.split(sep)] for a non-empty [sep]; [cur] is the piece being read,
    last character first. *)
Fixpoint split_loop (sep : str) (s : str) (skip : nat) (cur : str)
    : list str :=
  match s with
  | [] => [rev cur]
  | c :: s' =>
    match skip with
    | S n => split_loop sep s' n cur
    | O =>
      if is_prefix sep s
      then rev cur :: split_loop sep s' (pred (length sep)) []
      else split_loop sep s' 0 (c :: cur)
    end
  end.

Definition split (sep s : str) : list str := split_loop sep s 0 [].

(** [l[i]] *)
Definition index {A} (l : list A) (i : nat) : result A :=
  match nth_error l i with
  | Some a => Ok a
  | None => Raise IndexError
  end.

(** [', '.join(l)] and the like. *)
Fixpoint join (sep : str) (l : list str) : str :=
  match l with
  | [] => []
  | [a] => a
  | a :: l' => a ++ sep ++ join sep l'
  end.

(** [s in l] for a list [l] of strings. *)
Definition mem_str (s : str) (l : list str) : bool :=
  existsb (fun t => bool_decide (s = t)) l.

(** [s.isdigit()] *)
Definition isdigit (s : str) : bool :=
  match s with
  | [] => false
  | _ => forallb is_digit_char s
  end.

(** The digits of an integer literal: decimal digits, with single
    underscores allowed between two digits.  [last] tells whether the
    character before was a digit. *)
Fixpoint int_digits (acc : N) (last : bool) (s : str) : option N :=
  match s with
  | [] => if last then Some acc else None
  | c :: s' =>
    match decimal_value c with
    | Some d => int_digits (acc * 10 + d) true s'
    | None => if (c =? 95) && last then int_digits acc false s' else None
    end
  end.

(** The most digits [int] reads from a string in base ten: the
    interpreter's limit, [sys.get_int_max_str_digits()], as it is set by
    default.  The scripts do not change it. *)
Definition max_str_digits : N := 4300.

(** [int(s)] for a string [s]: white space around is dropped, a sign is
    allowed, base ten.  A literal of more than [max_str_digits] digits
    (underscores not counted) is refused with a [ValueError], as is a text
    that is no literal. *)
Definition py_int (s : str) : result Z :=
  let t := strip s in
  let '(neg, ds) :=
    match t with
    | c :: t' => if c =? 45 then (true, t')
                 else if c =? 43 then (false, t') else (false, t)
    | [] => (false, t)
    end in
  match int_digits 0 false ds with
  | Some n =>
    if max_str_digits <? N.of_nat (length (List.filter is_decimal ds))
    then Raise ValueError
    else Ok (if neg : bool then (- Z.of_N n)%Z else Z.of_N n)
  | None => Raise ValueError
  end.

(** [int(m.group(i))]: a group that took no part in the match is [None],
    which [int] refuses. *)
Definition py_int_opt (o : option str) : result Z :=
  match o with
  | Some s => py_int s
  | None => Raise TypeError
  end.

(** The digits before and after the point of a decimal numeral:
    [dec_digits] reads a run of decimal digits into [acc] and returns it
    with the number of digits read and the text left. *)
Fixpoint dec_digits (acc : N) (cnt : N) (s : str) : N * N * str :=
  match s with
  | c :: s' =>
    match decimal_value c with
    | Some d => dec_digits (acc * 10 + d) (cnt + 1) s'
    | None => (acc, cnt, s)
    end
  | [] => (acc, cnt, s)
  end.

(** [float(s)] on the strings the cleaners pass to it, which are made of
    decimal digits and points only: digits with an optional point and
    fraction, or a point and a fraction; anything else is a [ValueError]. *)
Definition py_float (s : str) : result float :=
  let '(ip, n1, s1) := dec_digits 0 0 s in
  match s1 with
  | [] => if n1 =? 0 then Raise ValueError else Ok (float_of_decimal ip 0)
  | c :: s2 =>
    if c =? 46 then
      let '(mant, n2, s3) := dec_digits ip 0 s2 in
      match s3 with
      | [] => if (n1 =? 0) && (n2 =? 0) then Raise ValueError
              else Ok (float_of_decimal mant n2)
      | _ :: _ => Raise ValueError
      end
    else Raise ValueError
  end.

Definition py_float_opt (o : option str) : result float :=
  match o with
  | Some s => py_float s
  | None => Raise TypeError
  end.

End Builtins.

(** ** The startups cleaner ([sf_bay_area_startups_cleaner.py]) *)

Module StartupsCleaner.
Section Defs.
Context {U : UnicodeTables}.

(** [(\d+)-(\d+)] *)
Definition size_range_re : re :=
  cat [Grp 1 (plus is_decimal); lit "-"; Grp 2 (plus is_decimal)].

(** [(\d+)\+ employees] *)
Definition size_plus_re : re :=
  cat [Grp 1 (plus is_decimal); lit "+"; lits " employees"].

Definition parse_company_size (size_str : str) : result (option Z) :=
  match re_match size_range_re size_str with
  | Some mt =>
    let* low := py_int_opt (group 1 (groups mt)) in
    let* high := py_int_opt (group 2 (groups mt)) in
    Ok (Some ((low + high) / 2)%Z)
  | None =>
    match re_match size_plus_re size_str with
    | Some plus_match =>
      let* base := py_int_opt (group 1 (groups plus_match)) in
      Ok (Some base)
    | None => Ok None
    end
  end.

Definition parse_founded_year (year_str : str) : result (option Z) :=
  match strip year_str with
  | _ :: _ =>
    let* y := py_int (strip year_str) in
    Ok (Some y)
  | [] => Ok None
  end.

(** [\$([\d\.]+)([MB])] *)
Definition currency_re : re :=
  cat [lit "$";
       Grp 1 (plus (fun c => is_decimal c || (c =? ch ".")));
       Grp 2 (Chr (fun c => (c =? ch "M") || (c =? ch "B")))].

Definition parse_currency_field (value_str : str)
    : result (option float * option str) :=
  match value_str with
  | [] => Ok (None, None)
  | _ :: _ =>
    match strip value_str with
    | [] => Ok (None, None)
    | _ :: _ =>
      match re_search currency_re value_str with
      | Some mt =>
        let* amount := py_float_opt (group 1 (groups mt)) in
        let unit := group 2 (groups mt) in
        if decide (unit = Some (utf8 "B"))
        then Ok (Some (fmul amount (float_of_Z 1000)), unit)
        else Ok (Some amount, unit)
      | None => Ok (None, None)
      end
    end
  end.

End Defs.
End StartupsCleaner.

(** ** The companies cleaner ([sf_bay_area_companies_cleaner.py]) *)

Module CompaniesCleaner.
Section Defs.
Context {U : UnicodeTables}.

(** [\bU\.S\.\b] *)
Definition us_re : re :=
  cat [Wordb; lit "U"; lit "."; lit "S"; lit "."; Wordb].

Definition normalize_location (location_str : str) : str :=
  match location_str with
  | [] => location_str
  | _ :: _ =>
    let normalized := re_sub us_re (utf8 "US") location_str in
    strip normalized
  end.

(** [\[.*?\]] *)
Definition bracket_re : re := cat [lit "["; Star false is_dot; lit "]"].

Definition clean_headquarters (value : str) : str :=
  match value with
  | [] => value
  | _ :: _ =>
    let cleaned := re_sub bracket_re [] value in
    let cleaned := normalize_location cleaned in
    strip cleaned
  end.

(** [\d+\s+years\s+ago\s*\(.*?\)] and [\d+\s+years\s+ago], both compiled
    with IGNORECASE. *)
Definition ago_re : re :=
  cat [plus is_decimal; plus is_space; ilits "years"; plus is_space;
       ilits "ago"].
Definition ago_paren_re : re :=
  cat [plus is_decimal; plus is_space; ilits "years"; plus is_space;
       ilits "ago"; Star true is_space; lit "("; Star false is_dot; lit ")"].

Definition clean_founded (value : str) : str :=
  match value with
  | [] => value
  | _ :: _ =>
    let cleaned := re_sub ago_paren_re [] value in
    let cleaned := re_sub ago_re [] cleaned in
    let cleaned := strip_chars (utf8 "; ") cleaned in
    strip cleaned
  end.

(** [(\d{4})] *)
Definition year_re : re :=
  Grp 1 (cat [Chr is_decimal; Chr is_decimal; Chr is_decimal; Chr is_decimal]).

Fixpoint map_result {A B} (f : A -> result B) (l : list A) : result (list B) :=
  match l with
  | [] => Ok []
  | a :: l' =>
    let* b := f a in
    let* bs := map_result f l' in
    Ok (b :: bs)
  end.

(** [min] of a non-empty list. *)
Definition py_min (y : Z) (ys : list Z) : Z := fold_left Z.min ys y.

Definition parse_year_field (value : str) : result (option Z) :=
  match value with
  | [] => Ok None
  | _ :: _ =>
    let matches := re_findall1 year_re value in
    match matches with
    | _ :: _ =>
      let* years := map_result py_int matches in
      match years with
      | y :: ys => Ok (Some (py_min y ys))
      | [] => Raise ValueError
      end
    | [] => Ok None
    end
  end.

(** The pattern of [parse_employees]: one group, a decimal digit and then
    the longest run of [[\d,\.]]. *)
Definition employees_re : re :=
  Grp 1 (cat [Chr is_decimal;
              Star true (fun c => is_decimal c || (c =? ch ",") || (c =? ch "."))]).

Definition parse_employees (value : str) : result (option Z) :=
  match value with
  | [] => Ok None
  | _ :: _ =>
    let digits := re_findall1 employees_re value in
    match digits with
    | d0 :: _ =>
      let num_str := strip (replace (utf8 "~") [] (replace (utf8 ",") [] d0)) in
      let num_str := rstrip_chars (utf8 ".") num_str in
      if isdigit num_str then
        let* n := py_int num_str in
        Ok (Some n)
      else
        try_except
          (let* x := py_float num_str in
           let* n := int_of_float x in
           Ok (Some n))
          (Ok None)
    | [] => Ok None
    end
  end.

(** [US?\$([\d\.,]+)\s*(billion|million|m|b)?] compiled with IGNORECASE. *)
Definition revenue_re : re :=
  cat [Chr (ieq (ch "u")); opt (Chr (ieq (ch "s"))); lit "$";
       Grp 1 (plus (fun c => is_decimal c || (c =? ch ".") || (c =? ch ",")));
       Star true is_space;
       opt (Grp 2 (alt [ilits "billion"; ilits "million"; ilits "m";
                        ilits "b"]))].

Definition parse_revenue (value : str) : result (option float * option str) :=
  match value with
  | [] => Ok (None, None)
  | _ :: _ =>
    match strip value with
    | [] => Ok (None, None)
    | _ :: _ =>
      let val_str := strip (replace [160] (utf8 " ") value) in
      match re_search revenue_re val_str with
      | Some mt =>
        match option_map (replace (utf8 ",") []) (group 1 (groups mt)) with
        | None => Raise AttributeError
        | Some amount_str =>
          let unit_str := group 2 (groups mt) in
          match py_float amount_str with
          | Raise _ => Ok (None, None)
          | Ok amount =>
            match unit_str with
            | Some (c :: u) =>
              let unit_str := lower (c :: u) in
              if mem_str unit_str [utf8 "billion"; utf8 "b"]
              then Ok (Some (fmul amount (float_of_Z 1000)), Some (utf8 "B"))
              else if mem_str unit_str [utf8 "million"; utf8 "m"]
              then Ok (Some amount, Some (utf8 "M"))
              else Ok (Some amount, Some (utf8 "M"))
            | _ => Ok (Some amount, Some (utf8 "M"))
            end
          end
        end
      | None => Ok (None, None)
      end
    end
  end.

End Defs.
End CompaniesCleaner.

(** ** Records and statements

    A record is a Python [dict] from field names to values.  The code
    fills it by assignments inside [try] blocks; an exception leaves the
    assignments made so far in place, so a statement maps a [dict] to the
    [dict] it leaves and the exception it raised, if any. *)

Inductive pyval :=
| VNone
| VStr (s : str)
| VInt (z : Z)
| VList (l : list str).

Definition opt_str (o : option str) : pyval :=
  match o with
  | Some s => VStr s
  | None => VNone
  end.

(** [x.m()] where [x] may be [None]. *)
Definition deref {A} (o : option A) : result A :=
  match o with
  | Some a => Ok a
  | None => Raise AttributeError
  end.

Definition stmt : Type := gmap string pyval -> gmap string pyval * option exn.

Definition skip : stmt := fun d => (d, None).

(** [d[k] = e] *)
Definition assign (k : string) (e : result pyval) : stmt := fun d =>
  match e with
  | Ok v => (<[k:=v]> d, None)
  | Raise x => (d, Some x)
  end.

(** [d[k].append(t)] *)
Definition append (k : string) (t : str) : stmt := fun d =>
  match d !! k with
  | Some (VList l) => (<[k:=VList (l ++ [t])]> d, None)
  | Some _ => (d, Some AttributeError)
  | None => (d, Some KeyError)
  end.

Definition seq (s1 s2 : stmt) : stmt := fun d =>
  match s1 d with
  | (d1, None) => s2 d1
  | (d1, Some x) => (d1, Some x)
  end.

Fixpoint block (ss : list stmt) : stmt :=
  match ss with
  | [] => skip
  | s :: ss' => seq s (block ss')
  end.

(** [try: body / except: handler] on statements. *)
Definition try_stmt (body handler : stmt) : stmt := fun d =>
  match body d with
  | (d1, None) => (d1, None)
  | (d1, Some _) => handler d1
  end.

(** [for x in l: body x] *)
Definition for_each {A} (l : list A) (body : A -> stmt) : stmt :=
  block (map body l).

(** ** The parsed document

    The HTML tree and its queries belong to the parser library; the
    extractors use them through this interface.  [find_all n q] lists the
    descendants of [n] that the query selects, in document order. *)
Inductive attr_test :=
| AttrIs (v : string)
| AttrPresent.

Record query := Query {
  q_names : list string;
  q_attrs : list (string * attr_test);
  q_text : option string
}.

Class Document (node : Type) := {
  find_all : node -> query -> list node;
  (** [n.name] *)
  tag_name : node -> string;
  (** [n.text], [n.get_text()] *)
  text_of : node -> str;
  (** [n.find_next_sibling(text=True)] *)
  next_text : node -> option str;
  (** [n.get(a)] *)
  attr : node -> string -> option str
}.

(** [n.find(...)]: the first result of [find_all], or [None]. *)
Definition find {node} `{Document node} (n : node) (q : query) : option node :=
  head (find_all n q).

(** ** The directory scraper ([scraper.py]) *)

Module Scraper.
Section Defs.
Context {U : UnicodeTables} {node : Type} {D : Document node}.

Definition q_h3 := Query ["h3"%string] [] None.
Definition q_what := Query ["b"%string] [] (Some "What they do: "%string).
Definition q_badge :=
  Query ["span"%string]
        [("class"%string, AttrIs "badge rounded-pill bg-success")] None.
Definition q_quick := Query ["b"%string] [] (Some "Quick facts: "%string).
Definition q_size :=
  Query ["span"%string] [("id"%string, AttrIs "company-size-tags")] None.
Definition q_funding :=
  Query ["span"%string] [("id"%string, AttrIs "funding-tags")] None.
Definition q_website :=
  Query ["a"%string] [("id"%string, AttrIs "startup-website-link")] None.

Definition name_block (card : node) : stmt :=
  try_stmt
    (assign "name"
       (let* h := deref (find card q_h3) in
        Ok (VStr (strip (text_of h)))))
    (assign "name" (Ok VNone)).

Definition description_block (card : node) : stmt :=
  try_stmt
    (let description_element := find card q_what in
     assign "description"
       (match description_element with
        | Some e =>
          let* t := deref (next_text e) in
          Ok (VStr (strip t))
        | None => Ok VNone
        end))
    (assign "description" (Ok VNone)).

Definition industries_block (card : node) : stmt :=
  try_stmt
    (let industry_tags := find_all card q_badge in
     assign "industries"
       (Ok (VList
          (map (fun tag => strip (text_of tag))
             (filter (fun tag => attr tag "id" = Some (utf8 "industry-tags"))
                     industry_tags)))))
    (assign "industries" (Ok (VList []))).

Definition location_block (card : node) : stmt :=
  try_stmt
    (assign "location"
       (let* quick_facts := deref (find card q_quick) in
        match next_text quick_facts with
        | Some (c :: t) =>
          let location_text := c :: t in
          let* tl := index (split (utf8 "📍HQ: ") (strip location_text)) 1 in
          let* hd := index (split [10] tl) 0 in
          Ok (VStr hd)
        | _ => Ok VNone
        end))
    (assign "location" (Ok VNone)).

Definition size_block (card : node) : stmt :=
  try_stmt
    (let size_tags := find_all card q_size in
     block [
       assign "company_size"
         (match size_tags with
          | _ :: _ =>
            let* t := index size_tags 0 in
            Ok (VStr (strip (text_of t)))
          | [] => Ok VNone
          end);
       assign "founded_year"
         (if (1 <? length size_tags)%nat then
            let* t := index size_tags 1 in
            Ok (VStr (replace (utf8 "Founded: ") [] (strip (text_of t))))
          else Ok VNone)])
    (block [assign "company_size" (Ok VNone);
            assign "founded_year" (Ok VNone)]).

Definition is_funding_text (text : str) : bool :=
  contains (utf8 "Series") text || contains (utf8 "seed") (lower text).

Definition is_valuation_text (text : str) : bool :=
  contains (utf8 "valuation") (lower text).

Definition funding_tag (text : str) : stmt :=
  if is_funding_text text then assign "latest_funding" (Ok (VStr text))
  else if is_valuation_text text then assign "valuation" (Ok (VStr text))
  else append "investors" text.

Definition funding_block (card : node) : stmt :=
  try_stmt
    (let funding_tags := find_all card q_funding in
     block [
       assign "investors" (Ok (VList []));
       assign "latest_funding" (Ok VNone);
       assign "valuation" (Ok VNone);
       for_each funding_tags (fun tag => funding_tag (strip (text_of tag)))])
    (block [assign "investors" (Ok (VList []));
            assign "latest_funding" (Ok VNone);
            assign "valuation" (Ok VNone)]).

Definition website_block (card : node) : stmt :=
  try_stmt
    (let website_link := find card q_website in
     assign "website"
       (match website_link with
        | Some a =>
          let* href :=
            match attr a "href" with
            | Some h => Ok h
            | None => Raise KeyError
            end in
          let* u := index (split (utf8 "?") href) 0 in
          Ok (VStr u)
        | None => Ok VNone
        end))
    (assign "website" (Ok VNone)).

Definition extract_startup_info (card : node)
    : gmap string pyval * option exn :=
  block [name_block card; description_block card; industries_block card;
         location_block card; size_block card; funding_block card;
         website_block card] ∅.

End Defs.
End Scraper.

(** ** The wiki list scraper ([sf_bay_area_companies_scraper.py]) *)

Module WikiScraper.

(** What the scraper writes to the log. *)
Inductive log_entry :=
| Processing (text : str)
| CouldNotParse (text : str)
| ErrorParsing (text : str) (e : exn)
| ErrorFetching (url : str).

(** One item of the list page, as [parse_company_list] returns it. *)
Record list_item := ListItem {
  item_industry : str;
  item_text : str;
  item_link : option str
}.

Section Defs.
Context {U : UnicodeTables} {node : Type} {D : Document node}.

(** The network: the page a URL answers with, parsed; [None] when the
    request fails.  [urljoin] and the HTML parser are the libraries'. *)
Variable fetch : str -> option node.
Variable urljoin : str -> str -> str.
(** [BeautifulSoup(content, 'html.parser')] *)
Variable parse_html : str -> node.

Definition base_url : str := utf8 "https://en.wikipedia.org".

Definition get_page (url : str) : option node * list log_entry :=
  match fetch url with
  | Some page => (Some page, [])
  | None => (None, [ErrorFetching url])
  end.

Definition is_dash (c : char) : bool := (c =? 8211) || (c =? ch "-").

(** [\s+[–-]\s+] *)
Definition sep_re : re := cat [plus is_space; Chr is_dash; plus is_space].

(** [(.*?)\s*(?:\((.*?)\))?$] *)
Definition location_re : re :=
  cat [Grp 1 (Star false is_dot); Star true is_space;
       opt (cat [lit "("; Grp 2 (Star false is_dot); lit ")"]); Eos].

(** [\((\d+)\)] *)
Definition rank_re : re := cat [lit "("; Grp 1 (plus is_decimal); lit ")"].

(** [\s*\(\d+\)] *)
Definition rank_strip_re : re :=
  cat [Star true is_space; lit "("; plus is_decimal; lit ")"].

Definition entry_record (name industry location : str)
    (fortune_rank : option Z) (notes : option str) : gmap string pyval :=
  <["notes" := opt_str notes]>
  (<["fortune_500_rank" :=
       match fortune_rank with Some r => VInt r | None => VNone end]>
  (<["headquarters" := VStr location]>
  (<["industry" := VStr industry]>
  (<["name" := VStr name]> ∅)))).

(** The body of the [try] of [parse_list_entry]. *)
Definition parse_list_entry_body (text industry : str)
    : result (option (gmap string pyval) * list log_entry) :=
  let parts := re_split1 sep_re text in
  match parts with
  | [name; location] =>
    let name := strip name in
    let location := strip location in
    let* (location, notes) :=
      if contains (utf8 "(") location then
        match re_match location_re location with
        | Some location_match =>
          let* g1 := deref (group 1 (groups location_match)) in
          Ok (strip g1, group 2 (groups location_match))
        | None => Ok (location, None)
        end
      else Ok (location, None) in
    let* (name, fortune_rank) :=
      match re_search rank_re name with
      | Some rank_match =>
        let* r := py_int_opt (group 1 (groups rank_match)) in
        Ok (re_sub rank_strip_re [] name, Some r)
      | None => Ok (name, None)
      end in
    Ok (Some (entry_record name industry location fortune_rank notes), [])
  | _ => Ok (None, [CouldNotParse text])
  end.

Definition parse_list_entry (text industry : str)
    : option (gmap string pyval) * list log_entry :=
  match parse_list_entry_body text industry with
  | Ok r => r
  | Raise e => (None, [ErrorParsing text e])
  end.

Definition q_sections := Query ["h2"; "h3"; "ul"]%string [] None.
Definition q_headline :=
  Query ["span"%string] [("class"%string, AttrIs "mw-headline")] None.
Definition q_li := Query ["li"%string] [] None.
Definition q_link := Query ["a"%string] [("href"%string, AttrPresent)] None.

Definition read_item (current_industry : str) (item : node)
    : result list_item :=
  let link := find item q_link in
  let* href :=
    match link with
    | Some a =>
      match attr a "href" with
      | Some h => Ok (Some h)
      | None => Raise KeyError
      end
    | None => Ok None
    end in
  Ok (ListItem current_industry (strip (text_of item)) href).

(** The loop of [parse_company_list] over the headings and lists of the
    page, with the heading last seen. *)
Fixpoint company_list_loop (elements : list node) (current_industry : option str)
    : result (list list_item) :=
  match elements with
  | [] => Ok []
  | element :: elements' =>
    if bool_decide (tag_name element ∈ ["h2"; "h3"]%string) then
      let industry_elem := find element q_headline in
      let current_industry :=
        match industry_elem with
        | Some e => strip (text_of e)
        | None => strip (text_of element)
        end in
      company_list_loop elements' (Some current_industry)
    else
      match current_industry with
      | Some (c :: ind) =>
        if bool_decide (tag_name element = "ul"%string) then
          let* items := CompaniesCleaner.map_result (read_item (c :: ind))
                          (find_all element q_li) in
          let* more := company_list_loop elements' current_industry in
          Ok (items ++ more)
        else company_list_loop elements' current_industry
      | _ => company_list_loop elements' current_industry
      end
  end.

Definition parse_company_list (content : str) : result (list list_item) :=
  let soup := parse_html content in
  company_list_loop (find_all soup q_sections) None.

(** The [field_mapping] of [parse_infobox], from the header of an infobox
    row to the field it fills. *)
Definition field_mapping : list (string * string) :=
  [("Industry", "industry"); ("Founded", "founded");
   ("Headquarters", "headquarters"); ("Revenue", "revenue");
   ("Number of employees", "employees"); ("Type", "type");
   ("Traded as", "traded_as"); ("Founders", "founders");
   ("Key people", "key_people"); ("Services", "services");
   ("Subsidiaries", "subsidiaries"); ("Website", "website")]%string.

Fixpoint mapping_get (m : list (string * string)) (h : str) : option string :=
  match m with
  | [] => None
  | (k, f) :: m' => if bool_decide (utf8 k = h) then Some f else mapping_get m' h
  end.

Definition list_fields : list string :=
  ["services"; "subsidiaries"; "founders"; "key_people"]%string.

Definition q_infobox :=
  Query ["table"%string] [("class"%string, AttrIs "infobox")] None.
Definition q_tr := Query ["tr"%string] [] None.
Definition q_th := Query ["th"%string] [] None.
Definition q_td := Query ["td"%string] [] None.

(** One turn of the loop of [parse_infobox] over the rows. *)
Definition infobox_row (data : gmap string pyval) (row : node)
    : gmap string pyval :=
  match find row q_th with
  | None => data
  | Some header =>
    let header_text := strip (text_of header) in
    match mapping_get field_mapping header_text with
    | None => data
    | Some field_name =>
      match find row q_td with
      | None => data
      | Some value =>
        if bool_decide (field_name ∈ list_fields) then
          match find_all value q_li with
          | _ :: _ as items =>
            <[field_name := VList (map (fun item => strip (text_of item)) items)]> data
          | [] =>
            <[field_name := VList (map strip (split (utf8 ",") (text_of value)))]> data
          end
        else <[field_name := VStr (strip (text_of value))]> data
      end
    end
  end.

Definition parse_infobox (soup : node) : gmap string pyval :=
  match find soup q_infobox with
  | None => ∅
  | Some infobox => fold_left infobox_row (find_all infobox q_tr) ∅
  end.

(** [basic_data.update(detailed_data)]: the keys of [detailed_data] take
    its values, the others keep theirs. *)
Definition update (basic_data detailed_data : gmap string pyval)
    : gmap string pyval :=
  detailed_data ∪ basic_data.

(** The detail page of a company whose link is a wiki link. *)
Definition add_details (company : list_item) (basic_data : gmap string pyval)
    : gmap string pyval * list log_entry :=
  match item_link company with
  | Some (c :: l) =>
    let link := c :: l in
    if startswith (utf8 "/wiki/") link then
      let url := urljoin base_url link in
      match get_page url with
      | (Some detailed_page, lg) =>
        let detailed_data := parse_infobox detailed_page in
        (<["wikipedia_url" := VStr url]> (update basic_data detailed_data), lg)
      | (None, lg) => (basic_data, lg)
      end
    else (basic_data, [])
  | _ => (basic_data, [])
  end.

(** One turn of the loop of [process_companies]; the state is
    [self.companies] and the log. *)
Definition process_company
    (st : list (gmap string pyval) * list log_entry) (company : list_item)
    : list (gmap string pyval) * list log_entry :=
  let '(companies, lg) := st in
  let lg := lg ++ [Processing (item_text company)] in
  let '(basic_data, lg1) :=
    parse_list_entry (item_text company) (item_industry company) in
  let lg := lg ++ lg1 in
  match basic_data with
  | Some basic_data =>
    if bool_decide (basic_data = ∅) then (companies, lg)
    else
      let '(basic_data, lg2) := add_details company basic_data in
      (companies ++ [basic_data], lg ++ lg2)
  | None => (companies, lg)
  end.

Definition process_entries (companies : list list_item)
    (st : list (gmap string pyval) * list log_entry)
    : list (gmap string pyval) * list log_entry :=
  fold_left process_company companies st.

Definition process_companies (content : str)
    (st : list (gmap string pyval) * list log_entry)
    : result (list (gmap string pyval) * list log_entry) :=
  let* companies := parse_company_list content in
  Ok (process_entries companies st).

End Defs.
End WikiScraper.

(** ** A concrete document

    A small HTML tree with the queries of the interface, for running the
    extractors on written-out pages.  A node is an element of the tree
    together with the siblings that follow it. *)

Module Html.

#[warnings="-register-all"]
Inductive html :=
| Elem (name : string) (attrs : list (string * string)) (kids : list html)
| Text (s : string).

Definition hnode : Type := html * list html.

Fixpoint nodes_of (h : html) (sibs : list html) {struct h} : list hnode :=
  (h, sibs) ::
  match h with
  | Elem _ _ kids =>
    (fix go (hs : list html) : list hnode :=
       match hs with
       | [] => []
       | k :: hs' => nodes_of k hs' ++ go hs'
       end) kids
  | Text _ => []
  end.

Fixpoint all_text (h : html) : string :=
  match h with
  | Elem _ _ kids =>
    (fix go (hs : list html) : string :=
       match hs with
       | [] => ""
       | k :: hs' => all_text k +:+ go hs'
       end) kids
  | Text s => s
  end.

(** [n.string]: the text of a node that holds nothing but one string. *)
Fixpoint string_of (h : html) : option string :=
  match h with
  | Elem _ _ [k] => string_of k
  | Elem _ _ _ => None
  | Text s => Some s
  end.

Fixpoint assoc (a : string) (l : list (string * string)) : option string :=
  match l with
  | [] => None
  | (k, v) :: l' => if String.eqb k a then Some v else assoc a l'
  end.

Fixpoint words_loop (s : string) (cur : string) : list string :=
  match s with
  | EmptyString => [cur]
  | String a s' =>
    if Ascii.eqb a " " then cur :: words_loop s' ""
    else words_loop s' (cur +:+ String a "")
  end.

Definition words (s : string) : list string := words_loop s "".

Definition attr_ok (attrs : list (string * string)) (t : string * attr_test)
    : bool :=
  match assoc (fst t) attrs, snd t with
  | Some v, AttrIs w =>
    String.eqb v w
    || (String.eqb (fst t) "class" && existsb (String.eqb w) (words v))
  | Some _, AttrPresent => true
  | None, _ => false
  end.

Definition selects (q : query) (n : hnode) : bool :=
  match fst n with
  | Elem name attrs _ =>
    existsb (String.eqb name) (q_names q)
    && forallb (attr_ok attrs) (q_attrs q)
    && match q_text q with
       | Some t => match string_of (fst n) with
                   | Some s => String.eqb s t
                   | None => false
                   end
       | None => true
       end
  | Text _ => false
  end.

Definition html_find_all (n : hnode) (q : query) : list hnode :=
  List.filter (selects q) (tl (nodes_of (fst n) (snd n))).

Fixpoint first_text (hs : list html) : option str :=
  match hs with
  | [] => None
  | Text s :: _ => Some (utf8 s)
  | Elem _ _ _ :: hs' => first_text hs'
  end.

Definition html_document : Document hnode := {|
  find_all := html_find_all;
  tag_name := fun n => match fst n with Elem name _ _ => name | Text _ => "" end;
  text_of := fun n => utf8 (all_text (fst n));
  next_text := fun n => first_text (snd n);
  attr := fun n a =>
    match fst n with
    | Elem _ attrs _ => option_map utf8 (assoc a attrs)
    | Text _ => None
    end
|}.

End Html.

(** ** What a pattern matches

    [matches r st st']: the pattern [r] can match from the position [st]
    to the position [st'].  The matcher [m] explores these matches in
    Python's order of preference. *)

Section Semantics.
Context {U : UnicodeTables}.

Inductive matches : re -> mstate -> mstate -> Prop :=
| M_eps st : matches Eps st st
| M_chr p pv c s cs :
    p c = true ->
    matches (Chr p) (MState pv (c :: s) cs) (MState (Some c) s cs)
| M_cat r1 r2 st1 st2 st3 :
    matches r1 st1 st2 -> matches r2 st2 st3 -> matches (Cat r1 r2) st1 st3
| M_alt_l r1 r2 st st' : matches r1 st st' -> matches (Alt r1 r2) st st'
| M_alt_r r1 r2 st st' : matches r2 st st' -> matches (Alt r1 r2) st st'
| M_star_nil g p st : matches (Star g p) st st
| M_star_cons g p pv c s cs st' :
    p c = true ->
    matches (Star g p) (MState (Some c) s cs) st' ->
    matches (Star g p) (MState pv (c :: s) cs) st'
| M_grp n r st st' :
    matches r st st' ->
    matches (Grp n r) st
      (MState (prev st') (rest st')
              ((n, taken (rest st) (rest st')) :: caps st'))
| M_eos st : rest st = [] \/ rest st = [10] -> matches Eos st st
| M_wordb st :
    xorb (word_opt (prev st)) (word_opt (head (rest st))) = true ->
    matches Wordb st st.

End Semantics.

(** ** Notions used in the statements *)

(** The character before the position reached after reading [ds] from a
    position whose previous character is [pv]. *)
Definition after_run (pv : option char) (ds : str) : option char :=
  fold_left (fun _ c => Some c) ds pv.

(** A text of no more characters than [int] reads digits. *)
Definition int_sized (s : str) : Prop :=
  N.of_nat (length s) <= max_str_digits.

(** The text [s] has, somewhere, a dash (en dash or hyphen) with white
    space on both sides. *)
Definition has_separator (s : str) : Prop :=
  exists pre a d b post,
    s = pre ++ a :: d :: b :: post
    /\ is_space a = true /\ WikiScraper.is_dash d = true /\ is_space b = true.

(** The line splits at the dash [d]: it has white space on both sides,
    and no dash before it has. *)
Definition splits_at (text left : str) (d : char) (right : str) : Prop :=
  text = left ++ d :: right
  /\ WikiScraper.is_dash d = true
  /\ (exists l a, left = l ++ [a] /\ is_space a = true)
  /\ (exists b r, right = b :: r /\ is_space b = true)
  /\ ~ has_separator left.

(** The keys of the record of a list entry. *)
Definition entry_keys : list string :=
  ["name"; "industry"; "headquarters"; "fortune_500_rank"; "notes"]%string.

(** The number a run of decimal digits denotes, digit by digit from an
    initial value. *)
Section Numerals.
Context {U : UnicodeTables}.

Definition digit_val (c : char) : N :=
  match decimal_value c with Some d => d | None => 0 end.

Definition numeral_from (acc : N) (ds : str) : N :=
  fold_left (fun a c => a * 10 + digit_val c) ds acc.

Definition numeral (ds : str) : N := numeral_from 0 ds.

End Numerals.

(** An ASCII digit, [0] to [9]. *)
Definition ascii_digit (c : char) : bool := (48 <=? c) && (c <=? 57).

(** What one item of the list page adds to [self.companies] and to the
    log, whatever was there before. *)
Section ItemEffect.
Context {U : UnicodeTables} {node : Type} {D : Document node}.
Variable fetch : str -> option node.
Variable urljoin : str -> str -> str.

Definition item_effect (company : WikiScraper.list_item)
    : list (gmap string pyval) * list WikiScraper.log_entry :=
  WikiScraper.process_company fetch urljoin ([], []) company.

End ItemEffect.

(** The three outcomes of a funding tag, by the keywords in its text: the
    word [Series] as written, the words [seed] and [valuation] in any
    letter case; [Series] and [seed] come first. *)
Inductive outcome := ToLatestFunding | ToValuation | ToInvestors.

Section Outcome.
Context {U : UnicodeTables}.

Definition classify (text : str) : outcome :=
  if contains (utf8 "Series") text || contains (utf8 "seed") (lower text)
  then ToLatestFunding
  else if contains (utf8 "valuation") (lower text) then ToValuation
  else ToInvestors.

Definition outcome_eqb (a b : outcome) : bool :=
  match a, b with
  | ToLatestFunding, ToLatestFunding => true
  | ToValuation, ToValuation => true
  | ToInvestors, ToInvestors => true
  | _, _ => false
  end.

(** The texts with a given outcome, in the order of the tags. *)
Definition texts_to (o : outcome) (texts : list str) : list str :=
  List.filter (fun t => outcome_eqb (classify t) o) texts.

End Outcome.

(** The texts of the funding tags of a card, in order. *)
Section Funding.
Context {U : UnicodeTables} {node : Type} {D : Document node}.

Definition funding_texts (card : node) : list str :=
  map (fun tag => strip (text_of tag)) (find_all card Scraper.q_funding).

End Funding.

(** The field names of a startup record. *)
Definition startup_keys : list string :=
  ["name"; "description"; "industries"; "location"; "company_size";
   "founded_year"; "investors"; "latest_funding"; "valuation";
   "website"]%string.

(** The two shapes of a size label: [low-high ...] and [N+ employees...],
    with [low], [high] and [N] non-empty runs of decimal digits. *)
Section Shapes.
Context {U : UnicodeTables}.

Definition is_numeral (ds : str) : Prop :=
  ds <> [] /\ forallb is_decimal ds = true.

Definition range_shape (s : str) : Prop :=
  exists low high tail_,
    is_numeral low /\ is_numeral high /\ s = low ++ utf8 "-" ++ high ++ tail_.

Definition plus_shape (s : str) : Prop :=
  exists n tail_, is_numeral n /\ s = n ++ utf8 "+ employees" ++ tail_.

(** The labels [low-high employees] and [N+ employees], with nothing
    after the word. *)
Definition range_label (s : str) : Prop :=
  exists low high,
    is_numeral low /\ is_numeral high
    /\ s = low ++ utf8 "-" ++ high ++ utf8 " employees".

Definition plus_label (s : str) : Prop :=
  exists n, is_numeral n /\ s = n ++ utf8 "+ employees".

End Shapes.

(** Notions for the companies cleaner. *)
Section CleanerNotions.
Context {U : UnicodeTables}.

(** Four decimal digits in a row somewhere in the text. *)
Definition has_four_digits (s : str) : Prop :=
  exists pre a b c d post,
    s = pre ++ a :: b :: c :: d :: post
    /\ is_decimal a = true /\ is_decimal b = true
    /\ is_decimal c = true /\ is_decimal d = true.

(** The years of a text: the numbers of its 4-digit tokens, the matches
    of [\d{4}] that [re.findall] finds from left to right. *)
Definition years_of (s : str) : list Z :=
  map (fun t => Z.of_N (numeral t)) (re_findall1 CompaniesCleaner.year_re s).

(** No bracketed annotation: no [[] with a []] after it on the same line. *)
Definition no_bracket_span (s : str) : Prop :=
  forall pre mid post,
    s = pre ++ utf8 "[" ++ mid ++ utf8 "]" ++ post -> In 10 mid.

(** No white space at either end. *)
Definition trimmed (s : str) : Prop :=
  match s with c :: _ => is_space c = false | [] => True end
  /\ match rev s with c :: _ => is_space c = false | [] => True end.

(** The text after the first []] of [t], when it comes before any line
    feed. *)
Fixpoint after_close (t : str) : option str :=
  match t with
  | [] => None
  | c :: t' =>
    if c =? 93 then Some t'
    else if c =? 10 then None
    else after_close t'
  end.

Fixpoint span_free (s : str) : bool :=
  match s with
  | [] => true
  | c :: t =>
    (if c =? 91 then match after_close t with Some _ => false | None => true end
     else true)
    && span_free t
  end.

(** The brackets and line feeds of a text, in order. *)
Definition marks (s : str) : str :=
  List.filter (fun c => (c =? 91) || (c =? 93) || (c =? 10)) s.

(** The groups of four digits of a text, read from the left: where four
    decimal digits stand in a row they make a group, and the reading goes
    on after them. *)
Fixpoint year_groups (s : str) : list str :=
  match s with
  | [] => []
  | a :: s1 =>
    match s1 with
    | b :: c :: d :: post =>
      if is_decimal a && is_decimal b && is_decimal c && is_decimal d
      then [a; b; c; d] :: year_groups post
      else year_groups s1
    | _ => year_groups s1
    end
  end.

(** The numbers of a text, its maximal runs of decimal digits, in order;
    [cur] is the run being read. *)
Fixpoint digit_runs (s : str) (cur : str) : list str :=
  match s with
  | [] => match cur with [] => [] | _ :: _ => [cur] end
  | c :: s' =>
    if is_decimal c then digit_runs s' (cur ++ [c])
    else match cur with
         | [] => digit_runs s' []
         | _ :: _ => cur :: digit_runs s' []
         end
  end.

(** The 4-digit tokens of a text: its numbers of four digits. *)
Definition four_digit_tokens (s : str) : list str :=
  List.filter (fun r => (length r =? 4)%nat) (digit_runs s []).

End CleanerNotions.

(** The amounts the currency normalizers read: a numeral, or two numerals
    with a point between them, and the float each denotes. *)
Section Amounts.
Context {U : UnicodeTables}.

Inductive amount_text : str -> float -> Prop :=
| amount_int ds :
    is_numeral ds -> amount_text ds (float_of_decimal (numeral ds) 0)
| amount_frac ds1 ds2 :
    is_numeral ds1 -> is_numeral ds2 ->
    amount_text (ds1 ++ utf8 "." ++ ds2)
      (float_of_decimal (numeral (ds1 ++ ds2)) (N.of_nat (length ds2))).

Definition is_amount_char (c : char) : bool := is_decimal c || (c =? 46).

End Amounts.

(** ** Written-out inputs for the examples *)

Module Samples.
Import Html.

(** A directory card whose only funding tag reads [series A]. *)
Definition series_card : hnode :=
  (Elem "div" [("class", "card card-body")]
     [Elem "h3" [] [Text "Acme"];
      Elem "span" [("id", "funding-tags")] [Text "series A"]], []).

(** A card with a single size tag, which reads as a founding year. *)
Definition lone_size_card : hnode :=
  (Elem "div" [("class", "card card-body")]
     [Elem "h3" [] [Text "Acme"];
      Elem "span" [("id", "company-size-tags")] [Text "Founded: 2015"]], []).

(** A founded text with a number of five digits, and one whose qualifier
    has a line feed in its parentheses. *)
Definition long_number_text : str := utf8 "Founded 2015 (12345 employees)".
Definition two_line_qualifier : str :=
  utf8 "2015; 9 years ago (" ++ 10 :: utf8 "2010)".

(** A detail page with an infobox. *)
Definition acme_page : hnode :=
  (Elem "html" []
     [Elem "table" [("class", "infobox vcard")]
        [Elem "tr" [] [Elem "th" [] [Text "Industry"];
                       Elem "td" [] [Text " Software "]];
         Elem "tr" [] [Elem "th" [] [Text "Headquarters"];
                       Elem "td" [] [Text "Oakland, California"]];
         Elem "tr" [] [Elem "th" [] [Text "Founded"];
                       Elem "td" [] [Text "1999"]]]], []).

Definition acme_item : WikiScraper.list_item :=
  WikiScraper.ListItem (utf8 "Technology")
    (utf8 "Acme Corp (42) – San Francisco, California")
    (Some (utf8 "/wiki/Acme")).

Definition bad_item : WikiScraper.list_item :=
  WikiScraper.ListItem (utf8 "Technology") (utf8 "Acme Corp, San Francisco")
    None.

(** A list line whose rank has one digit more than [int] reads. *)
Definition long_rank_line : str :=
  utf8 "Acme Corp (" ++ repeat (ch "1") 4301 ++ utf8 ") - Oakland".

(** A network that answers every request with the page above, one that
    answers none, and the joining of an absolute path to the base. *)
Definition fetch_acme (url : str) : option hnode := Some acme_page.
Definition fetch_none (url : str) : option hnode := None.
Definition join_path (base link : str) : str := base ++ link.

End Samples.

(** A well-formed list entry [<name> (<rank>) – <location> (<notes>)]:
    the name and the location are not blank, have no white space at their
    ends and no opening parenthesis; the name has no dash and the location
    no line feed; the rank is written in ASCII digits, no more of them
    than [int] reads; the notes are on one line. *)
Section EntryShape.
Context {U : UnicodeTables}.

Definition name_ok (name : str) : Prop :=
  name <> [] /\ trimmed name
  /\ forallb (fun c => negb (c =? ch "(") && negb (WikiScraper.is_dash c)) name
     = true.


Definition location_ok (location : str) : Prop :=
  location <> [] /\ trimmed location
  /\ forallb (fun c => negb (c =? ch "(") && is_dot c) location = true.

Definition notes_ok (notes : str) : Prop := forallb is_dot notes = true.


End EntryShape.

(** ** CSV rows

    The cleaning scripts read their input with [csv.DictReader] and write
    with [csv.DictWriter].  The text of the files is split into rows of
    cells by the library; from there on its behaviour is as follows. *)

(** What a row holds under a key: [None], a string, an [int], a [float],
    or the list of the cells beyond the header. *)
Inductive cell :=
| CNone
| CStr (s : str)
| CInt (z : Z)
| CFloat (x : float)
| CList (l : list str).

(** A row as a [dict]; the key [None] is the reader's [restkey]. *)
Abbreviation rowdict := (gmap (option (list N)) cell) (only parsing).

(** [bool(v)] *)
Definition truthy (v : cell) : bool :=
  match v with
  | CNone => false
  | CStr s => match s with [] => false | _ :: _ => true end
  | CInt z => negb (z =? 0)%Z
  | CFloat x => match x with S754_zero _ => false | _ => true end
  | CList l => match l with [] => false | _ :: _ => true end
  end.

Module Csv.

(** [dict(zip(fieldnames, row))]: of two columns of the same name the
    later one stays. *)
Definition zip_row (fieldnames row : list str) : rowdict :=
  fold_left (fun d kv => <[Some (fst kv) := CStr (snd kv)]> d)
            (combine fieldnames row) ∅.

(** One row of [DictReader]: cells beyond the header go under [None],
    columns beyond the cells are [None]. *)
Definition dict_row (fieldnames row : list str) : rowdict :=
  let d := zip_row fieldnames row in
  let lf := length fieldnames in
  let lr := length row in
  if (lf <? lr)%nat then <[None := CList (skipn lf row)]> d
  else if (lr <? lf)%nat then
    fold_left (fun d key => <[Some key := CNone]> d) (skipn lr fieldnames) d
  else d.

(** The rows [DictReader] yields after the header: rows without cells
    are passed over. *)
Definition data_rows (lines : list (list str)) : list (list str) :=
  List.filter (fun r => match r with [] => false | _ :: _ => true end) lines.

(** [row.get(key, '')] *)
Definition get (row : rowdict) (key : string) : cell :=
  default (CStr []) (row !! Some (utf8 key)).

(** The cells [DictWriter.writerow] writes, in the order of its
    [fieldnames]; a key that is not among them is refused. *)
Definition dict_to_list (fieldnames : list str) (row : rowdict)
    : result (list cell) :=
  if forallb (fun kv => bool_decide (fst kv ∈ map Some fieldnames))
             (map_to_list row)
  then Ok (map (fun key => default (CStr []) (row !! Some key)) fieldnames)
  else Raise ValueError.

End Csv.

(** ** The script of the companies cleaner

    The functions of the cleaner on the cells of a row: each begins with
    [if not value], which lets [None] and the empty string through; a
    cell that is not a string is refused by the string operations. *)

Module CompaniesScript.
Section Defs.
Context {U : UnicodeTables}.
Import CompaniesCleaner Csv.

Definition clean_headquarters (value : cell) : result cell :=
  if truthy value then
    match value with
    | CStr s => Ok (CStr (CompaniesCleaner.clean_headquarters s))
    | _ => Raise TypeError
    end
  else Ok value.

Definition clean_founded (value : cell) : result cell :=
  if truthy value then
    match value with
    | CStr s => Ok (CStr (CompaniesCleaner.clean_founded s))
    | _ => Raise TypeError
    end
  else Ok value.

Definition parse_year_field (value : cell) : result (option Z) :=
  if truthy value then
    match value with
    | CStr s => CompaniesCleaner.parse_year_field s
    | _ => Raise TypeError
    end
  else Ok None.

Definition parse_revenue (value : cell) : result (option float * option str) :=
  if truthy value then
    match value with
    | CStr s => CompaniesCleaner.parse_revenue s
    | _ => Raise AttributeError
    end
  else Ok (None, None).

Definition parse_employees (value : cell) : result (option Z) :=
  if truthy value then
    match value with
    | CStr s => CompaniesCleaner.parse_employees s
    | _ => Raise TypeError
    end
  else Ok None.

Definition int_or_blank (o : option Z) : cell :=
  match o with Some z => CInt z | None => CStr [] end.

Definition float_or_blank (o : option float) : cell :=
  match o with Some x => CFloat x | None => CStr [] end.

(** [unit if unit else ''] *)
Definition unit_or_blank (o : option str) : cell :=
  match o with Some (c :: u) => CStr (c :: u) | _ => CStr [] end.

(** The body of the loop over the rows, before the row is written. *)
Definition clean_row (row : rowdict) : result rowdict :=
  let* row :=
    match row !! Some (utf8 "headquarters") with
    | Some v =>
      let* h := clean_headquarters v in
      Ok (<[Some (utf8 "headquarters") := h]> row)
    | None => Ok row
    end in
  let founded_str := get row "founded" in
  let* founded_cleaned := clean_founded founded_str in
  let* fy := parse_year_field founded_cleaned in
  let row := <[Some (utf8 "founded_year") := int_or_blank fy]> row in
  let rev_str := get row "revenue" in
  let* (rev_millions, rev_unit) := parse_revenue rev_str in
  let row := <[Some (utf8 "revenue_in_millions") := float_or_blank rev_millions]> row in
  let row := <[Some (utf8 "revenue_original_unit") := unit_or_blank rev_unit]> row in
  let emp_str := get row "employees" in
  let* emp_num := parse_employees emp_str in
  let row := <[Some (utf8 "employees_numeric") := int_or_blank emp_num]> row in
  Ok row.

Definition added_fields : list str :=
  [utf8 "founded_year"; utf8 "revenue_in_millions";
   utf8 "revenue_original_unit"; utf8 "employees_numeric"].

(** One turn of the loop: the cells written for a row of the input. *)
Definition write_row (fieldnames new_fields row : list str)
    : result (list cell) :=
  let* row := clean_row (dict_row fieldnames row) in
  dict_to_list new_fields row.

(** The loop: the rows written, and the exception that ended it, if
    any. *)
Fixpoint clean_rows (fieldnames new_fields : list str) (rows : list (list str))
    : list (list cell) * option exn :=
  match rows with
  | [] => ([], None)
  | row :: rows' =>
    match write_row fieldnames new_fields row with
    | Ok out =>
      let '(more, e) := clean_rows fieldnames new_fields rows' in
      (out :: more, e)
    | Raise e => ([], Some e)
    end
  end.

(** The script on the rows of the input file, the header first: the rows
    of the output file, and the exception raised, if any. *)
Definition run (lines : list (list str)) : list (list cell) * option exn :=
  match lines with
  | [] => ([], Some ValueError)
  | [] :: _ => ([], Some ValueError)
  | fieldnames :: rest =>
    let new_fields := fieldnames ++ added_fields in
    let '(out, e) := clean_rows fieldnames new_fields (data_rows rest) in
    (map CStr new_fields :: out, e)
  end.

End Defs.
End CompaniesScript.

(** ** The script of the startups cleaner *)

Module StartupsScript.
Section Defs.
Context {U : UnicodeTables}.
Import StartupsCleaner Csv.

(** The functions of the cleaner on a cell: [parse_company_size] and
    [parse_founded_year] are called on cells that are not empty only. *)
Definition parse_company_size (size_str : cell) : result (option Z) :=
  match size_str with
  | CStr s => StartupsCleaner.parse_company_size s
  | _ => Raise TypeError
  end.

Definition parse_founded_year (year_str : cell) : result (option Z) :=
  match year_str with
  | CStr s => StartupsCleaner.parse_founded_year s
  | _ => Raise AttributeError
  end.

Definition parse_currency_field (value_str : cell)
    : result (option float * option str) :=
  if truthy value_str then
    match value_str with
    | CStr s => StartupsCleaner.parse_currency_field s
    | _ => Raise AttributeError
    end
  else Ok (None, None).

Definition int_or_blank (o : option Z) : cell :=
  match o with Some z => CInt z | None => CStr [] end.

Definition float_or_blank (o : option float) : cell :=
  match o with Some x => CFloat x | None => CStr [] end.

(** [unit if unit else ''] *)
Definition unit_or_blank (o : option str) : cell :=
  match o with Some (c :: u) => CStr (c :: u) | _ => CStr [] end.

(** The body of the loop over the rows, before the row is written. *)
Definition clean_row (row : rowdict) : result rowdict :=
  let cs := get row "company_size" in
  let* numeric_size :=
    if truthy cs then parse_company_size cs else Ok None in
  let fy := get row "founded_year" in
  let* fy_val := if truthy fy then parse_founded_year fy else Ok None in
  let val_str := get row "valuation" in
  let* (val_numeric, val_unit) := parse_currency_field val_str in
  let lf_str := get row "latest_funding" in
  let* (lf_numeric, lf_unit) := parse_currency_field lf_str in
  let row := <[Some (utf8 "company_size") := int_or_blank numeric_size]> row in
  let row := <[Some (utf8 "founded_year") := int_or_blank fy_val]> row in
  let row := <[Some (utf8 "latest_funding_in_millions")
               := float_or_blank lf_numeric]> row in
  let row := <[Some (utf8 "latest_funding_original_unit")
               := unit_or_blank lf_unit]> row in
  let row := <[Some (utf8 "valuation_in_millions")
               := float_or_blank val_numeric]> row in
  let row := <[Some (utf8 "valuation_original_unit")
               := unit_or_blank val_unit]> row in
  Ok row.

Definition added_fields : list str :=
  [utf8 "latest_funding_in_millions"; utf8 "latest_funding_original_unit";
   utf8 "valuation_in_millions"; utf8 "valuation_original_unit"].

Definition write_row (fieldnames new_fields row : list str)
    : result (list cell) :=
  let* row := clean_row (dict_row fieldnames row) in
  dict_to_list new_fields row.

Fixpoint clean_rows (fieldnames new_fields : list str) (rows : list (list str))
    : list (list cell) * option exn :=
  match rows with
  | [] => ([], None)
  | row :: rows' =>
    match write_row fieldnames new_fields row with
    | Ok out =>
      let '(more, e) := clean_rows fieldnames new_fields rows' in
      (out :: more, e)
    | Raise e => ([], Some e)
    end
  end.

(** The script on the rows of the input file, the header first; with no
    row at all the header is [None], which cannot be extended. *)
Definition run (lines : list (list str)) : list (list cell) * option exn :=
  match lines with
  | [] => ([], Some TypeError)
  | fieldnames :: rest =>
    let new_fields := fieldnames ++ added_fields in
    let '(out, e) := clean_rows fieldnames new_fields (data_rows rest) in
    (map CStr new_fields :: out, e)
  end.

End Defs.
End StartupsScript.

(** ** The loop of the directory scraper ([scrape_startups])

    The pages are loaded by a browser; [get_page_content] gives the source
    of the page of a number.  The loop has no bound of its own, so it is
    run for a number of turns; the list it has collected when it ends is
    what [scrape_startups] makes its table from. *)

Module ScraperRun.
Section Defs.
Context {U : UnicodeTables} {node : Type} {D : Document node}.
Variable get_page_content : nat -> str.
(** [BeautifulSoup(page_content, 'html.parser')] *)
Variable parse_html : str -> node.
Import Scraper.

Definition q_cards :=
  Query ["div"%string]
        [("class"%string, AttrIs "card card-body");
         ("id"%string, AttrIs "item-card-filter")] None.
Definition q_more :=
  Query ["a"%string] [("class"%string, AttrIs "infinite-more-link")] None.

(** [bool(v)] *)
Definition truthy_val (v : pyval) : bool :=
  match v with
  | VNone => false
  | VStr s => match s with [] => false | _ :: _ => true end
  | VInt z => negb (z =? 0)%Z
  | VList l => match l with [] => false | _ :: _ => true end
  end.

(** One turn of the loop over the cards of a page. *)
Definition add_card (startups : list (gmap string pyval)) (card : node)
    : result (list (gmap string pyval)) :=
  match extract_startup_info card with
  | (startup_info, None) =>
    match startup_info !! "name"%string with
    | Some name =>
      if truthy_val name then Ok (startups ++ [startup_info]) else Ok startups
    | None => Raise KeyError
    end
  | (_, Some e) => Raise e
  end.

Fixpoint process_cards (startup_cards : list node)
    (startups : list (gmap string pyval))
    : result (list (gmap string pyval)) :=
  match startup_cards with
  | [] => Ok startups
  | card :: cards =>
    let* startups := add_card startups card in
    process_cards cards startups
  end.

(** The [while True] loop, for at most [fuel] pages: [None] when the
    pages are not over by then. *)
Fixpoint scrape_loop (fuel : nat) (page_number : nat)
    (startups : list (gmap string pyval))
    : option (result (list (gmap string pyval))) :=
  match fuel with
  | O => None
  | S fuel' =>
    let page_content := get_page_content page_number in
    let soup := parse_html page_content in
    let startup_cards := find_all soup q_cards in
    match startup_cards with
    | [] => Some (Ok startups)
    | _ :: _ =>
      match process_cards startup_cards startups with
      | Raise e => Some (Raise e)
      | Ok startups =>
        match find soup q_more with
        | None => Some (Ok startups)
        | Some _ => scrape_loop fuel' (S page_number) startups
        end
      end
    end
  end.

Definition scrape_startups (fuel : nat)
    : option (result (list (gmap string pyval))) :=
  scrape_loop fuel 1 [].

End Defs.
End ScraperRun.

(** ** Notions used in the further properties *)

Section TextNotions.
Context {U : UnicodeTables}.

(** A character of the pattern of [parse_employees] after its first
    digit: a decimal digit, a comma or a point. *)
Definition employees_char (c : char) : bool :=
  is_decimal c || (c =? ch ",") || (c =? ch ".").

(** Somewhere in the text, [U.S.] with a character of a word (a letter, a
    digit or an underscore) right after it. *)
Fixpoint us_followed (s : str) : bool :=
  match s with
  | [] => false
  | _ :: s' =>
    (is_prefix (utf8 "U.S.") s && word_opt (nth_error s 4)) || us_followed s'
  end.

End TextNotions.

(** The marker of the headquarters in the quick facts of a card. *)
Definition hq_marker : str := utf8 "📍HQ: ".

Section PageNotions.
Context {U : UnicodeTables} {node : Type} {D : Document node}.
Import WikiScraper.

(** The industry a heading stands for: the text of its headline, or its
    own text. *)
Definition heading_text (h : node) : str :=
  match find h q_headline with
  | Some e => strip (text_of e)
  | None => strip (text_of h)
  end.

(** The industry is that of a heading of the page. *)
Definition from_heading (sections : list node) (industry : str) : Prop :=
  exists h, In h sections /\ tag_name h ∈ ["h2"; "h3"]%string
            /\ industry = heading_text h.

(** What a field of the infobox holds. *)
Definition infobox_value (k : string) (v : pyval) : Prop :=
  In k (map snd field_mapping)
  /\ if bool_decide (k ∈ list_fields)
     then exists l, v = VList l /\ Forall trimmed l
     else exists s, v = VStr s /\ trimmed s.

(** The field a row of the infobox fills, if any. *)
Definition row_field (row : node) : option string :=
  match find row q_th, find row q_td with
  | Some header, Some _ => mapping_get field_mapping (strip (text_of header))
  | _, _ => None
  end.

End PageNotions.

(** An item whose link does not lead to a wiki page. *)
Definition no_wiki_link (company : WikiScraper.list_item) : Prop :=
  match WikiScraper.item_link company with
  | Some link => startswith (utf8 "/wiki/") link = false
  | None => True
  end.

(** A cell as the reader gives it: a string, or [None] where the row
    ends before the header. *)
Definition is_text (v : cell) : Prop := v = CNone \/ exists s, v = CStr s.

(** The keys the scripts write under. *)
Definition hq_key : option str := Some (utf8 "headquarters").
Definition size_key : option str := Some (utf8 "company_size").
Definition year_key : option str := Some (utf8 "founded_year").

(** The columns the companies script writes, and those the startups
    script writes. *)
Definition touched_fields : list str := utf8 "headquarters" :: CompaniesScript.added_fields.
Definition startups_touched : list str :=
  utf8 "company_size" :: utf8 "founded_year" :: StartupsScript.added_fields.

(** The employees cell of a row has no more characters than [int] reads
    digits. *)
Definition employees_sized (row : gmap (option (list N)) cell) : Prop :=
  forall s, Csv.get row "employees" = CStr s -> int_sized s.

(** The written row has the four added cells after those of the input,
    and every column but the headquarters and the added ones has the
    cell of the input. *)
Definition keeps_cells (fieldnames row : list str) (out : list cell) : Prop :=
  length out = (length fieldnames + 4)%nat
  /\ forall i key,
       nth_error fieldnames i = Some key -> ~ In key touched_fields ->
       nth_error out i
       = Some (default (CStr []) (Csv.dict_row fieldnames row !! Some key)).

(** A cell the script has put a number in, or blanked. *)
Definition number_or_blank (v : cell) : Prop :=
  (exists z, v = CInt z) \/ v = CStr [].

(** A record with a name that is not empty. *)
Definition named (d : gmap string pyval) : Prop :=
  exists n, d !! "name"%string = Some (VStr n) /\ n <> [].

Section RunNotions.
Context {U : UnicodeTables} {node : Type} {D : Document node}.
Variable get_page_content : nat -> str.
Variable parse_html : str -> node.
Import Scraper ScraperRun.

(** The records of the cards of a page that have a name, in order. *)
Definition page_startups (p : nat) : list (gmap string pyval) :=
  List.filter
    (fun d => match d !! "name"%string with
              | Some v => truthy_val v
              | None => false
              end)
    (map (fun card => fst (extract_startup_info card))
         (find_all (parse_html (get_page_content p)) q_cards)).

(** The page has cards and a link to more. *)
Definition goes_on (p : nat) : Prop :=
  find_all (parse_html (get_page_content p)) q_cards <> []
  /\ find (parse_html (get_page_content p)) q_more <> None.

End RunNotions.

(** ** More written-out inputs *)

Module MoreSamples.
Import Html.

(** A card with quick facts and a website link. *)
Definition quick_card : hnode :=
  (Elem "div" [("class", "card card-body"); ("id", "item-card-filter")]
     [Elem "h3" [] [Text "Acme"];
      Elem "b" [] [Text "Quick facts: "];
      Text ("📍HQ: Oakland" ++ String "010"%char "💰 Funding: $5M")%string;
      Elem "a" [("id", "startup-website-link");
                ("href", "https://acme.example/?utm_source=directory")]
           [Text "site"]], []).

(** A card without a name. *)
Definition nameless_card : html :=
  Elem "div" [("class", "card card-body"); ("id", "item-card-filter")]
       [Elem "b" [] [Text "Quick facts: "]].

(** The two pages of a small directory: the first has a link to more,
    the second has not. *)
Definition first_page : hnode :=
  (Elem "html" []
     [fst quick_card; nameless_card;
      Elem "a" [("class", "infinite-more-link"); ("href", "?page=2")] []], []).

Definition second_page : hnode :=
  (Elem "html" [] [fst quick_card], []).

Definition page_source (page_number : nat) : str := [N.of_nat page_number].

Definition parse_page (page_content : str) : hnode :=
  match page_content with
  | [1] => first_page
  | [2] => second_page
  | _ => (Elem "html" [] [], [])
  end.

(** A list page: an item before any heading, then a heading with its
    list. *)
Definition list_page : hnode :=
  (Elem "html" []
     [Elem "ul" [] [Elem "li" [] [Text "Contents"]];
      Elem "h2" [] [Elem "span" [("class", "mw-headline")] [Text " Technology "]];
      Elem "ul" []
        [Elem "li" []
           [Elem "a" [("href", "/wiki/Acme")] [Text "Acme Corp"];
            Text " – Oakland, California "]]], []).

(** An infobox with two rows for the same field. *)
Definition twice_page : hnode :=
  (Elem "html" []
     [Elem "table" [("class", "infobox")]
        [Elem "tr" [] [Elem "th" [] [Text "Founded"];
                       Elem "td" [] [Text "1999"]];
         Elem "tr" [] [Elem "th" [] [Text "Founded"];
                       Elem "td" [] [Text "2001 (as Acme Corp)"]];
         Elem "tr" [] [Elem "th" [] [Text "Website"];
                       Elem "td" [] [Text "acme.example"]]]], []).

(** An item whose link leaves the wiki. *)
Definition external_item : WikiScraper.list_item :=
  WikiScraper.ListItem (utf8 "Technology")
    (utf8 "Apple Inc. - Cupertino, California")
    (Some (utf8 "https://apple.example/")).


Definition startups_lines : list (list str) :=
  [[utf8 "name"; utf8 "company_size"; utf8 "founded_year"];
   [utf8 "Acme"; utf8 "11-50 employees"; utf8 "2015"];
   [utf8 "Bolt"; utf8 "N/A"; utf8 "circa 2000"];
   [utf8 "Core"; []; utf8 "2001"]].

End MoreSamples.

(** * Properties *)

(** ** The matcher and the patterns *)

Section MatcherFacts.
Context {U : UnicodeTables}.

Lemma star_loop_sound {R} g p s : forall pv (k : option char -> str -> option R) x cs,
  star_loop g p pv s k = Some x ->
  exists pv' s', matches (Star g p) (MState pv s cs) (MState pv' s' cs)
                 /\ k pv' s' = Some x.
Proof.
  induction s as [|c s IH]; intros pv k x cs H; simpl in H.
  - exists pv, []. split; [constructor | exact H].
  - destruct (p c) eqn:Hp.
    + destruct g.
      * destruct (star_loop true p (Some c) s k) eqn:Hl.
        -- injection H as <-. destruct (IH _ _ _ cs Hl) as (pv' & s' & Hm & Hk).
           exists pv', s'. split; [by apply M_star_cons | exact Hk].
        -- exists pv, (c :: s). split; [constructor | exact H].
      * destruct (k pv (c :: s)) eqn:Hk0.
        -- injection H as <-. exists pv, (c :: s). split; [constructor | exact Hk0].
        -- destruct (IH _ _ _ cs H) as (pv' & s' & Hm & Hk).
           exists pv', s'. split; [by apply M_star_cons | exact Hk].
    + exists pv, (c :: s). split; [constructor | exact H].
Qed.

(** Soundness: a result of the matcher comes from a match of the pattern. *)
Lemma m_sound {R} r : forall st (k : mstate -> option R) x,
  m r st k = Some x -> exists st', matches r st st' /\ k st' = Some x.
Proof.
  induction r as [|p|r1 IH1 r2 IH2|r1 IH1 r2 IH2|g p|n r IH| |];
    intros st k x H; simpl in H.
  - exists st. split; [constructor | exact H].
  - destruct st as [pv [|c s] cs]; simpl in H; [discriminate|].
    destruct (p c) eqn:Hp; [|discriminate].
    eexists. split; [by constructor | exact H].
  - destruct (IH1 _ _ _ H) as (st1 & Hm1 & H1).
    destruct (IH2 _ _ _ H1) as (st2 & Hm2 & H2).
    exists st2. split; [econstructor; eassumption | exact H2].
  - destruct (m r1 st k) eqn:H1.
    + injection H as <-. destruct (IH1 _ _ _ H1) as (st' & Hm & Hk).
      exists st'. split; [by apply M_alt_l | exact Hk].
    + destruct (IH2 _ _ _ H) as (st' & Hm & Hk).
      exists st'. split; [by apply M_alt_r | exact Hk].
  - destruct st as [pv s cs]; simpl in H.
    destruct (star_loop_sound _ _ _ _ _ _ cs H) as (pv' & s' & Hm & Hk).
    eexists. split; [exact Hm | exact Hk].
  - destruct (IH _ _ _ H) as (st' & Hm & Hk).
    eexists. split; [apply M_grp; exact Hm | exact Hk].
  - destruct st as [pv [|c [|c' s]] cs]; simpl in H.
    + eexists. split; [constructor; by left | exact H].
    + destruct (c =? 10) eqn:Hc; [|discriminate]. apply N.eqb_eq in Hc as ->.
      eexists. split; [constructor; by right | exact H].
    + discriminate.
  - destruct (xorb _ _) eqn:Hx; [|discriminate].
    exists st. split; [by constructor | exact H].
Qed.

Lemma star_loop_none {R} g p s : forall pv (k : option char -> str -> option R),
  star_loop g p pv s k = None -> k pv s = None.
Proof.
  destruct s as [|c s]; intros pv k H; simpl in H; [exact H|].
  destruct (p c); [|exact H].
  destruct g.
  - destruct (star_loop true p (Some c) s k); [discriminate | exact H].
  - destruct (k pv (c :: s)); [discriminate | reflexivity].
Qed.

Lemma star_loop_none_cons {R} g p c s pv (k : option char -> str -> option R) :
  p c = true ->
  star_loop g p pv (c :: s) k = None -> star_loop g p (Some c) s k = None.
Proof.
  intros Hp H. simpl in H. rewrite Hp in H. destruct g.
  - destruct (star_loop true p (Some c) s k); [discriminate | reflexivity].
  - destruct (k pv (c :: s)); [discriminate | exact H].
Qed.

(** Completeness: when the matcher fails, every match of the pattern leads
    to a failure of what follows. *)
Lemma m_complete {R} r st st' :
  matches r st st' ->
  forall (k : mstate -> option R), m r st k = None -> k st' = None.
Proof.
  induction 1 as [st|p pv c s cs Hp|r1 r2 st1 st2 st3 _ IH1 _ IH2
                  |r1 r2 st st' _ IH|r1 r2 st st' _ IH|g p st
                  |g p pv c s cs st' Hp _ IH|n r st st' _ IH|st He|st Hx];
    intros k H; cbn [m prev rest caps] in H.
  - exact H.
  - by rewrite Hp in H.
  - apply IH2. exact (IH1 _ H).
  - apply IH. by destruct (m r1 st k).
  - apply IH. by destruct (m r1 st k).
  - destruct st as [pv s cs]. exact (star_loop_none _ _ _ _ _ H).
  - apply star_loop_none_cons in H; [|exact Hp].
    exact (IH k H).
  - exact (IH _ H).
  - destruct st as [pv s cs]; simpl in *.
    destruct He as [->| ->]; simpl in H; exact H.
  - by rewrite Hx in H.
Qed.

Lemma taken_app (t s : str) : taken (t ++ s) s = t.
Proof.
  unfold taken. rewrite length_app.
  replace (length t + length s - length s)%nat with (length t) by lia.
  by rewrite take_app_length.
Qed.

Lemma taken_self (s : str) : taken s s = [].
Proof. exact (taken_app [] s). Qed.

(** A match ends at a suffix of the text it starts from. *)
Lemma matches_suffix r st st' :
  matches r st st' -> exists t, rest st = t ++ rest st'.
Proof.
  induction 1 as [st|p pv c s cs Hp|r1 r2 st1 st2 st3 _ [t1 IH1] _ [t2 IH2]
                  |r1 r2 st st' _ IH|r1 r2 st st' _ IH|g p st
                  |g p pv c s cs st' Hp _ [t IH]|n r st st' _ IH|st He|st Hx];
    simpl in *.
  - by exists [].
  - by exists [c].
  - exists (t1 ++ t2). by rewrite IH1, IH2, app_assoc.
  - exact IH.
  - exact IH.
  - by exists [].
  - exists (c :: t). by rewrite IH.
  - exact IH.
  - by exists [].
  - by exists [].
Qed.

(** What a repetition matches: a run of characters of the class. *)
Lemma matches_star_inv g p st st' :
  matches (Star g p) st st' ->
  exists ds, forallb p ds = true /\ rest st = ds ++ rest st'
             /\ caps st' = caps st /\ prev st' = after_run (prev st) ds.
Proof.
  intros H. remember (Star g p) as r eqn:Hr.
  induction H as [| | | | |g' p' st|g' p' pv c s cs st' Hp H IH| | |];
    try discriminate; injection Hr as -> ->.
  - by exists [].
  - destruct (IH eq_refl) as (ds & Hf & Hs & Hc & Hv). simpl in *.
    exists (c :: ds). simpl. rewrite Hp, Hf, Hs. by repeat split.
Qed.

Lemma matches_star_run g p ds : forall pv s cs,
  forallb p ds = true ->
  matches (Star g p) (MState pv (ds ++ s) cs) (MState (after_run pv ds) s cs).
Proof.
  induction ds as [|d ds IH]; intros pv s cs H; simpl in *.
  - constructor.
  - apply andb_true_iff in H as [Hd Hds]. apply M_star_cons; [exact Hd|].
    by apply IH.
Qed.

Lemma matches_chr_inv p st st' :
  matches (Chr p) st st' ->
  exists c, p c = true /\ rest st = c :: rest st'
            /\ caps st' = caps st /\ prev st' = Some c.
Proof. inversion 1; subst. by exists c. Qed.

Lemma matches_cat_inv r1 r2 st st' :
  matches (Cat r1 r2) st st' ->
  exists st1, matches r1 st st1 /\ matches r2 st1 st'.
Proof. inversion 1; subst. eauto. Qed.

Lemma matches_eps_inv st st' : matches Eps st st' -> st' = st.
Proof. by inversion 1. Qed.

(** A greedy repetition followed by a continuation that accepts the end
    of the longest run stops there. *)
Lemma star_loop_greedy {R} p ds : forall pv s (k : option char -> str -> option R) x,
  forallb p ds = true ->
  match s with c :: _ => p c = false | [] => True end ->
  k (after_run pv ds) s = Some x ->
  star_loop true p pv (ds ++ s) k = Some x.
Proof.
  induction ds as [|d ds IH]; intros pv s k x Hf Hs Hk; simpl in *.
  - destruct s as [|c s]; simpl; [exact Hk|]. by rewrite Hs.
  - apply andb_true_iff in Hf as [Hd Hds]. rewrite Hd.
    by rewrite (IH (Some d) s k x Hds Hs Hk).
Qed.

(** A lazy repetition stops at the first position its continuation
    accepts. *)
Lemma star_loop_lazy {R} p ds : forall pv s (k : option char -> str -> option R) x,
  forallb p ds = true ->
  (forall t1 t2, ds = t1 ++ t2 -> t2 <> [] -> k (after_run pv t1) (t2 ++ s) = None) ->
  k (after_run pv ds) s = Some x ->
  star_loop false p pv (ds ++ s) k = Some x.
Proof.
  induction ds as [|d ds IH]; intros pv s k x Hf Hn Hk; simpl in *.
  - destruct s as [|c s]; simpl; [exact Hk|]. rewrite Hk. by destruct (p c).
  - apply andb_true_iff in Hf as [Hd Hds]. rewrite Hd.
    pose proof (Hn [] (d :: ds) eq_refl ltac:(done)) as H0.
    simpl in H0. rewrite H0.
    apply IH; [exact Hds| |exact Hk].
    intros t1 t2 -> Ht2. exact (Hn (d :: t1) t2 eq_refl Ht2).
Qed.

(** [re.search] fails exactly when the pattern matches at no position. *)
Lemma search_from_none r : forall s pv,
  search_from r pv s = None <->
  forall pre t, s = pre ++ t -> match_here r (after_run pv pre) t = None.
Proof.
  induction s as [|c s IH]; intros pv; simpl.
  - split.
    + intros H pre t Hs. symmetry in Hs. apply app_eq_nil in Hs as [-> ->].
      simpl. by destruct (match_here r pv []).
    + intros H. pose proof (H [] [] eq_refl) as H0. simpl in H0.
      by rewrite H0.
  - split.
    + intros H pre t Hs.
      destruct (match_here r pv (c :: s)) eqn:H0; [discriminate|].
      destruct pre as [|c' pre]; simpl in Hs.
      * subst t. exact H0.
      * injection Hs as <- ->. simpl.
        destruct (search_from r (Some c) (pre ++ t)) eqn:H1; [discriminate|].
        by apply (proj1 (IH (Some c))).
    + intros H. pose proof (H [] (c :: s) eq_refl) as H0. simpl in H0.
      rewrite H0.
      assert (search_from r (Some c) s = None) as ->; [|done].
      apply IH. intros pre t ->. exact (H (c :: pre) t eq_refl).
Qed.

(** The text a successful match has read lies before the text it left. *)
Lemma match_here_span r pv s st :
  match_here r pv s = Some st -> s = taken s (rest st) ++ rest st.
Proof.
  intros H. apply m_sound in H as (st' & Hm & [= ->]).
  apply matches_suffix in Hm as [t Ht]. simpl in Ht.
  rewrite Ht at 2. by rewrite taken_app.
Qed.

(** What [re.search] returns: a match of the pattern at the first position
    that has one. *)
Lemma search_from_some r : forall s pv f,
  search_from r pv s = Some f ->
  exists st, match_here r (after_run pv (before f)) (whole f ++ after f) = Some st
             /\ s = before f ++ whole f ++ after f
             /\ rest st = after f /\ caps st = groups f
             /\ forall pre t, before f = pre ++ t -> t <> [] ->
                  match_here r (after_run pv pre) (t ++ whole f ++ after f) = None.
Proof.
  induction s as [|c s IH]; intros pv f H; simpl in H;
    destruct (match_here r pv _) as [st|] eqn:H0.
  - injection H as <-. exists st. cbn [before whole after groups after_run fold_left].
    rewrite <- (match_here_span _ _ _ _ H0). repeat split; [exact H0|].
    intros pre t Hp Ht. symmetry in Hp. by apply app_eq_nil in Hp as [_ ->].
  - discriminate.
  - injection H as <-. exists st. cbn [before whole after groups after_run fold_left].
    rewrite <- (match_here_span _ _ _ _ H0). repeat split; [exact H0|].
    intros pre t Hp Ht. symmetry in Hp. by apply app_eq_nil in Hp as [_ ->].
  - destruct (search_from r (Some c) s) as [f0|] eqn:H1; [|discriminate].
    injection H as <-. simpl.
    destruct (IH _ _ H1) as (st & Hm & Hs & Hr & Hc & Hn).
    exists st. repeat split; try assumption.
    + by rewrite Hs at 1.
    + intros [|c' pre] t Hp Ht; simpl in Hp.
      * subst t. simpl. rewrite <- Hs. exact H0.
      * injection Hp as <- Hp. simpl. by apply Hn.
Qed.

Lemma matches_plus_inv p st st' :
  matches (plus p) st st' ->
  exists c ds, p c = true /\ forallb p ds = true
               /\ rest st = c :: ds ++ rest st'
               /\ caps st' = caps st /\ prev st' = after_run (Some c) ds.
Proof.
  intros H. apply matches_cat_inv in H as (st1 & H1 & H2).
  apply matches_chr_inv in H1 as (c & Hc & Hr1 & Hc1 & Hp1).
  apply matches_star_inv in H2 as (ds & Hds & Hr2 & Hc2 & Hp2).
  exists c, ds. rewrite Hr1, Hr2, Hc2, Hc1, Hp2, Hp1. by repeat split.
Qed.

Lemma matches_plus_run p c ds pv s cs :
  p c = true -> forallb p ds = true ->
  matches (plus p) (MState pv (c :: ds ++ s) cs)
          (MState (after_run (Some c) ds) s cs).
Proof.
  intros Hc Hds. eapply M_cat; [by apply M_chr|]. by apply matches_star_run.
Qed.

Lemma matches_grp_inv n r st st' :
  matches (Grp n r) st st' ->
  exists st1, matches r st st1 /\ prev st1 = prev st' /\ rest st1 = rest st'
              /\ caps st' = (n, taken (rest st) (rest st1)) :: caps st1.
Proof. inversion 1; subst. eauto. Qed.

Lemma matches_alt_inv r1 r2 st st' :
  matches (Alt r1 r2) st st' -> matches r1 st st' \/ matches r2 st st'.
Proof. inversion 1; subst; auto. Qed.

Lemma matches_eos_inv st st' :
  matches Eos st st' -> st' = st /\ (rest st = [] \/ rest st = [10]).
Proof. inversion 1; subst; auto. Qed.

Lemma matches_wordb_inv st st' :
  matches Wordb st st' ->
  st' = st /\ xorb (word_opt (prev st)) (word_opt (head (rest st))) = true.
Proof. inversion 1; subst; auto. Qed.

(** Steps of a successful run of the matcher, one per construct. *)
Lemma m_cat_some {R} r1 r2 st (k : mstate -> option R) x :
  m r1 st (fun st1 => m r2 st1 k) = Some x -> m (Cat r1 r2) st k = Some x.
Proof. done. Qed.

Lemma m_chr_some {R} p pv c s cs (k : mstate -> option R) x :
  p c = true -> k (MState (Some c) s cs) = Some x ->
  m (Chr p) (MState pv (c :: s) cs) k = Some x.
Proof. intros Hp Hk. simpl. by rewrite Hp. Qed.

Lemma m_star_some {R} p pv ds s cs (k : mstate -> option R) x :
  forallb p ds = true ->
  match s with c :: _ => p c = false | [] => True end ->
  k (MState (after_run pv ds) s cs) = Some x ->
  m (Star true p) (MState pv (ds ++ s) cs) k = Some x.
Proof. intros Hf Hs Hk. cbn [m prev rest caps]. by apply star_loop_greedy. Qed.

Lemma m_plus_some {R} p pv c ds s cs (k : mstate -> option R) x :
  p c = true -> forallb p ds = true ->
  match s with c :: _ => p c = false | [] => True end ->
  k (MState (after_run (Some c) ds) s cs) = Some x ->
  m (plus p) (MState pv (c :: ds ++ s) cs) k = Some x.
Proof.
  intros Hc Hf Hs Hk. apply m_cat_some, m_chr_some; [exact Hc|].
  by apply m_star_some.
Qed.

Lemma m_lazy_some {R} p pv ds s cs (k : mstate -> option R) x :
  forallb p ds = true ->
  (forall t1 t2, ds = t1 ++ t2 -> t2 <> [] ->
     k (MState (after_run pv t1) (t2 ++ s) cs) = None) ->
  k (MState (after_run pv ds) s cs) = Some x ->
  m (Star false p) (MState pv (ds ++ s) cs) k = Some x.
Proof. intros Hf Hn Hk. cbn [m prev rest caps]. by apply star_loop_lazy. Qed.

(** A pattern that begins with a character the text does not begin with
    fails. *)
Lemma match_first_char {R} p r pv c s cs (k : mstate -> option R) :
  p c = false -> m (Cat (Chr p) r) (MState pv (c :: s) cs) k = None.
Proof. intros H. simpl. by rewrite H. Qed.

(** [re.search] passes over a stretch of text in which the pattern
    matches nowhere. *)
Lemma search_from_skip r left : forall pv t st,
  (forall l1 l2, left = l1 ++ l2 -> l2 <> [] ->
     match_here r (after_run pv l1) (l2 ++ t) = None) ->
  match_here r (after_run pv left) t = Some st ->
  search_from r pv (left ++ t)
  = Some (Found left (taken t (rest st)) (rest st) (caps st)).
Proof.
  induction left as [|c left IH]; intros pv t st Hn Hm.
  - destruct t; simpl in *; by rewrite Hm.
  - cbn [app search_from].
    pose proof (Hn [] (c :: left) eq_refl ltac:(done)) as H0. simpl in H0.
    rewrite H0. rewrite (IH (Some c) t st); [done| |exact Hm].
    intros l1 l2 -> Hl2. exact (Hn (c :: l1) l2 eq_refl Hl2).
Qed.

(** [re.sub] copies such a stretch. *)
Lemma sub_loop_skip r repl : forall s n pv,
  (n <= length s)%nat ->
  sub_loop r repl pv s n
  = sub_loop r repl (after_run pv (firstn n s)) (skipn n s) 0.
Proof.
  induction s as [|c s IH]; intros n pv Hn; simpl in Hn.
  - by replace n with 0%nat by lia.
  - destruct n as [|n]; [done|]. simpl. apply IH. lia.
Qed.

Lemma sub_loop_keep r repl left : forall pv t,
  (forall l1 l2, left = l1 ++ l2 -> l2 <> [] ->
     match_here r (after_run pv l1) (l2 ++ t) = None) ->
  sub_loop r repl pv (left ++ t) 0
  = left ++ sub_loop r repl (after_run pv left) t 0.
Proof.
  induction left as [|c left IH]; intros pv t Hn; [done|].
  cbn [app sub_loop].
  pose proof (Hn [] (c :: left) eq_refl ltac:(done)) as H0. simpl in H0.
  rewrite H0. f_equal. apply IH.
  intros l1 l2 -> Hl2. exact (Hn (c :: l1) l2 eq_refl Hl2).
Qed.


Lemma m_grp_some {R} n r st (k : mstate -> option R) x :
  m r st (fun st' =>
    k (MState (prev st') (rest st')
              ((n, taken (rest st) (rest st')) :: caps st'))) = Some x ->
  m (Grp n r) st k = Some x.
Proof. done. Qed.

Lemma m_alt_some_l {R} r1 r2 st (k : mstate -> option R) x :
  m r1 st k = Some x -> m (Alt r1 r2) st k = Some x.
Proof. intros H. simpl. by rewrite H. Qed.

Lemma m_alt_some_r {R} r1 r2 st (k : mstate -> option R) x :
  m r1 st k = None -> m r2 st k = Some x -> m (Alt r1 r2) st k = Some x.
Proof. intros H1 H2. simpl. by rewrite H1. Qed.

End MatcherFacts.

(** ** Strings and numerals *)

Section StringFacts.
Context {U : UnicodeTables}.

Lemma drop_while_suffix p (s : str) : exists t, s = t ++ drop_while p s.
Proof.
  induction s as [|c s [t IH]]; simpl; [by exists []|].
  destruct (p c); [|by exists []]. exists (c :: t). by rewrite IH at 1.
Qed.

Lemma drop_while_head p (s : str) :
  match drop_while p s with c :: _ => p c = false | [] => True end.
Proof.
  induction s as [|c s IH]; simpl; [done|].
  by destruct (p c) eqn:Hp; [|exact Hp].
Qed.

Lemma drop_while_id p c (s : str) : p c = false -> drop_while p (c :: s) = c :: s.
Proof. intros H. simpl. by rewrite H. Qed.

(** [strip] returns a piece of its argument. *)
Lemma strip_by_infix p (s : str) : exists a b, s = a ++ strip_by p s ++ b.
Proof.
  unfold strip_by, lstrip_by, rstrip_by.
  destruct (drop_while_suffix p s) as [a Ha].
  destruct (drop_while_suffix p (rev (drop_while p s))) as [b Hb].
  exists a, (rev b). rewrite Ha at 1. f_equal.
  rewrite <- rev_app_distr, <- Hb. by rewrite rev_involutive.
Qed.

(** Neither end of a stripped string is a stripped character. *)
Lemma strip_by_head p (s : str) :
  match strip_by p s with c :: _ => p c = false | [] => True end.
Proof.
  unfold strip_by, lstrip_by, rstrip_by.
  pose proof (drop_while_head p s) as H1.
  destruct (drop_while_suffix p (rev (drop_while p s))) as [b Hb].
  apply (f_equal (@rev char)) in Hb. rewrite rev_involutive, rev_app_distr in Hb.
  destruct (rev (drop_while p (rev (drop_while p s)))) as [|c t] eqn:E; [done|].
  rewrite Hb in H1. exact H1.
Qed.

Lemma strip_by_last p (s : str) :
  match rev (strip_by p s) with c :: _ => p c = false | [] => True end.
Proof.
  unfold strip_by, rstrip_by. rewrite rev_involutive. apply drop_while_head.
Qed.

Lemma strip_by_id p (s : str) :
  match s with c :: _ => p c = false | [] => True end ->
  match rev s with c :: _ => p c = false | [] => True end ->
  strip_by p s = s.
Proof.
  intros H1 H2. unfold strip_by, lstrip_by, rstrip_by.
  assert (drop_while p s = s) as ->.
  { destruct s as [|c s]; [done|]. by apply drop_while_id. }
  assert (drop_while p (rev s) = rev s) as ->.
  { destruct (rev s) as [|c t]; [done|]. by apply drop_while_id. }
  apply rev_involutive.
Qed.

Lemma strip_by_idem p (s : str) : strip_by p (strip_by p s) = strip_by p s.
Proof. apply strip_by_id; [apply strip_by_head | apply strip_by_last]. Qed.

Lemma strip_by_length p (s : str) : (length (strip_by p s) <= length s)%nat.
Proof.
  destruct (strip_by_infix p s) as (a & b & E). rewrite E at 2.
  rewrite !length_app. lia.
Qed.

Lemma drop_while_incl p (s : str) c : In c (drop_while p s) -> In c s.
Proof.
  destruct (drop_while_suffix p s) as [t Ht]. intros H. rewrite Ht.
  apply in_or_app. by right.
Qed.

Lemma rstrip_by_incl p (s : str) c : In c (rstrip_by p s) -> In c s.
Proof.
  unfold rstrip_by. intros H. apply in_rev in H.
  apply drop_while_incl in H. by apply in_rev.
Qed.

Lemma strip_by_incl p (s : str) c : In c (strip_by p s) -> In c s.
Proof.
  unfold strip_by, lstrip_by. intros H. apply rstrip_by_incl in H.
  by apply drop_while_incl in H.
Qed.

Lemma is_decimal_not_space c : is_decimal c = true -> is_space c = false.
Proof.
  unfold is_decimal, decimal_value. intros H.
  destruct (is_space c) eqn:Hs; [|done].
  destruct ((48 <=? c) && (c <=? 57)) eqn:H1.
  - apply andb_true_iff in H1 as [H1 H2].
    apply N.leb_le in H1, H2. unfold is_space in Hs.
    repeat (apply orb_true_iff in Hs as [Hs|Hs]);
      repeat (apply andb_true_iff in Hs as [? ?]);
      repeat match goal with
             | H : (_ <=? _) = true |- _ => apply N.leb_le in H
             | H : (_ =? _) = true |- _ => apply N.eqb_eq in H
             end; lia.
  - destruct (c <? 128); [discriminate|].
    by rewrite (uni_decimal_space c Hs) in H.
Qed.

Lemma is_decimal_ascii c : ascii_digit c = true -> is_decimal c = true.
Proof. unfold ascii_digit, is_decimal, decimal_value. by intros ->. Qed.

Lemma is_decimal_not_sign c :
  is_decimal c = true -> (c =? 45) = false /\ (c =? 43) = false /\ (c =? 95) = false.
Proof.
  unfold is_decimal, decimal_value. intros H.
  repeat split; apply N.eqb_neq; intros ->; by vm_compute in H.
Qed.

Lemma int_digits_decimal ds : forall acc last,
  forallb is_decimal ds = true -> (ds <> [] \/ last = true) ->
  int_digits acc last ds = Some (numeral_from acc ds).
Proof.
  induction ds as [|d ds IH]; intros acc last Hf Hl; simpl in *.
  - destruct Hl as [?| ->]; done.
  - apply andb_true_iff in Hf as [Hd Hds]. unfold digit_val.
    unfold is_decimal in Hd. destruct (decimal_value d) as [v|]; [|done].
    apply IH; [exact Hds | by right].
Qed.

Lemma filter_all {A} (p : A -> bool) (l : list A) :
  forallb p l = true -> List.filter p l = l.
Proof.
  induction l as [|a l IH]; [done|]. cbn [forallb List.filter].
  intros [-> H]%andb_true_iff. by rewrite IH.
Qed.

(** [int] of a non-empty run of decimal digits: the number it denotes
    when the run is within the limit, and a [ValueError] beyond. *)
Lemma py_int_run ds :
  ds <> [] -> forallb is_decimal ds = true ->
  py_int ds
  = if max_str_digits <? N.of_nat (length ds) then Raise ValueError
    else Ok (Z.of_N (numeral ds)).
Proof.
  intros Hne Hf. unfold py_int.
  assert (strip ds = ds) as ->.
  { apply strip_by_id.
    - destruct ds as [|c t]; [done|]. simpl in Hf.
      apply andb_true_iff in Hf as [Hc _]. by apply is_decimal_not_space.
    - destruct (rev ds) as [|c t] eqn:E; [done|].
      apply is_decimal_not_space.
      assert (In c ds) as Hin by (apply in_rev; rewrite E; by left).
      rewrite forallb_forall in Hf. by apply Hf. }
  destruct ds as [|c t]; [done|].
  assert (is_decimal c = true) as Hc by (simpl in Hf; by apply andb_true_iff in Hf as [? _]).
  destruct (is_decimal_not_sign c Hc) as (-> & -> & _).
  rewrite (int_digits_decimal _ 0 false Hf) by (by left).
  by rewrite (filter_all _ _ Hf).
Qed.

Lemma py_int_decimal ds :
  ds <> [] -> forallb is_decimal ds = true -> int_sized ds ->
  py_int ds = Ok (Z.of_N (numeral ds)).
Proof.
  intros Hne Hf Hs. rewrite (py_int_run ds Hne Hf).
  unfold int_sized in Hs. by apply N.ltb_ge in Hs as ->.
Qed.

Lemma py_int_long ds :
  ds <> [] -> forallb is_decimal ds = true -> ~ int_sized ds ->
  py_int ds = Raise ValueError.
Proof.
  intros Hne Hf Hs. rewrite (py_int_run ds Hne Hf).
  unfold int_sized in Hs. apply N.nle_gt, N.ltb_lt in Hs. by rewrite Hs.
Qed.

(** [int] raises nothing but [ValueError]. *)
Lemma py_int_value_error s e : py_int s = Raise e -> e = ValueError.
Proof.
  unfold py_int.
  destruct (match strip s with [] => _ | _ :: _ => _ end) as [neg ds].
  destruct (int_digits 0 false ds); [|by intros [= <-]].
  destruct (_ <? _); [by intros [= <-]|done].
Qed.

Lemma forallb_last {A} (p : A -> bool) (l : list A) :
  l <> [] -> forallb p l = true ->
  exists l' a, l = l' ++ [a] /\ p a = true.
Proof.
  intros Hne Hf. destruct (exists_last Hne) as (l' & a & ->).
  exists l', a. split; [done|]. rewrite forallb_app in Hf.
  apply andb_true_iff in Hf as [_ Hf]. simpl in Hf.
  by apply andb_true_iff in Hf as [? _].
Qed.

Lemma forallb_weaken {A} (p q : A -> bool) (l : list A) :
  (forall a, p a = true -> q a = true) ->
  forallb p l = true -> forallb q l = true.
Proof.
  intros Hpq. rewrite !forallb_forall. intros H a Ha. by apply Hpq, H.
Qed.

End StringFacts.

Ltac inv_matches :=
  repeat match goal with
  | H : matches (plus _) _ _ |- _ =>
    apply matches_plus_inv in H as (? & ? & ? & ? & ? & ? & ?)
  | H : matches (opt _) _ _ |- _ => apply matches_alt_inv in H as [H|H]
  | H : matches (Cat _ _) _ _ |- _ => apply matches_cat_inv in H as (? & ? & H)
  | H : matches Eps _ _ |- _ => apply matches_eps_inv in H; subst
  | H : matches (Chr _) _ _ |- _ =>
    apply matches_chr_inv in H as (? & ? & ? & ? & ?)
  | H : matches (lit _) _ _ |- _ =>
    apply matches_chr_inv in H as (? & ? & ? & ? & ?)
  | H : matches (Star _ _) _ _ |- _ =>
    apply matches_star_inv in H as (? & ? & ? & ? & ?)
  | H : matches (Grp _ _) _ _ |- _ =>
    apply matches_grp_inv in H as (? & H & ? & ? & ?)
  | H : matches (Alt _ _) _ _ |- _ => apply matches_alt_inv in H as [H|H]
  | H : matches Eos _ _ |- _ => apply matches_eos_inv in H as [? ?]; subst
  | H : matches Wordb _ _ |- _ => apply matches_wordb_inv in H as [? ?]; subst
  end.

Ltac caps_chain :=
  repeat match goal with
         | H : caps ?x = _ |- context [caps ?x] => rewrite H
         end.

Ltac rest_chain :=
  repeat match goal with
         | H : rest ?x = _ |- context [rest ?x] => rewrite H
         end.

(** ** The wiki list scraper *)

Section WikiFacts.
Context {U : UnicodeTables}.
Import WikiScraper.

(** The separator pattern is found exactly in the texts that have a dash
    between white space. *)
Lemma sep_search_iff (s : str) :
  re_search sep_re s <> None <-> has_separator s.
Proof.
  split.
  - destruct (re_search sep_re s) as [f|] eqn:Hs; [intros _|done].
    apply search_from_some in Hs as (st & Hm & Hs & _).
    apply m_sound in Hm as (st' & Hm & [= ->]).
    unfold sep_re, cat in Hm; simpl in Hm. inv_matches. simpl in *.
    match goal with
    | H1 : whole f ++ after f = ?c :: ?ds ++ rest ?s1,
      H2 : rest ?s1 = ?d :: rest ?s2,
      H3 : rest ?s2 = ?b :: ?ds2 ++ rest ?s3,
      Hc : is_space ?c = true, Hds : forallb is_space ?ds = true |- _ =>
      destruct (forallb_last is_space (c :: ds)) as (l' & a & Hl & Ha);
        [done | by simpl; rewrite Hc, Hds |];
      exists (before f ++ l'), a, d, b, (ds2 ++ rest s3);
      repeat split; try assumption;
      rewrite H1, H2, H3, app_comm_cons, Hl, <- !app_assoc; reflexivity
    end.
  - intros (pre & a & d & b & post & -> & Ha & Hd & Hb) Hn.
    unfold re_search in Hn.
    pose proof (proj1 (search_from_none _ _ _) Hn pre _ eq_refl) as H.
    unfold match_here in H.
    assert (matches sep_re (MState (after_run None pre) (a :: d :: b :: post) [])
                    (MState (Some b) post [])) as Hm.
    { unfold sep_re, cat; simpl.
      eapply M_cat; [exact (matches_plus_run is_space a [] _ _ _ Ha eq_refl)|].
      eapply M_cat; [by apply M_chr|].
      eapply M_cat; [exact (matches_plus_run is_space b [] _ _ _ Hb eq_refl)|].
      constructor. }
    by pose proof (m_complete _ _ _ Hm Some H).
Qed.

Lemma location_group1 l lm :
  re_match location_re l = Some lm -> exists g, group 1 (groups lm) = Some g.
Proof.
  unfold re_match. destruct (match_here location_re None l) as [st|] eqn:Hm;
    [|discriminate].
  intros [= <-]. simpl.
  apply m_sound in Hm as (st' & Hm & [= ->]).
  unfold location_re, cat in Hm; simpl in Hm.
  inv_matches; caps_chain; simpl; eauto.
Qed.

Lemma rank_group1 n rm :
  re_search rank_re n = Some rm ->
  exists ds, group 1 (groups rm) = Some ds /\ ds <> []
             /\ forallb is_decimal ds = true
             /\ (length ds <= length n)%nat.
Proof.
  intros H. apply search_from_some in H as (st & Hm & Hn & _ & Hc & _).
  apply m_sound in Hm as (st' & Hm & [= ->]).
  unfold rank_re, cat in Hm; simpl in Hm.
  inv_matches. rewrite <- Hc. clear Hc. caps_chain. simpl in *.
  match goal with
  | H0 : whole rm ++ after rm = _ :: rest ?a,
    H : rest ?a = ?c :: ?ds ++ rest ?b |- _ =>
    rewrite H0, H, app_comm_cons, taken_app; exists (c :: ds)
  end.
  repeat split; [done| |].
  - simpl. by repeat match goal with H : _ = true |- _ => rewrite H end.
  - rewrite !length_app. cbn [length]. rewrite length_app. cbn [length]. lia.
Qed.

(** With a separator, the line gives a record that keeps the heading it
    was listed under, and nothing is logged; unless the rank in the name
    part is more than [int] reads, which is logged as an error. *)
Lemma parse_list_entry_found text industry :
  has_separator text ->
  (exists name location rank notes,
     parse_list_entry text industry
     = (Some (entry_record name industry location rank notes), []))
  \/ (parse_list_entry text industry = (None, [ErrorParsing text ValueError])
      /\ ~ int_sized text).
Proof.
  intros Hs. apply sep_search_iff in Hs.
  unfold parse_list_entry, parse_list_entry_body, re_split1.
  destruct (re_search sep_re text) as [f|] eqn:Ef; [clear Hs|done].
  cbn beta iota.
  set (loc := strip (after f)). set (nm := strip (before f)).
  assert (exists location notes,
    (if contains (utf8 "(") loc
     then match re_match location_re loc with
          | Some location_match =>
            let* g1 := deref (group 1 (groups location_match)) in
            Ok (strip g1, group 2 (groups location_match))
          | None => Ok (loc, None)
          end
     else Ok (loc, None)) = Ok (location, notes)) as (location & notes & ->).
  { destruct (contains _ loc); [|eauto].
    destruct (re_match location_re loc) as [lm|] eqn:Hl; [|eauto].
    destruct (location_group1 _ _ Hl) as [g ->]. simpl. eauto. }
  cbn [bind].
  destruct (re_search rank_re nm) as [rm|] eqn:Hr.
  - destruct (rank_group1 _ _ Hr) as (ds & -> & Hne & Hd & Hlen).
    cbn [py_int_opt]. rewrite (py_int_run ds Hne Hd).
    destruct (max_str_digits <? N.of_nat (length ds)) eqn:El.
    + right. split; [done|]. apply N.ltb_lt in El. unfold int_sized.
      apply search_from_some in Ef as (_ & _ & Et & _).
      pose proof (strip_by_length is_space (before f)) as Hb.
      fold (strip (before f)) in Hb. fold nm in Hb.
      rewrite Et, !length_app. lia.
    + left. cbn [bind]. eauto 10.
  - left. simpl. eauto 10.
Qed.

(** Without a separator, the line gives nothing and a warning is logged. *)
Lemma parse_list_entry_missing text industry :
  ~ has_separator text ->
  parse_list_entry text industry = (None, [CouldNotParse text]).
Proof.
  intros Hs. unfold parse_list_entry, parse_list_entry_body, re_split1.
  destruct (re_search sep_re text) as [f|] eqn:E; [|done].
  exfalso. apply Hs, sep_search_iff. by rewrite E.
Qed.

Lemma entry_record_nonempty name industry location rank notes :
  entry_record name industry location rank notes <> ∅.
Proof. unfold entry_record. apply insert_non_empty. Qed.

Lemma has_separator_dec text : has_separator text \/ ~ has_separator text.
Proof.
  destruct (re_search sep_re text) as [f|] eqn:E.
  - left. apply sep_search_iff. by rewrite E.
  - right. intros H%sep_search_iff. by rewrite E in H.
Qed.

(** A record comes from a line with a separator, and with nothing
    logged. *)
Lemma parse_list_entry_some text industry d :
  fst (parse_list_entry text industry) = Some d ->
  has_separator text
  /\ parse_list_entry text industry = (Some d, [])
  /\ exists name location rank notes,
       d = entry_record name industry location rank notes.
Proof.
  intros H. destruct (has_separator_dec text) as [Hs|Hs].
  - split; [exact Hs|].
    destruct (parse_list_entry_found text industry Hs)
      as [(n & l & rk & nt & E)|[E _]]; rewrite E in H; [|done].
    injection H as <-. split; [exact E|]. by exists n, l, rk, nt.
  - by rewrite (parse_list_entry_missing _ _ Hs) in H.
Qed.

(** The fields of the record of a list entry. *)
Lemma entry_record_fields name industry location rank notes :
  let r := entry_record name industry location rank notes in
  r !! "name"%string = Some (VStr name)
  /\ r !! "industry"%string = Some (VStr industry)
  /\ r !! "headquarters"%string = Some (VStr location)
  /\ r !! "fortune_500_rank"%string
     = Some (match rank with Some z => VInt z | None => VNone end)
  /\ r !! "notes"%string = Some (opt_str notes)
  /\ forall k, is_Some (r !! k) <-> In k entry_keys.
Proof.
  unfold entry_record. repeat split; try by simplify_map_eq.
  - intros [v Hv]. unfold entry_keys.
    destruct (decide (k = "notes"%string)) as [->|H1]; [simpl; tauto|].
    destruct (decide (k = "fortune_500_rank"%string)) as [->|H2]; [simpl; tauto|].
    destruct (decide (k = "headquarters"%string)) as [->|H3]; [simpl; tauto|].
    destruct (decide (k = "industry"%string)) as [->|H4]; [simpl; tauto|].
    destruct (decide (k = "name"%string)) as [->|H5]; [simpl; tauto|].
    by rewrite !lookup_insert_ne, lookup_empty in Hv.
  - unfold entry_keys. simpl. intros H.
    repeat destruct H as [<-|H]; try done; by simplify_map_eq.
Qed.

Section Loop.
Context {node : Type} {D : Document node}.
Variable fetch : str -> option node.
Variable urljoin : str -> str -> str.

Lemma process_company_effect st company :
  process_company fetch urljoin st company
  = (fst st ++ fst (item_effect fetch urljoin company),
     snd st ++ Processing (item_text company)
            :: tl (snd (item_effect fetch urljoin company))).
Proof.
  destruct st as [cs lg]. unfold item_effect, process_company. simpl.
  destruct (parse_list_entry _ _) as [[d|] lg1]; simpl.
  - destruct (bool_decide (d = ∅)); simpl.
    + by rewrite app_nil_r, <- app_assoc.
    + destruct (add_details fetch urljoin company d) as [d' lg2]. simpl.
      by rewrite <- !app_assoc.
  - by rewrite app_nil_r, <- app_assoc.
Qed.

Lemma process_entries_records companies : forall st,
  fst (process_entries fetch urljoin companies st)
  = fst st ++ flat_map (fun c => fst (item_effect fetch urljoin c)) companies.
Proof.
  unfold process_entries.
  induction companies as [|c cs IH]; intros st; simpl.
  - by rewrite app_nil_r.
  - rewrite IH, process_company_effect. simpl. by rewrite app_assoc.
Qed.

Lemma process_entries_log companies : forall st,
  snd (process_entries fetch urljoin companies st)
  = snd st ++ flat_map (fun c => Processing (item_text c)
                          :: tl (snd (item_effect fetch urljoin c))) companies.
Proof.
  unfold process_entries.
  induction companies as [|c cs IH]; intros st; simpl.
  - by rewrite app_nil_r.
  - rewrite IH, process_company_effect. simpl. by rewrite <- app_assoc.
Qed.

Lemma item_effect_missing company :
  ~ has_separator (item_text company) ->
  item_effect fetch urljoin company
  = ([], [Processing (item_text company); CouldNotParse (item_text company)]).
Proof.
  intros H. unfold item_effect, process_company.
  by rewrite (parse_list_entry_missing _ _ H).
Qed.

Lemma item_effect_none company :
  fst (parse_list_entry (item_text company) (item_industry company)) = None ->
  item_effect fetch urljoin company
  = ([], Processing (item_text company)
           :: snd (parse_list_entry (item_text company) (item_industry company))).
Proof.
  unfold item_effect, process_company.
  destruct (parse_list_entry _ _) as [[d|] lg]; [done|]. by intros _.
Qed.

Lemma item_effect_found company d :
  fst (parse_list_entry (item_text company) (item_industry company)) = Some d ->
  item_effect fetch urljoin company
  = ([fst (add_details fetch urljoin company d)],
     Processing (item_text company)
       :: snd (add_details fetch urljoin company d)).
Proof.
  intros H. unfold item_effect, process_company.
  destruct (parse_list_entry_some _ _ _ H) as (_ & -> & n & l & r & nt & ->).
  rewrite bool_decide_eq_false_2 by apply entry_record_nonempty.
  by destruct (add_details _ _ _ _) as [d lg].
Qed.

End Loop.

Section Merge.
Context {node : Type} {D : Document node}.
Variable fetch : str -> option node.
Variable urljoin : str -> str -> str.

Lemma infobox_row_keys data row k v :
  infobox_row data row !! k = Some v ->
  data !! k = Some v \/ In k (map snd field_mapping).
Proof.
  unfold infobox_row. intros H.
  destruct (find row q_th) as [header|]; [|by left].
  destruct (mapping_get field_mapping _) as [f|] eqn:Hf; [|by left].
  assert (In f (map snd field_mapping)) as Hin.
  { clear H. revert Hf. generalize field_mapping.
    induction l as [|[k0 f0] l IH]; simpl; [done|].
    case_bool_decide; [intros [= ->]; by left | intros ?; right; by apply IH]. }
  destruct (find row q_td) as [value|]; [|by left].
  destruct (decide (f = k)) as [->|Hne]; [by right|].
  left. revert H.
  case_bool_decide; [destruct (find_all value q_li)|];
    by rewrite lookup_insert_ne.
Qed.

(** The infobox fills no field outside its mapping. *)
Lemma parse_infobox_keys soup k v :
  parse_infobox soup !! k = Some v -> In k (map snd field_mapping).
Proof.
  unfold parse_infobox. destruct (find soup q_infobox) as [ib|]; [|done].
  assert (forall rows data,
    fold_left infobox_row rows data !! k = Some v ->
    data !! k = Some v \/ In k (map snd field_mapping)) as Hfold.
  { induction rows as [|r rows IH]; intros data H; simpl in H; [by left|].
    destruct (IH _ H) as [H1|H1]; [|by right].
    exact (infobox_row_keys _ _ _ _ H1). }
  intros H. destruct (Hfold _ _ H) as [H1|H1]; [|exact H1].
  by rewrite lookup_empty in H1.
Qed.

(** C10.  For a company whose wiki link leads to a page that is fetched:
    a line with a separator, of no more characters than [int] reads
    digits, gives a list-derived record; and whenever the line gives a
    record, the record emitted is that record updated with the infobox:
    every field the infobox gives (industry and headquarters among them)
    has the infobox's value, every other field but the page URL keeps the
    list-derived value, and the name, the rank and the notes are always
    the list's. *)
Theorem infobox_overrides_list_fields (company : list_item) (link : str)
    (page : node) :
  item_link company = Some link ->
  startswith (utf8 "/wiki/") link = true ->
  fetch (urljoin base_url link) = Some page ->
  (has_separator (item_text company) -> int_sized (item_text company) ->
   exists basic,
     fst (parse_list_entry (item_text company) (item_industry company))
     = Some basic)
  /\ forall basic,
       fst (parse_list_entry (item_text company) (item_industry company))
       = Some basic ->
       exists r,
         fst (item_effect fetch urljoin company) = [r]
         /\ (forall k v, parse_infobox page !! k = Some v -> r !! k = Some v)
         /\ (forall k, parse_infobox page !! k = None ->
                       k <> "wikipedia_url"%string -> r !! k = basic !! k)
         /\ r !! "wikipedia_url"%string = Some (VStr (urljoin base_url link))
         /\ r !! "name"%string = basic !! "name"%string
         /\ r !! "fortune_500_rank"%string = basic !! "fortune_500_rank"%string
         /\ r !! "notes"%string = basic !! "notes"%string.
Proof.
  intros Hl Hw Hf. split.
  { intros Hs Hz.
    destruct (parse_list_entry_found _ (item_industry company) Hs)
      as [(n & l & rk & nt & E)|[_ H]]; [|done].
    rewrite E. eauto. }
  intros basic Hb.
  assert (add_details fetch urljoin company basic
          = (<["wikipedia_url"%string := VStr (urljoin base_url link)]>
               (update basic (parse_infobox page)), [])) as Ha.
  { unfold add_details. rewrite Hl. destruct link as [|c t]; [done|].
    rewrite Hw. unfold get_page. by rewrite Hf. }
  exists (<["wikipedia_url"%string := VStr (urljoin base_url link)]>
            (update basic (parse_infobox page))).
  assert (forall k, parse_infobox page !! k = None -> k <> "wikipedia_url"%string ->
            <["wikipedia_url"%string := VStr (urljoin base_url link)]>
              (update basic (parse_infobox page)) !! k = basic !! k) as Hkeep.
  { intros k Hk Hne. rewrite lookup_insert_ne by done.
    unfold update. by rewrite lookup_union_r. }
  assert (forall k, ~ In k (map snd field_mapping) -> parse_infobox page !! k = None)
    as Hout.
  { intros k Hk. destruct (parse_infobox page !! k) eqn:E1; [|done].
    by apply parse_infobox_keys in E1. }
  repeat split.
  - rewrite (item_effect_found fetch urljoin company basic Hb). by rewrite Ha.
  - intros k v Hk.
    assert (k <> "wikipedia_url"%string) as Hne.
    { intros ->. apply parse_infobox_keys in Hk. simpl in Hk.
      repeat destruct Hk as [Hk|Hk]; done. }
    rewrite lookup_insert_ne by done. unfold update.
    by rewrite (lookup_union_Some_l _ _ _ _ Hk).
  - exact Hkeep.
  - by rewrite lookup_insert_eq.
  - apply Hkeep; [|done]. apply Hout. simpl. intros H.
    repeat destruct H as [H|H]; done.
  - apply Hkeep; [|done]. apply Hout. simpl. intros H.
    repeat destruct H as [H|H]; done.
  - apply Hkeep; [|done]. apply Hout. simpl. intros H.
    repeat destruct H as [H|H]; done.
Qed.

End Merge.
End WikiFacts.

(** ** The directory scraper *)

Section ScraperFacts.
Context {U : UnicodeTables} {node : Type} {D : Document node}.
Import Scraper.

Lemma try_assign_ok k (e : result pyval) d :
  try_stmt (assign k e) (assign k (Ok VNone)) d
  = (<[k := match e with Ok v => v | Raise _ => VNone end]> d, None).
Proof. unfold try_stmt, assign. by destruct e. Qed.

Lemma name_block_eq card d :
  name_block card d
  = (<["name"%string :=
        match find card q_h3 with
        | Some h => VStr (strip (text_of h))
        | None => VNone
        end]> d, None).
Proof.
  unfold name_block. rewrite try_assign_ok. by destruct (find card q_h3).
Qed.

Lemma description_block_eq card d :
  description_block card d
  = (<["description"%string :=
        match find card q_what with
        | Some e => match next_text e with
                    | Some t => VStr (strip t)
                    | None => VNone
                    end
        | None => VNone
        end]> d, None).
Proof.
  unfold description_block. cbv zeta. rewrite try_assign_ok.
  destruct (find card q_what) as [e|]; [|done]. by destruct (next_text e).
Qed.

Lemma industries_block_eq card d :
  industries_block card d
  = (<["industries"%string :=
        VList (map (fun tag => strip (text_of tag))
                 (filter (fun tag => attr tag "id" = Some (utf8 "industry-tags"))
                         (find_all card q_badge)))]> d, None).
Proof. reflexivity. Qed.

Lemma location_block_eq card :
  exists v, (forall d, location_block card d = (<["location"%string := v]> d, None))
            /\ (find card q_quick = None -> v = VNone).
Proof.
  unfold location_block. eexists. split.
  - intros d. rewrite try_assign_ok. reflexivity.
  - by intros ->.
Qed.

Lemma size_block_eq card d :
  size_block card d
  = (<["founded_year"%string :=
        match find_all card q_size with
        | _ :: t :: _ => VStr (replace (utf8 "Founded: ") [] (strip (text_of t)))
        | _ => VNone
        end]>
     (<["company_size"%string :=
        match find_all card q_size with
        | t :: _ => VStr (strip (text_of t))
        | [] => VNone
        end]> d), None).
Proof.
  unfold size_block, try_stmt, block, seq, assign, skip.
  destruct (find_all card q_size) as [|t0 [|t1 ts]]; reflexivity.
Qed.

Lemma website_block_eq card :
  exists v, (forall d, website_block card d = (<["website"%string := v]> d, None))
            /\ (find card q_website = None -> v = VNone).
Proof.
  unfold website_block. cbv zeta. eexists. split.
  - intros d. rewrite try_assign_ok. reflexivity.
  - by intros ->.
Qed.

Lemma funding_tag_classify text :
  funding_tag text
  = match classify text with
    | ToLatestFunding => assign "latest_funding" (Ok (VStr text))
    | ToValuation => assign "valuation" (Ok (VStr text))
    | ToInvestors => append "investors" text
    end.
Proof.
  unfold funding_tag, classify, is_funding_text, is_valuation_text.
  destruct (_ || _); [done|]. by destruct (contains _ _).
Qed.

Lemma last_cons_some {A B} (f : A -> B) (x : A) (l : list A) (o : B) :
  match last (x :: l) with Some t => f t | None => o end
  = match last l with Some t => f t | None => f x end.
Proof.
  destruct l as [|y l]; [done|].
  assert (exists z, last (y :: l) = Some z) as [z Hz].
  { clear x. revert y. induction l as [|y' l IH]; intros y; [by exists y|].
    destruct (IH y') as [z Hz]. by exists z. }
  change (last (x :: y :: l)) with (last (y :: l)). by rewrite Hz.
Qed.

(** The loop over the funding tags never raises; it appends the investor
    texts in order and leaves the last funding and valuation texts. *)
Lemma funding_loop texts : forall d inv,
  d !! "investors"%string = Some (VList inv) ->
  exists d',
    for_each texts funding_tag d = (d', None)
    /\ d' !! "investors"%string = Some (VList (inv ++ texts_to ToInvestors texts))
    /\ d' !! "latest_funding"%string
       = match last (texts_to ToLatestFunding texts) with
         | Some t => Some (VStr t)
         | None => d !! "latest_funding"%string
         end
    /\ d' !! "valuation"%string
       = match last (texts_to ToValuation texts) with
         | Some t => Some (VStr t)
         | None => d !! "valuation"%string
         end
    /\ forall k, k <> "investors"%string -> k <> "latest_funding"%string ->
                 k <> "valuation"%string -> d' !! k = d !! k.
Proof.
  unfold for_each.
  induction texts as [|t texts IH]; intros d inv Hd; simpl.
  - exists d. unfold skip. rewrite app_nil_r. by repeat split.
  - unfold seq, texts_to. simpl. rewrite funding_tag_classify.
    destruct (classify t) eqn:Hc; simpl.
    + destruct (IH (<["latest_funding"%string := VStr t]> d) inv)
        as (d' & -> & Hi & Hl & Hv & Hk).
      { by rewrite lookup_insert_ne. }
      exists d'. split; [done|]. split; [exact Hi|].
      fold (texts_to ToLatestFunding texts). split; [|split].
      * rewrite Hl, lookup_insert_eq. symmetry.
        apply (last_cons_some (fun t => Some (VStr t))).
      * rewrite Hv. by rewrite lookup_insert_ne.
      * intros k H1 H2 H3. rewrite Hk by done. by rewrite lookup_insert_ne.
    + destruct (IH (<["valuation"%string := VStr t]> d) inv)
        as (d' & -> & Hi & Hl & Hv & Hk).
      { by rewrite lookup_insert_ne. }
      exists d'. split; [done|]. split; [exact Hi|].
      fold (texts_to ToValuation texts). split; [|split].
      * rewrite Hl. by rewrite lookup_insert_ne.
      * rewrite Hv, lookup_insert_eq. symmetry.
        apply (last_cons_some (fun t => Some (VStr t))).
      * intros k H1 H2 H3. rewrite Hk by done. by rewrite lookup_insert_ne.
    + unfold append at 1. rewrite Hd.
      destruct (IH (<["investors"%string := VList (inv ++ [t])]> d) (inv ++ [t]))
        as (d' & -> & Hi & Hl & Hv & Hk).
      { by rewrite lookup_insert_eq. }
      exists d'. split; [done|]. fold (texts_to ToInvestors texts).
      split; [|split; [|split]].
      * rewrite Hi. by rewrite <- app_assoc.
      * rewrite Hl. by rewrite lookup_insert_ne.
      * rewrite Hv. by rewrite lookup_insert_ne.
      * intros k H1 H2 H3. rewrite Hk by done. by rewrite lookup_insert_ne.
Qed.

Lemma funding_block_eq card d :
  let texts := map (fun tag => strip (text_of tag)) (find_all card q_funding) in
  exists d',
    funding_block card d = (d', None)
    /\ d' !! "investors"%string = Some (VList (texts_to ToInvestors texts))
    /\ d' !! "latest_funding"%string
       = Some (opt_str (last (texts_to ToLatestFunding texts)))
    /\ d' !! "valuation"%string
       = Some (opt_str (last (texts_to ToValuation texts)))
    /\ forall k, k <> "investors"%string -> k <> "latest_funding"%string ->
                 k <> "valuation"%string -> d' !! k = d !! k.
Proof.
  intros texts. unfold funding_block, try_stmt.
  cbn [block]. unfold seq at 1 2 3. unfold assign at 1 2 3.
  set (d0 := <["valuation"%string := VNone]>
             (<["latest_funding"%string := VNone]>
              (<["investors"%string := VList []]> d))).
  assert (seq (for_each (find_all card q_funding)
                 (fun tag => funding_tag (strip (text_of tag)))) skip d0
          = for_each texts funding_tag d0) as ->.
  { unfold seq, for_each, texts. rewrite map_map.
    by destruct (block _ d0) as [d1 [e|]]. }
  destruct (funding_loop texts d0 []) as (d' & -> & Hi & Hl & Hv & Hk).
  { unfold d0. by simplify_map_eq. }
  exists d'. split; [done|]. split; [exact Hi|]. split; [|split].
  - rewrite Hl. unfold d0. rewrite lookup_insert_ne by done.
    rewrite lookup_insert_eq.
    by destruct (last (texts_to ToLatestFunding texts)).
  - rewrite Hv. unfold d0. rewrite lookup_insert_eq.
    by destruct (last (texts_to ToValuation texts)).
  - intros k H1 H2 H3. rewrite Hk by done. unfold d0.
    by rewrite !lookup_insert_ne by done.
Qed.

(** The record [extract_startup_info] returns, field by field. *)
Lemma extract_startup_info_fields card :
  let sizes := find_all card q_size in
  let texts := map (fun tag => strip (text_of tag)) (find_all card q_funding) in
  exists d vl vw,
    extract_startup_info card = (d, None)
    /\ (forall d0, location_block card d0 = (<["location"%string := vl]> d0, None))
    /\ (find card q_quick = None -> vl = VNone)
    /\ (forall d0, website_block card d0 = (<["website"%string := vw]> d0, None))
    /\ (find card q_website = None -> vw = VNone)
    /\ d !! "name"%string
       = Some (match find card q_h3 with
               | Some h => VStr (strip (text_of h))
               | None => VNone
               end)
    /\ d !! "description"%string
       = Some (match find card q_what with
               | Some e => match next_text e with
                           | Some t => VStr (strip t)
                           | None => VNone
                           end
               | None => VNone
               end)
    /\ d !! "industries"%string
       = Some (VList (map (fun tag => strip (text_of tag))
                 (filter (fun tag => attr tag "id" = Some (utf8 "industry-tags"))
                         (find_all card q_badge))))
    /\ d !! "location"%string = Some vl
    /\ d !! "company_size"%string
       = Some (match sizes with
               | t :: _ => VStr (strip (text_of t))
               | [] => VNone
               end)
    /\ d !! "founded_year"%string
       = Some (match sizes with
               | _ :: t :: _ =>
                 VStr (replace (utf8 "Founded: ") [] (strip (text_of t)))
               | _ => VNone
               end)
    /\ d !! "investors"%string = Some (VList (texts_to ToInvestors texts))
    /\ d !! "latest_funding"%string
       = Some (opt_str (last (texts_to ToLatestFunding texts)))
    /\ d !! "valuation"%string
       = Some (opt_str (last (texts_to ToValuation texts)))
    /\ d !! "website"%string = Some vw
    /\ forall k, ~ In k startup_keys -> d !! k = None.
Proof.
  intros sizes texts.
  destruct (location_block_eq card) as (vl & Hloc & Hld).
  destruct (website_block_eq card) as (vw & Hweb & Hwd).
  unfold extract_startup_info. cbn [block]. unfold seq.
  rewrite name_block_eq, description_block_eq, industries_block_eq, Hloc,
    size_block_eq.
  match goal with
  | |- context [funding_block card ?d5] =>
    destruct (funding_block_eq card d5) as (dF & -> & Hi & Hl & Hv & Hk)
  end.
  rewrite Hweb. unfold skip.
  exists (<["website"%string := vw]> dF), vl, vw.
  split; [done|]. do 4 (split; [assumption|]).
  repeat split;
    try (rewrite lookup_insert_ne by done; first [exact Hi | exact Hl | exact Hv]);
    try (rewrite lookup_insert_ne by done; rewrite Hk by done;
         by simplify_map_eq);
    try by rewrite lookup_insert_eq.
  intros k Hn. unfold startup_keys in Hn. simpl in Hn.
  rewrite lookup_insert_ne by (intros <-; tauto).
  rewrite Hk by (intros ->; tauto).
  rewrite !lookup_insert_ne by (intros <-; tauto).
  apply lookup_empty.
Qed.

Lemma insert_value_inj (k : string) (v v' : pyval) (d : gmap string pyval) :
  (<[k := v]> d, @None exn) = (<[k := v']> d, None) -> v = v'.
Proof.
  intros [= H]. apply (f_equal (fun m => m !! k)) in H.
  rewrite !lookup_insert_eq in H. by injection H.
Qed.

(** C6.  For every card, [extract_startup_info] returns normally with a
    record that has exactly the ten field keys.  Each field is read off
    what its own locator finds, whatever the rest of the card holds: two
    cards on which the locator of a field finds the same give the field
    the same value.  The locators are the first [h3], the description
    and the quick-facts labels, the industry badges, the first and the
    second size tag, the funding tags of each kind, and the website
    link.  A field whose locator finds nothing has its default, [None]
    or the empty list. *)
Theorem extract_startup_info_never_fails (card : node) :
  let sizes c := find_all c q_size in
  let texts c := funding_texts c in
  exists d,
    extract_startup_info card = (d, None)
    /\ (forall k, In k startup_keys <-> is_Some (d !! k))
    /\ (forall card',
          let d' := fst (extract_startup_info card') in
          (find card' q_h3 = find card q_h3 -> d' !! "name" = d !! "name")
          /\ (find card' q_what = find card q_what ->
              d' !! "description" = d !! "description")
          /\ (find_all card' q_badge = find_all card q_badge ->
              d' !! "industries" = d !! "industries")
          /\ (find card' q_quick = find card q_quick ->
              d' !! "location" = d !! "location")
          /\ (nth_error (sizes card') 0 = nth_error (sizes card) 0 ->
              d' !! "company_size" = d !! "company_size")
          /\ (nth_error (sizes card') 1 = nth_error (sizes card) 1 ->
              d' !! "founded_year" = d !! "founded_year")
          /\ (texts_to ToInvestors (texts card')
              = texts_to ToInvestors (texts card) ->
              d' !! "investors" = d !! "investors")
          /\ (last (texts_to ToLatestFunding (texts card'))
              = last (texts_to ToLatestFunding (texts card)) ->
              d' !! "latest_funding" = d !! "latest_funding")
          /\ (last (texts_to ToValuation (texts card'))
              = last (texts_to ToValuation (texts card)) ->
              d' !! "valuation" = d !! "valuation")
          /\ (find card' q_website = find card q_website ->
              d' !! "website" = d !! "website"))%string
    /\ ((find card q_h3 = None -> d !! "name" = Some VNone)
        /\ (find card q_what = None -> d !! "description" = Some VNone)
        /\ (find_all card q_badge = [] -> d !! "industries" = Some (VList []))
        /\ (find card q_quick = None -> d !! "location" = Some VNone)
        /\ (nth_error (sizes card) 0 = None ->
            d !! "company_size" = Some VNone)
        /\ (nth_error (sizes card) 1 = None ->
            d !! "founded_year" = Some VNone)
        /\ (texts_to ToInvestors (texts card) = [] ->
            d !! "investors" = Some (VList []))
        /\ (texts_to ToLatestFunding (texts card) = [] ->
            d !! "latest_funding" = Some VNone)
        /\ (texts_to ToValuation (texts card) = [] ->
            d !! "valuation" = Some VNone)
        /\ (find card q_website = None -> d !! "website" = Some VNone))%string.
Proof.
  intros sizes texts.
  destruct (extract_startup_info_fields card)
    as (d & vl & vw & Hd & Hloc & Hld & Hweb & Hwd & Hn & Hde & Hin & Hl & Hcs
        & Hfy & Hiv & Hlf & Hva & Hw & Hout).
  exists d. split; [exact Hd|]. split; [|split].
  - intros k. split.
    + unfold startup_keys. simpl. intros Hk.
      repeat destruct Hk as [<-|Hk]; try done; eauto.
    + intros [v Hv]. destruct (in_dec string_dec k startup_keys) as [|Hk]; [done|].
      by rewrite (Hout k Hk) in Hv.
  - intros card' d'.
    destruct (extract_startup_info_fields card')
      as (d1 & vl' & vw' & Hd' & Hloc' & _ & Hweb' & _ & Hn' & Hde' & Hin'
          & Hl' & Hcs' & Hfy' & Hiv' & Hlf' & Hva' & Hw' & _).
    unfold d'. rewrite Hd'. cbn [fst]. unfold sizes, texts, funding_texts.
    split; [intros E; by rewrite Hn', Hn, E|].
    split; [intros E; by rewrite Hde', Hde, E|].
    split; [intros E; by rewrite Hin', Hin, E|].
    split.
    { intros E. rewrite Hl', Hl. f_equal.
      pose proof (Hloc ∅) as H0. pose proof (Hloc' ∅) as H1.
      unfold location_block in H0, H1. rewrite E, H0 in H1.
      by apply insert_value_inj in H1. }
    split.
    { intros E. rewrite Hcs', Hcs. f_equal.
      destruct (find_all card' q_size) as [|a' l'], (find_all card q_size) as [|a l];
        cbn in E; congruence. }
    split.
    { intros E. rewrite Hfy', Hfy. f_equal.
      destruct (find_all card' q_size) as [|a' [|b' l']],
               (find_all card q_size) as [|a [|b l]]; cbn in E; congruence. }
    split; [intros E; by rewrite Hiv', Hiv, E|].
    split; [intros E; by rewrite Hlf', Hlf, E|].
    split; [intros E; by rewrite Hva', Hva, E|].
    intros E. rewrite Hw', Hw. f_equal.
    pose proof (Hweb ∅) as H0. pose proof (Hweb' ∅) as H1.
    unfold website_block in H0, H1. cbv zeta in H0, H1. rewrite E, H0 in H1.
    by apply insert_value_inj in H1.
  - unfold sizes, texts, funding_texts. repeat split.
    + intros E. by rewrite Hn, E.
    + intros E. by rewrite Hde, E.
    + intros E. by rewrite Hin, E.
    + intros E. by rewrite Hl, (Hld E).
    + intros E. rewrite Hcs. by destruct (find_all card q_size).
    + intros E. rewrite Hfy. by destruct (find_all card q_size) as [|a [|b l]].
    + intros E. by rewrite Hiv, E.
    + intros E. by rewrite Hlf, E.
    + intros E. by rewrite Hva, E.
    + intros E. by rewrite Hw, (Hwd E).
Qed.

(** C9, as amended.  Every funding tag has exactly one outcome, decided by
    [classify]: a text with [Series] (as written) or with [seed] in any
    letter case goes to [latest_funding]; any other text with [valuation]
    in any letter case goes to [valuation]; every other text is appended
    to [investors].  The record keeps the last text of each of the first
    two kinds and the investor texts in the order of the tags. *)
Theorem funding_tags_classified (card : node) :
  let texts := map (fun tag => strip (text_of tag)) (find_all card q_funding) in
  let d := fst (extract_startup_info card) in
  (forall text,
     funding_tag text
     = match classify text with
       | ToLatestFunding => assign "latest_funding" (Ok (VStr text))
       | ToValuation => assign "valuation" (Ok (VStr text))
       | ToInvestors => append "investors" text
       end)
  /\ d !! "latest_funding"%string
     = Some (opt_str (last (texts_to ToLatestFunding texts)))
  /\ d !! "valuation"%string
     = Some (opt_str (last (texts_to ToValuation texts)))
  /\ d !! "investors"%string = Some (VList (texts_to ToInvestors texts)).
Proof.
  intros texts d.
  destruct (extract_startup_info_fields card)
    as (d1 & vl & vw & Hd & _ & _ & _ & _ & _ & _ & _ & _ & _
        & _ & Hiv & Hlf & Hva & _).
  subst d. rewrite Hd. simpl. split; [exact funding_tag_classify|].
  by repeat split.
Qed.

End ScraperFacts.

(** ** The startups cleaner *)

Section StartupsFacts.
Context {U : UnicodeTables}.
Import StartupsCleaner.

Lemma stops_decimal (c : char) (s : str) :
  is_decimal c = false ->
  match c :: s with c' :: _ => is_decimal c' = false | [] => True end.
Proof. done. Qed.

Lemma match_range pv low high tail_ :
  is_numeral low -> is_numeral high ->
  match tail_ with c :: _ => is_decimal c = false | [] => True end ->
  exists pv',
    match_here size_range_re pv (low ++ utf8 "-" ++ high ++ tail_)
    = Some (MState pv' tail_ [(2%nat, high); (1%nat, low)]).
Proof.
  intros [Hl1 Hl2] [Hh1 Hh2] Ht.
  destruct low as [|l low]; [done|]. destruct high as [|h high]; [done|].
  simpl in Hl2, Hh2.
  apply andb_true_iff in Hl2 as [Hl Hl2]. apply andb_true_iff in Hh2 as [Hh Hh2].
  eexists.
  unfold match_here, size_range_re, cat, plus, lit.
  change (utf8 "-") with [45].
  cbn [fold_right m rest prev caps app]. rewrite Hl.
  apply star_loop_greedy; [exact Hl2 | done |].
  simpl. rewrite Hh.
  apply star_loop_greedy; [exact Hh2 | exact Ht |].
  change (l :: low ++ 45 :: h :: high ++ tail_)
    with ((l :: low) ++ 45 :: h :: high ++ tail_).
  change (h :: high ++ tail_) with ((h :: high) ++ tail_) at 1.
  by rewrite !taken_app.
Qed.

Lemma match_plus pv n tail_ :
  is_numeral n ->
  exists pv',
    match_here size_plus_re pv (n ++ utf8 "+ employees" ++ tail_)
    = Some (MState pv' tail_ [(1%nat, n)]).
Proof.
  intros [Hn1 Hn2]. destruct n as [|c n]; [done|]. simpl in Hn2.
  apply andb_true_iff in Hn2 as [Hc Hn2].
  eexists.
  unfold match_here, size_plus_re, cat, plus, lit.
  change (utf8 "+ employees") with [43; 32; 101; 109; 112; 108; 111; 121; 101; 101; 115].
  cbn [fold_right m rest prev caps app]. rewrite Hc.
  apply star_loop_greedy; [exact Hn2 | done |].
  simpl.
  change (c :: n ++ 43 :: 32 :: 101 :: 109 :: 112 :: 108 :: 111 :: 121 :: 101
            :: 101 :: 115 :: tail_)
    with ((c :: n) ++ 43 :: 32 :: 101 :: 109 :: 112 :: 108 :: 111 :: 121 :: 101
            :: 101 :: 115 :: tail_).
  by rewrite taken_app.
Qed.

(** A match of the range pattern shows the range shape, and likewise for
    the other pattern. *)
Lemma range_match_shape s mt :
  re_match size_range_re s = Some mt ->
  exists low high,
    is_numeral low /\ is_numeral high
    /\ s = low ++ utf8 "-" ++ high ++ after mt
    /\ group 1 (groups mt) = Some low /\ group 2 (groups mt) = Some high.
Proof.
  unfold re_match. destruct (match_here size_range_re None s) as [st|] eqn:Hm;
    [|discriminate].
  intros [= <-]. simpl.
  apply m_sound in Hm as (st' & Hm & [= ->]).
  unfold size_range_re, cat in Hm; cbn [fold_right] in Hm.
  inv_matches. cbn [rest prev caps] in *. subst s.
  caps_chain. cbn [group Nat.eqb]. rest_chain.
  match goal with
  | H1 : is_decimal ?l = true, H2 : forallb is_decimal ?low = true,
    H3 : is_decimal ?h = true, H4 : forallb is_decimal ?high = true,
    H5 : (ch "-" =? ?d) = true
    |- context [?l :: ?low ++ ?d :: ?h :: ?high ++ _] =>
    exists (l :: low), (h :: high); apply N.eqb_eq in H5; subst d;
    repeat split; try done;
    try (simpl; by rewrite ?H1, ?H2, ?H3, ?H4);
    by rewrite !app_comm_cons, !taken_app
  end.
Qed.

Lemma plus_match_shape s mt :
  re_match size_plus_re s = Some mt ->
  exists n,
    is_numeral n /\ s = n ++ utf8 "+ employees" ++ after mt
    /\ group 1 (groups mt) = Some n.
Proof.
  unfold re_match. destruct (match_here size_plus_re None s) as [st|] eqn:Hm;
    [|discriminate].
  intros [= <-]. simpl.
  apply m_sound in Hm as (st' & Hm & [= ->]).
  unfold size_plus_re, cat in Hm; cbn [fold_right lits] in Hm.
  inv_matches. cbn [rest prev caps] in *. subst s.
  caps_chain. cbn [group Nat.eqb]. rest_chain.
  repeat match goal with
         | H : (ch _ =? _) = true |- _ => apply N.eqb_eq in H; subst
         end.
  match goal with
  | H1 : is_decimal ?l = true, H2 : forallb is_decimal ?low = true
    |- context [?l :: ?low ++ _] =>
    exists (l :: low); repeat split; try done;
    try (simpl; by rewrite ?H1, ?H2);
    by rewrite !app_comm_cons, !taken_app
  end.
Qed.

(** A run of decimal digits followed by another character can be read in
    one way only. *)
Lemma run_unique (ds1 ds2 : str) c1 c2 r1 r2 :
  forallb is_decimal ds1 = true -> forallb is_decimal ds2 = true ->
  is_decimal c1 = false -> is_decimal c2 = false ->
  ds1 ++ c1 :: r1 = ds2 ++ c2 :: r2 -> ds1 = ds2 /\ c1 = c2 /\ r1 = r2.
Proof.
  revert ds2. induction ds1 as [|d ds1 IH]; intros [|e ds2] H1 H2 Hc1 Hc2 E;
    simpl in *.
  - by injection E as -> ->.
  - injection E as -> _. apply andb_true_iff in H2 as [H2 _]. congruence.
  - injection E as -> _. apply andb_true_iff in H1 as [H1 _]. congruence.
  - injection E as -> E. apply andb_true_iff in H1 as [_ H1].
    apply andb_true_iff in H2 as [_ H2].
    destruct (IH ds2 H1 H2 Hc1 Hc2 E) as (-> & -> & ->). done.
Qed.

Lemma re_match_of_here r s st :
  match_here r None s = Some st ->
  re_match r s = Some (Found [] (taken s (rest st)) (rest st) (caps st)).
Proof. unfold re_match. by intros ->. Qed.

(** C4, as amended.  [parse_company_size] reads the start of the label
    only.  A label that begins with [low-high], two runs of decimal digits
    of no more digits than [int] reads, gives the floor of the mean of
    [low] and [high], whatever follows the digits of [high]; the mean lies
    between them when [low] is not above [high].  A label that begins
    with [N+ employees] gives [N], whatever follows.  A label that begins
    in neither way gives [None]. *)
Theorem parse_company_size_midpoint (low high n tail_ : str) :
  is_numeral low -> is_numeral high -> is_numeral n ->
  int_sized low -> int_sized high -> int_sized n ->
  match tail_ with c :: _ => is_decimal c = false | [] => True end ->
  let lo := Z.of_N (numeral low) in
  let hi := Z.of_N (numeral high) in
  parse_company_size (low ++ utf8 "-" ++ high ++ tail_)
  = Ok (Some ((lo + hi) / 2)%Z)
  /\ ((lo <= hi)%Z -> (lo <= (lo + hi) / 2 <= hi)%Z)
  /\ (forall t, parse_company_size (n ++ utf8 "+ employees" ++ t)
                = Ok (Some (Z.of_N (numeral n))))
  /\ forall s, ~ range_shape s -> ~ plus_shape s -> parse_company_size s = Ok None.
Proof.
  intros Hl Hh Hn Sl Sh Sn Ht lo hi. split; [|split; [|split]].
  - unfold parse_company_size.
    destruct (match_range None low high tail_ Hl Hh Ht) as [pv' Hm].
    rewrite (re_match_of_here _ _ _ Hm). cbn [groups caps group Nat.eqb py_int_opt].
    destruct Hl as [Hl1 Hl2], Hh as [Hh1 Hh2].
    by rewrite (py_int_decimal low Hl1 Hl2 Sl), (py_int_decimal high Hh1 Hh2 Sh).
  - intros Hle. split.
    + apply Z.div_le_lower_bound; lia.
    + apply Z.div_le_upper_bound; lia.
  - intros t. unfold parse_company_size.
    destruct (re_match size_range_re (n ++ utf8 "+ employees" ++ t))
      as [mt|] eqn:Hr.
    + exfalso. apply range_match_shape in Hr
        as (l & h & [_ Hl2] & _ & E & _). destruct Hn as [_ Hn2].
      change (utf8 "+ employees" ++ t) with (43 :: utf8 " employees" ++ t) in E.
      change (utf8 "-" ++ h ++ after mt) with (45 :: h ++ after mt) in E.
      by destruct (run_unique n l 43 45 _ _ Hn2 Hl2 eq_refl eq_refl E)
        as (_ & ? & _).
    + destruct (match_plus None n t Hn) as [pv' Hm].
      rewrite (re_match_of_here _ _ _ Hm). cbn [groups caps group Nat.eqb py_int_opt].
      destruct Hn as [Hn1 Hn2]. by rewrite (py_int_decimal n Hn1 Hn2 Sn).
  - intros s Hr Hp. unfold parse_company_size.
    destruct (re_match size_range_re s) as [mt|] eqn:Er.
    { exfalso. apply Hr. apply range_match_shape in Er
        as (l & h & ? & ? & ? & _). by exists l, h, (after mt). }
    destruct (re_match size_plus_re s) as [mt|] eqn:Ep; [|done].
    exfalso. apply Hp. apply plus_match_shape in Ep as (m0 & ? & ? & _).
    by exists m0, (after mt).
Qed.

(** C1, at the failing inputs.  [parse_founded_year] passes any text that
    is not blank to [int], so it raises on every text that, trimmed,
    begins with a character that is neither a decimal digit nor a sign,
    ["circa 2000"] among them; and [parse_currency_field] passes a lone
    point to [float]. *)
Theorem parse_founded_year_raises :
  (forall (s : str) c t,
     strip s = c :: t ->
     is_decimal c = false -> c <> ch "-" -> c <> ch "+" ->
     parse_founded_year s = Raise ValueError)
  /\ parse_founded_year (utf8 "circa 2000") = Raise ValueError
  /\ parse_currency_field (utf8 "$.M") = Raise ValueError.
Proof.
  split; [|split; reflexivity].
  intros s c t Hs Hc Hm Hp. unfold parse_founded_year, py_int.
  unfold strip in *. rewrite strip_by_idem, Hs.
  apply N.eqb_neq in Hm, Hp. change (ch "-") with 45 in Hm.
  change (ch "+") with 43 in Hp. rewrite Hm, Hp. cbn [int_digits].
  unfold is_decimal in Hc. destruct (decimal_value c); [done|].
  by rewrite andb_false_r.
Qed.

End StartupsFacts.

(** ** The companies cleaner *)

Section CompaniesFacts.
Context {U : UnicodeTables}.
Import CompaniesCleaner.

(** *** Scanning *)

Lemma find_loop_sound r : forall s pv skip t cs,
  In (t, cs) (find_loop r pv s skip) ->
  exists pv' s' st, match_here r pv' s' = Some st
                    /\ t = taken s' (rest st) /\ cs = caps st.
Proof.
  induction s as [|c s IH]; intros pv skip t cs H; simpl in H.
  - destruct skip; [|done].
    destruct (match_here r pv []) as [st|] eqn:E; [|done].
    destruct H as [[= <- <-]|[]]. exists pv, [], st.
    unfold taken. by rewrite firstn_nil.
  - destruct skip as [|n]; [|by eapply IH].
    destruct (match_here r pv (c :: s)) as [st|] eqn:E; [|by eapply IH].
    destruct H as [[= <- <-]|H]; [|by eapply IH].
    by exists pv, (c :: s), st.
Qed.

(** With no match at any position, [re.findall] finds nothing, and
    conversely. *)
Lemma find_loop_nil r : forall s pv,
  find_loop r pv s 0 = [] <->
  forall pre t, s = pre ++ t -> match_here r (after_run pv pre) t = None.
Proof.
  induction s as [|c s IH]; intros pv; simpl.
  - split.
    + intros H pre t Hs. symmetry in Hs. apply app_eq_nil in Hs as [-> ->].
      simpl. by destruct (match_here r pv []).
    + intros H. pose proof (H [] [] eq_refl) as H0. simpl in H0. by rewrite H0.
  - split.
    + intros H pre t Hs.
      destruct (match_here r pv (c :: s)) eqn:H0; [discriminate|].
      destruct pre as [|c' pre]; simpl in Hs.
      * subst t. exact H0.
      * injection Hs as <- ->. simpl. by apply (proj1 (IH (Some c))).
    + intros H. pose proof (H [] (c :: s) eq_refl) as H0. simpl in H0.
      rewrite H0. apply IH. intros pre t ->. exact (H (c :: pre) t eq_refl).
Qed.

(** *** Years *)

Lemma year_match pv s st :
  match_here year_re pv s = Some st ->
  exists a b c d,
    s = a :: b :: c :: d :: rest st
    /\ is_decimal a = true /\ is_decimal b = true
    /\ is_decimal c = true /\ is_decimal d = true
    /\ caps st = [(1%nat, [a; b; c; d])].
Proof.
  intros Hm. apply m_sound in Hm as (st' & Hm & [= ->]).
  unfold year_re, cat in Hm; cbn [fold_right] in Hm.
  inv_matches. cbn [rest prev caps] in *. subst s.
  caps_chain. rest_chain.
  match goal with
  | |- context [taken (?a :: ?b :: ?c :: ?d :: ?r) ?r] =>
    exists a, b, c, d;
    change (a :: b :: c :: d :: r) with ([a; b; c; d] ++ r);
    rewrite taken_app
  end.
  by repeat split.
Qed.

Lemma year_match_complete pv a b c d post :
  is_decimal a = true -> is_decimal b = true ->
  is_decimal c = true -> is_decimal d = true ->
  match_here year_re pv (a :: b :: c :: d :: post) <> None.
Proof.
  intros Ha Hb Hc Hd. unfold match_here, year_re, cat. simpl.
  by rewrite Ha, Hb, Hc, Hd.
Qed.

Lemma years_nil_iff s : re_findall1 year_re s = [] <-> ~ has_four_digits s.
Proof.
  unfold re_findall1. split.
  - intros H (pre & a & b & c & d & post & -> & Ha & Hb & Hc & Hd).
    apply map_eq_nil in H.
    apply (year_match_complete (after_run None pre) a b c d post); try done.
    by apply (proj1 (find_loop_nil _ _ _) H pre).
  - intros H. assert (find_loop year_re None s 0 = []) as ->; [|done].
    apply find_loop_nil. intros pre t ->.
    destruct (match_here year_re (after_run None pre) t) as [st|] eqn:E; [|done].
    exfalso. apply H. apply year_match in E as (a & b & c & d & -> & ? & ? & ? & ? & _).
    by exists pre, a, b, c, d, (rest st).
Qed.

Lemma year_tokens s t :
  In t (re_findall1 year_re s) ->
  length t = 4%nat /\ forallb is_decimal t = true.
Proof.
  unfold re_findall1. rewrite in_map_iff. intros ([w cs] & <- & Hin).
  apply find_loop_sound in Hin as (pv' & s' & st & Hm & _ & ->).
  apply year_match in Hm as (a & b & c & d & _ & Ha & Hb & Hc & Hd & ->).
  simpl. by rewrite Ha, Hb, Hc, Hd.
Qed.

Lemma map_result_ok {A B} (f : A -> result B) (g : A -> B) (l : list A) :
  (forall a, In a l -> f a = Ok (g a)) -> map_result f l = Ok (map g l).
Proof.
  induction l as [|a l IH]; intros H; simpl; [done|].
  rewrite (H a) by (by left). simpl. rewrite IH; [done|].
  intros b Hb. apply H. by right.
Qed.

Lemma py_min_spec y ys :
  In (py_min y ys) (y :: ys) /\ Forall (Z.le (py_min y ys)) (y :: ys).
Proof.
  unfold py_min. revert y. induction ys as [|z ys IH]; intros y; simpl.
  - split; [by left|]. constructor; [lia|constructor].
  - destruct (IH (Z.min y z)) as [Hin Hall]. split.
    + destruct Hin as [Hin|Hin]; [|by right; right].
      rewrite <- Hin. destruct (Z.min_spec y z) as [[_ ->]|[_ ->]];
        [by left | by right; left].
    + inversion Hall as [|? ? Hm Hrest]; subst.
      constructor; [lia|]. constructor; [lia|exact Hrest].
Qed.

(** [parse_year_field] never raises: it gives the least year of the text,
    or [None] when there is none. *)
Lemma parse_year_field_eq s :
  parse_year_field s
  = Ok (match years_of s with
        | [] => None
        | y :: ys => Some (py_min y ys)
        end).
Proof.
  unfold parse_year_field, years_of.
  destruct s as [|c s]; [done|].
  rewrite (map_result_ok py_int (fun t => Z.of_N (numeral t))).
  - by destruct (re_findall1 year_re (c :: s)).
  - intros t Ht. apply year_tokens in Ht as [Hl Hd].
    apply py_int_decimal; [by destruct t|exact Hd|].
    unfold int_sized, max_str_digits. rewrite Hl. lia.
Qed.

(** [re.findall] passes over the characters of a match. *)
Lemma find_loop_pass r : forall s n pv,
  (n <= length s)%nat ->
  find_loop r pv s n
  = find_loop r (after_run pv (firstn n s)) (skipn n s) 0.
Proof.
  induction s as [|c s IH]; intros n pv Hn; simpl in Hn.
  - by replace n with 0%nat by lia.
  - destruct n as [|n]; [done|]. simpl. apply IH. lia.
Qed.

Lemma year_groups_cons a (s : str) :
  year_groups (a :: s)
  = match s with
    | b :: c :: d :: post =>
      if is_decimal a && is_decimal b && is_decimal c && is_decimal d
      then [a; b; c; d] :: year_groups post
      else year_groups s
    | _ => year_groups s
    end.
Proof. by destruct s as [|b [|c [|d post]]]. Qed.

(** The matches of [\d{4}] are the groups of four digits read from the
    left. *)
Lemma findall_year_groups : forall n (s : str) pv,
  (length s <= n)%nat ->
  map (fun mt => match group 1 (snd mt) with Some t => t | None => [] end)
      (find_loop year_re pv s 0)
  = year_groups s.
Proof.
  induction n as [|n IH]; intros s pv Hn.
  - destruct s; [|simpl in Hn; lia]. by cbn.
  - destruct s as [|a s]; [by cbn|]. cbn [length] in Hn.
    rewrite year_groups_cons. cbn [find_loop].
    destruct (match_here year_re pv (a :: s)) as [st|] eqn:E.
    + apply year_match in E as (a' & b & c & d & Es & Ha & Hb & Hc & Hd & Ec).
      injection Es as <- ->. rewrite Ha, Hb, Hc, Hd, Ec. cbn [andb map snd group Nat.eqb].
      f_equal. cbn [length].
      replace (pred (S (S (S (S (length (rest st))))) - length (rest st)))
        with 3%nat by lia.
      rewrite find_loop_pass by (cbn [app length]; lia).
      cbn [app skipn]. apply IH. cbn [length] in Hn. lia.
    + assert (map (fun mt => match group 1 (snd mt) with
                             | Some t => t | None => [] end)
                  (find_loop year_re (Some a) s 0) = year_groups s) as ->
        by (apply IH; lia).
      destruct s as [|b [|c [|d post]]]; try done.
      destruct (is_decimal a && is_decimal b && is_decimal c && is_decimal d)
        eqn:Hall; [|done].
      apply andb_true_iff in Hall as [[[Ha Hb]%andb_true_iff Hc]%andb_true_iff Hd].
      by destruct (year_match_complete pv a b c d post Ha Hb Hc Hd).
Qed.

Lemma years_of_groups (s : str) :
  years_of s = map (fun t => Z.of_N (numeral t)) (year_groups s).
Proof.
  unfold years_of, re_findall1. by rewrite (findall_year_groups (length s)).
Qed.


(** C5, at the failing inputs.  [parse_year_field] takes for a year every
    group of four decimal digits it meets from the left, also at the start
    of a longer number, and returns the least of them; it returns [None]
    exactly when no four digits stand in a row.  So a text with the year
    [2015] and the number [12345] gives 1234, although its only 4-digit
    token is [2015].  And [clean_founded] leaves the parenthesized part
    of a qualifier when it has a line feed in it, so that the year in it
    is read.  On the specification's example the result is 2015. *)
Theorem founded_year_reads_digit_groups :
  (forall value : str,
     parse_year_field value
     = Ok (match map (fun t => Z.of_N (numeral t)) (year_groups value) with
           | [] => None
           | y :: ys => Some (py_min y ys)
           end))
  /\ (forall value : str,
        parse_year_field value = Ok None <-> ~ has_four_digits value)
  /\ (four_digit_tokens Samples.long_number_text = [utf8 "2015"]
      /\ clean_founded Samples.long_number_text = Samples.long_number_text
      /\ year_groups Samples.long_number_text = [utf8 "2015"; utf8 "1234"]
      /\ parse_year_field (clean_founded Samples.long_number_text)
         = Ok (Some 1234%Z))
  /\ (clean_founded Samples.two_line_qualifier
      = utf8 "2015;  (" ++ 10 :: utf8 "2010)"
      /\ parse_year_field (clean_founded Samples.two_line_qualifier)
         = Ok (Some 2010%Z))
  /\ parse_year_field (clean_founded (utf8 "Founded: 2015; 9 years ago (2015)"))
     = Ok (Some 2015%Z).
Proof.
  assert (forall value : str,
    parse_year_field value
    = Ok (match map (fun t => Z.of_N (numeral t)) (year_groups value) with
          | [] => None
          | y :: ys => Some (py_min y ys)
          end)) as Hall.
  { intros value. by rewrite parse_year_field_eq, years_of_groups. }
  split; [exact Hall|]. split; [|repeat split; reflexivity].
  intros value. rewrite parse_year_field_eq. unfold years_of.
  rewrite <- years_nil_iff. split.
  - destruct (re_findall1 year_re value); [done|discriminate].
  - by intros ->.
Qed.

(** *** Headquarters *)

Lemma after_close_split t t' :
  after_close t = Some t' ->
  exists mid, t = mid ++ 93 :: t' /\ ~ In 10 mid /\ ~ In 93 mid.
Proof.
  revert t'. induction t as [|c t IH]; intros t' H; simpl in H; [done|].
  destruct (c =? 93) eqn:E1.
  - injection H as <-. apply N.eqb_eq in E1 as ->. exists [].
    split; [done|]. split; intros [].
  - destruct (c =? 10) eqn:E2; [done|].
    destruct (IH _ H) as (mid & -> & H1 & H2).
    apply N.eqb_neq in E1, E2.
    exists (c :: mid). split; [done|]. split; intros [?|?]; congruence.
Qed.

Lemma after_close_none mid post :
  after_close (mid ++ 93 :: post) = None -> In 10 mid.
Proof.
  induction mid as [|c mid IH]; simpl; [done|].
  destruct (c =? 93); [done|].
  destruct (c =? 10) eqn:E; [apply N.eqb_eq in E as ->; by left|].
  intros H. right. by apply IH.
Qed.

(** The bracket pattern at a position: an opening bracket closed on its
    line, read up to the first closing bracket. *)
Lemma bracket_match pv s :
  match_here bracket_re pv s
  = match s with
    | c :: t =>
      if c =? 91 then option_map (fun t' => MState (Some 93) t' []) (after_close t)
      else None
    | [] => None
    end.
Proof.
  unfold match_here, bracket_re, cat, lit. cbn [fold_right m rest prev caps].
  destruct s as [|c t]; [done|].
  change (ch "[") with 91. change (ch "]") with 93.
  rewrite (N.eqb_sym 91 c). destruct (c =? 91); [|done].
  generalize (Some c). induction t as [|x t IH]; intros pv0; [done|].
  cbn [star_loop after_close]. unfold is_dot at 1. rewrite (N.eqb_sym 93 x).
  destruct (x =? 93) eqn:E1.
  - apply N.eqb_eq in E1 as ->. done.
  - destruct (x =? 10) eqn:E2; cbn [negb]; [done|]. apply IH.
Qed.

Lemma span_free_suffix a s : span_free (a ++ s) = true -> span_free s = true.
Proof.
  induction a as [|c a IH]; simpl; [done|].
  intros H. apply andb_true_iff in H as [_ H]. by apply IH.
Qed.

Lemma after_close_prefix m b t :
  after_close m = Some t -> after_close (m ++ b) = Some (t ++ b).
Proof.
  induction m as [|c m IH]; simpl; [done|].
  destruct (c =? 93); [by intros [= ->]|]. by destruct (c =? 10).
Qed.

Lemma span_free_prefix m b : span_free (m ++ b) = true -> span_free m = true.
Proof.
  induction m as [|c m IH]; simpl; [done|].
  intros H. apply andb_true_iff in H as [H1 H2]. rewrite (IH H2), andb_true_r.
  destruct (c =? 91); [|done].
  destruct (after_close m) as [t|] eqn:E; [|done].
  by rewrite (after_close_prefix _ b _ E) in H1.
Qed.

Lemma span_free_strip p s : span_free s = true -> span_free (strip_by p s) = true.
Proof.
  intros H. destruct (strip_by_infix p s) as (a & b & E). rewrite E in H.
  apply span_free_suffix in H. by apply span_free_prefix in H.
Qed.

Lemma span_free_sound s : span_free s = true -> no_bracket_span s.
Proof.
  intros H pre mid post ->. apply span_free_suffix in H.
  change (utf8 "[" ++ mid ++ utf8 "]" ++ post) with (91 :: mid ++ 93 :: post) in H.
  simpl in H. apply andb_true_iff in H as [H _].
  destruct (after_close (mid ++ 93 :: post)) eqn:E; [done|].
  by apply after_close_none in E.
Qed.

(** Removing the annotations leaves a line without a closing bracket as
    it is up to its end. *)
Lemma sub_bracket_close : forall t pv,
  after_close t = None -> after_close (sub_loop bracket_re [] pv t 0) = None.
Proof.
  induction t as [|x t IH]; intros pv H.
  - cbn [sub_loop]. by rewrite bracket_match.
  - cbn [sub_loop]. rewrite bracket_match. simpl in H.
    destruct (x =? 93) eqn:E1; [done|].
    destruct (x =? 91) eqn:E2.
    + apply N.eqb_eq in E2 as ->. simpl in H. rewrite H. simpl.
      by apply IH.
    + simpl. rewrite E1. destruct (x =? 10); [done|]. by apply IH.
Qed.

Lemma sub_bracket_span_free n : forall s pv,
  (length s <= n)%nat -> span_free (sub_loop bracket_re [] pv s 0) = true.
Proof.
  induction n as [|n IH]; intros s pv Hn.
  - destruct s; [|simpl in Hn; lia]. cbn [sub_loop]. by rewrite bracket_match.
  - destruct s as [|c t]; [cbn [sub_loop]; by rewrite bracket_match|].
    simpl in Hn. cbn [sub_loop]. rewrite bracket_match.
    destruct (c =? 91) eqn:E.
    + destruct (after_close t) as [t'|] eqn:Ec; cbn [option_map rest].
      * destruct (after_close_split _ _ Ec) as (mid & -> & _).
        assert (Nat.sub (length (c :: mid ++ 93 :: t')) (length t')
                = S (S (length mid))) as ->
          by (cbn [length]; rewrite length_app; cbn [length]; lia).
        cbn [app]. rewrite sub_loop_skip by (rewrite length_app; simpl; lia).
        match goal with
        | |- context [skipn ?k ?l] => assert (skipn k l = t') as ->
        end.
        { change (S (length mid)) with (1 + length mid)%nat.
          by rewrite Nat.add_comm, <- drop_drop, drop_app_length. }
        apply IH. rewrite length_app in Hn. simpl in Hn. lia.
      * cbn [span_free]. rewrite E.
        rewrite (sub_bracket_close t (Some c) Ec). simpl.
        apply IH. lia.
    + cbn [span_free]. rewrite E. simpl. apply IH. lia.
Qed.

(** A match of the [U.S.] pattern reads these four characters. *)
Lemma us_match pv s st :
  match_here us_re pv s = Some st -> s = utf8 "U.S." ++ rest st.
Proof.
  intros Hm. apply m_sound in Hm as (st' & Hm & [= ->]).
  unfold us_re, cat in Hm; cbn [fold_right] in Hm.
  inv_matches. cbn [rest prev caps] in *. subst s. rest_chain.
  repeat match goal with
         | H : (ch _ =? _) = true |- _ => apply N.eqb_eq in H; subst
         end.
  reflexivity.
Qed.

Lemma marks_sub_us : forall s pv skip,
  (skip <= length s)%nat ->
  marks (sub_loop us_re (utf8 "US") pv s skip) = marks (skipn skip s).
Proof.
  induction s as [|c t IH]; intros pv skip Hs.
  - simpl in Hs. replace skip with 0%nat by lia. cbn [sub_loop skipn].
    destruct (match_here us_re pv []) as [st|] eqn:E; [|done].
    by apply us_match in E.
  - destruct skip as [|n]; cbn [sub_loop skipn].
    + destruct (match_here us_re pv (c :: t)) as [st|] eqn:E.
      * apply us_match in E. change (utf8 "U.S.") with [85; 46; 83; 46] in E.
        injection E as -> ->.
        assert (Nat.sub (length (85 :: 46 :: 83 :: 46 :: rest st)) (length (rest st))
                = 4%nat) as -> by (cbn [length]; lia).
        match goal with
        | |- marks (_ ++ ?X) = _ =>
          change (marks X = marks (skipn 3 (46 :: 83 :: 46 :: rest st)))
        end.
        apply IH. simpl. lia.
      * pose proof (IH (Some c) 0%nat (Nat.le_0_l _)) as H0.
        cbn [skipn] in H0. unfold marks in *. simpl. by rewrite H0.
    + apply IH. simpl in Hs. lia.
Qed.

Lemma close_marks t :
  match after_close (marks t) with Some _ => true | None => false end
  = match after_close t with Some _ => true | None => false end.
Proof.
  induction t as [|c t IH]; [done|]. unfold marks in *. simpl.
  destruct (c =? 91) eqn:E1; simpl.
  - apply N.eqb_eq in E1 as ->. simpl. exact IH.
  - destruct (c =? 93) eqn:E2; simpl.
    + by rewrite E2.
    + destruct (c =? 10) eqn:E3; simpl.
      * by rewrite E2, E3.
      * exact IH.
Qed.

Lemma span_free_marks s : span_free (marks s) = span_free s.
Proof.
  induction s as [|c t IH]; [done|].
  pose proof (close_marks t) as Hc. unfold marks in *. simpl.
  destruct (c =? 91) eqn:E1; simpl.
  - rewrite E1, IH. f_equal.
    destruct (after_close (List.filter _ t)), (after_close t); done.
  - destruct (c =? 93) eqn:E2; simpl; [by rewrite E1, IH|].
    destruct (c =? 10) eqn:E3; simpl; [by rewrite E1, IH|]. exact IH.
Qed.

Lemma span_free_sub_us s :
  span_free (re_sub us_re (utf8 "US") s) = span_free s.
Proof.
  rewrite <- span_free_marks. unfold re_sub.
  rewrite (marks_sub_us s None 0) by lia. apply span_free_marks.
Qed.

(** Without a capital [U] nothing is rewritten. *)
Lemma sub_us_id repl : forall s pv,
  ~ In (ch "U") s -> sub_loop us_re repl pv s 0 = s.
Proof.
  induction s as [|c t IH]; intros pv Hn; cbn [sub_loop].
  - destruct (match_here us_re pv []) as [st|] eqn:E; [|done].
    by apply us_match in E.
  - destruct (match_here us_re pv (c :: t)) as [st|] eqn:E.
    + apply us_match in E. injection E as -> _. exfalso. apply Hn. by left.
    + f_equal. apply IH. intros H. apply Hn. by right.
Qed.

Lemma sub_bracket_id : forall s pv,
  ~ In (ch "[") s -> sub_loop bracket_re [] pv s 0 = s.
Proof.
  induction s as [|c t IH]; intros pv Hn; cbn [sub_loop]; rewrite bracket_match.
  - done.
  - destruct (c =? 91) eqn:E.
    + apply N.eqb_eq in E as ->. exfalso. apply Hn. by left.
    + f_equal. apply IH. intros H. apply Hn. by right.
Qed.

(** Deleting matches adds no character. *)
Lemma sub_nil_incl r c : forall s pv skip,
  In c (sub_loop r [] pv s skip) -> In c s.
Proof.
  induction s as [|x t IH]; intros pv skip H; cbn [sub_loop] in H.
  - destruct skip; [|done]. by destruct (match_here r pv []).
  - destruct skip as [|n]; [|right; by eapply IH].
    destruct (match_here r pv (x :: t)) as [st|].
    + destruct (Nat.sub _ _); simpl in H.
      * destruct H as [->|H]; [by left | right; by eapply IH].
      * right. by eapply IH.
    + destruct H as [->|H]; [by left | right; by eapply IH].
Qed.

Lemma strip_trimmed s : trimmed (strip s).
Proof. split; [apply strip_by_head | apply strip_by_last]. Qed.

Lemma clean_headquarters_span_free value :
  span_free (clean_headquarters value) = true.
Proof.
  unfold clean_headquarters. destruct value as [|c t]; [done|].
  apply span_free_strip. unfold normalize_location.
  pose proof (sub_bracket_span_free _ (c :: t) None (le_n _)) as H.
  fold (re_sub bracket_re [] (c :: t)) in H.
  destruct (re_sub bracket_re [] (c :: t)) as [|c' t'] eqn:E; [done|].
  apply span_free_strip. by rewrite span_free_sub_us.
Qed.

(** C3, as amended.  For every headquarters string, the cleaned string has
    no bracketed annotation left and no white space at either end; a
    string without a capital [U] is changed in no other way (the [U.S.]
    pattern is matched as written, so [u.s.] stays), and one that has no
    opening bracket either is only trimmed. *)
Theorem clean_headquarters_annotations_trimmed (value : str) :
  let cleaned := clean_headquarters value in
  no_bracket_span cleaned
  /\ trimmed cleaned
  /\ (~ In (ch "U") value -> cleaned = strip (re_sub bracket_re [] value))
  /\ (~ In (ch "U") value -> ~ In (ch "[") value -> cleaned = strip value)
  /\ clean_headquarters (utf8 "u.s.") = utf8 "u.s.".
Proof.
  intros cleaned.
  assert (~ In (ch "U") value -> cleaned = strip (re_sub bracket_re [] value))
    as Hu.
  { intros Hn. unfold cleaned, clean_headquarters, normalize_location.
    destruct value as [|c t]; [done|].
    destruct (re_sub bracket_re [] (c :: t)) as [|c' t'] eqn:E; [done|].
    unfold re_sub at 1. rewrite sub_us_id.
    - apply strip_by_idem.
    - rewrite <- E. intros H. apply Hn. unfold re_sub in H.
      exact (sub_nil_incl _ _ _ _ _ H). }
  split; [|split; [|split; [|split]]].
  - apply span_free_sound, clean_headquarters_span_free.
  - unfold cleaned, clean_headquarters. destruct value as [|c t]; [done|].
    apply strip_trimmed.
  - exact Hu.
  - intros H1 H2. rewrite (Hu H1). unfold re_sub. by rewrite sub_bracket_id.
  - reflexivity.
Qed.

(** *** Amounts *)

Lemma numeral_from_app acc (a b : str) :
  numeral_from acc (a ++ b) = numeral_from (numeral_from acc a) b.
Proof. unfold numeral_from. apply fold_left_app. Qed.

Lemma dec_digits_run ds : forall acc cnt tl_,
  forallb is_decimal ds = true ->
  match tl_ with c :: _ => is_decimal c = false | [] => True end ->
  dec_digits acc cnt (ds ++ tl_)
  = (numeral_from acc ds, cnt + N.of_nat (length ds), tl_).
Proof.
  induction ds as [|d ds IH]; intros acc cnt tl_ Hf Ht.
  - simpl. rewrite N.add_0_r. destruct tl_ as [|c t]; [done|]. simpl.
    unfold is_decimal in Ht. by destruct (decimal_value c).
  - simpl in Hf. apply andb_true_iff in Hf as [Hd Hf].
    cbn [app dec_digits]. unfold is_decimal in Hd. unfold numeral_from at 1.
    cbn [fold_left]. unfold digit_val at 2.
    destruct (decimal_value d) as [v|]; [|done].
    rewrite IH by done. unfold numeral_from. f_equal. f_equal.
    cbn [length]. lia.
Qed.

Lemma amount_py_float a x : amount_text a x -> py_float a = Ok x.
Proof.
  intros [ds [Hne Hd]|ds1 ds2 [Hne1 Hd1] [Hne2 Hd2]]; unfold py_float.
  - rewrite <- (app_nil_r ds) at 1. rewrite dec_digits_run by done.
    destruct ds; [done|]. cbn [length]. destruct (_ =? 0) eqn:E; [|done].
    apply N.eqb_eq in E. lia.
  - change (utf8 "." ++ ds2) with (46 :: ds2).
    rewrite dec_digits_run by done. change (46 =? 46) with true. cbv iota.
    rewrite <- (app_nil_r ds2) at 1. rewrite dec_digits_run by done.
    destruct ds2 as [|d2 ds2]; [done|]. cbn [length].
    destruct ((0 + N.of_nat (length ds1) =? 0) && _) eqn:E.
    + apply andb_true_iff in E as [_ E]. apply N.eqb_eq in E. lia.
    + rewrite N.add_0_l. unfold numeral. by rewrite numeral_from_app.
Qed.

Lemma amount_chars a x :
  amount_text a x ->
  forallb is_amount_char a = true
  /\ exists c a', a = c :: a' /\ is_decimal c = true.
Proof.
  assert (forall ds, forallb is_decimal ds = true ->
            forallb is_amount_char ds = true) as Hd.
  { intros ds H. rewrite forallb_forall in *. intros c Hc.
    unfold is_amount_char. by rewrite (H c Hc). }
  intros [ds [Hne H]|ds1 ds2 [Hne1 H1] [Hne2 H2]].
  - split; [by apply Hd|]. destruct ds as [|c ds]; [done|]. exists c, ds.
    simpl in H. by apply andb_true_iff in H as [? _].
  - split.
    + rewrite forallb_app, (Hd _ H1). simpl. by rewrite (Hd _ H2).
    + destruct ds1 as [|c ds1]; [done|]. exists c, (ds1 ++ utf8 "." ++ ds2).
      simpl in H1. by apply andb_true_iff in H1 as [? _].
Qed.

Lemma is_amount_char_facts c :
  is_amount_char c = true ->
  is_space c = false /\ c <> 160 /\ c <> 44 /\ c <> 36.
Proof.
  unfold is_amount_char. intros H. apply orb_true_iff in H as [H|H].
  - split; [by apply is_decimal_not_space|].
    repeat split; intros ->; try by vm_compute in H.
    by pose proof (is_decimal_not_space 160 H).
  - apply N.eqb_eq in H as ->. by repeat split.
Qed.

Lemma replace_char_id o new : forall s,
  ~ In o s -> replace [o] new s = s.
Proof.
  unfold replace. induction s as [|c s IH]; intros H; [done|].
  cbn [replace_loop is_prefix].
  assert ((o =? c) = false) as ->.
  { apply N.eqb_neq. intros ->. apply H. by left. }
  simpl. f_equal. apply IH. intros Hin. apply H. by right.
Qed.

Lemma amount_not_in a x o :
  amount_text a x -> is_amount_char o = false -> ~ In o a.
Proof.
  intros Ha Ho Hin. apply amount_chars in Ha as [Hf _].
  rewrite forallb_forall in Hf. by rewrite (Hf o Hin) in Ho.
Qed.

Lemma currency_match pv a x u tl_ :
  amount_text a x -> u = ch "M" \/ u = ch "B" ->
  match_here StartupsCleaner.currency_re pv (ch "$" :: a ++ u :: tl_)
  = Some (MState (Some u) tl_ [(2%nat, [u]); (1%nat, a)]).
Proof.
  intros Ha Hu. destruct (amount_chars _ _ Ha) as (Hf & c & a' & -> & Hc).
  simpl in Hf. apply andb_true_iff in Hf as [Hc' Hf].
  unfold match_here, StartupsCleaner.currency_re, cat, plus, lit.
  cbn [fold_right m rest prev caps app]. rewrite N.eqb_refl.
  change (is_decimal c || (c =? ch ".")) with (is_amount_char c).
  change (fun c0 : N => is_decimal c0 || (c0 =? ch ".")) with is_amount_char.
  rewrite Hc'.
  apply star_loop_greedy; [exact Hf | by destruct Hu as [-> | ->] |].
  assert ((u =? ch "M") || (u =? ch "B") = true) as ->
    by (by destruct Hu as [-> | ->]).
  rewrite (taken_app [u] tl_ : taken (u :: tl_) tl_ = [u]).
  by rewrite (taken_app (c :: a') (u :: tl_)
              : taken (c :: a' ++ u :: tl_) (u :: tl_) = c :: a').
Qed.

Lemma strip_id_ends (c : N) (mid : str) (z : N) :
  is_space c = false -> is_space z = false ->
  strip (c :: mid ++ [z]) = c :: mid ++ [z].
Proof.
  intros Hc Hz. apply strip_by_id; [exact Hc|].
  change (c :: mid ++ [z]) with ((c :: mid) ++ [z]).
  rewrite rev_app_distr. exact Hz.
Qed.

Lemma parse_currency_field_amount a x u :
  amount_text a x -> u = ch "M" \/ u = ch "B" ->
  StartupsCleaner.parse_currency_field (ch "$" :: a ++ [u])
  = Ok (Some (if u =? ch "B" then fmul x (float_of_Z 1000) else x), Some [u]).
Proof.
  intros Ha Hu. unfold StartupsCleaner.parse_currency_field.
  rewrite strip_id_ends; [|done|by destruct Hu as [-> | ->]].
  unfold re_search. cbn [search_from]. rewrite (currency_match None a x u [] Ha Hu).
  cbn [groups caps group Nat.eqb py_float_opt]. rewrite (amount_py_float a x Ha).
  cbn [bind]. destruct Hu as [-> | ->]; reflexivity.
Qed.

Lemma amount_class3 (a : str) :
  forallb is_amount_char a = true ->
  forallb (fun c => is_decimal c || (c =? ch ".") || (c =? ch ",")) a = true.
Proof.
  rewrite !forallb_forall. intros H c Hc. specialize (H c Hc).
  unfold is_amount_char in H. change (ch ".") with 46. by rewrite H.
Qed.

(** The revenue pattern on [US$], an amount and what follows it. *)
Lemma revenue_match pv a x (suffix : str) :
  amount_text a x ->
  match suffix with c :: _ => is_amount_char c = false /\ c <> 44 | [] => True end ->
  forall st,
    (forall pv' cs,
       m (cat [Star true is_space;
               opt (Grp 2 (alt [ilits "billion"; ilits "million"; ilits "m";
                                ilits "b"]))])
         (MState pv' suffix cs) Some = Some (st pv' cs)) ->
    match_here revenue_re pv (utf8 "US$" ++ a ++ suffix)
    = Some (st (after_run None (utf8 "US$" ++ a)) [(1%nat, a)]).
Proof.
  intros Ha Hs st Hst. destruct (amount_chars _ _ Ha) as (Hf & c & a' & -> & Hc).
  pose proof (amount_class3 _ Hf) as Hf3.
  cbn [forallb] in Hf3. apply andb_true_iff in Hf3 as [Hc3 Hf3].
  unfold match_here, revenue_re, cat, opt.
  change (utf8 "US$" ++ (c :: a') ++ suffix)
    with (85 :: 83 :: 36 :: c :: a' ++ suffix).
  cbn [fold_right].
  apply m_cat_some, m_chr_some; [done|].
  apply m_cat_some, m_alt_some_l, m_chr_some; [done|].
  apply m_cat_some, m_chr_some; [done|].
  apply m_cat_some, m_grp_some, m_plus_some; [exact Hc3 | exact Hf3 | |].
  - destruct suffix as [|z suffix]; [done|]. destruct Hs as [H1 H2].
    unfold is_amount_char in H1. apply orb_false_iff in H1 as [-> H1].
    change (ch ".") with 46. rewrite H1. simpl. by apply N.eqb_neq.
  - cbn [rest prev caps].
    rewrite (taken_app (c :: a') suffix
             : taken (c :: a' ++ suffix) suffix = c :: a').
    unfold cat, opt in Hst. cbn [fold_right] in Hst. by rewrite Hst.
Qed.

Lemma search_from_here r pv s st :
  match_here r pv s = Some st ->
  search_from r pv s = Some (Found [] (taken s (rest st)) (rest st) (caps st)).
Proof. intros H. destruct s; simpl; by rewrite H. Qed.

Lemma parse_revenue_with a x (suffix : str) (u : option str) pvf :
  amount_text a x ->
  match suffix with c :: _ => is_amount_char c = false /\ c <> 44 | [] => True end ->
  ~ In 160 suffix ->
  match rev suffix with c :: _ => is_space c = false | [] => True end ->
  (forall pv' cs,
     m (cat [Star true is_space;
             opt (Grp 2 (alt [ilits "billion"; ilits "million"; ilits "m";
                              ilits "b"]))])
       (MState pv' suffix cs) Some
     = Some (MState (pvf pv') []
               (match u with Some t => (2%nat, t) :: cs | None => cs end))) ->
  parse_revenue (utf8 "US$" ++ a ++ suffix)
  = Ok (match u with
        | Some (c :: t) =>
          if mem_str (lower (c :: t)) [utf8 "billion"; utf8 "b"]
          then (Some (fmul x (float_of_Z 1000)), Some (utf8 "B"))
          else (Some x, Some (utf8 "M"))
        | _ => (Some x, Some (utf8 "M"))
        end).
Proof.
  intros Ha H1 H2 H3 Hst.
  pose proof (amount_chars _ _ Ha) as (Hf & c0 & a0 & Ea & Hc0).
  assert (forall o, is_amount_char o = false -> ~ In o a) as Hnot
    by (intros o; by apply amount_not_in with x).
  assert (strip (utf8 "US$" ++ a ++ suffix) = utf8 "US$" ++ a ++ suffix) as Hstrip.
  { apply strip_by_id; [done|]. rewrite !rev_app_distr.
    destruct (rev suffix) as [|z zs]; [|exact H3]. simpl.
    destruct (rev a) as [|z zs] eqn:E.
    - apply (f_equal (@rev N)) in E. rewrite rev_involutive in E. by subst a.
    - simpl. rewrite forallb_forall in Hf.
      assert (In z a) as Hz by (apply in_rev; rewrite E; by left).
      by destruct (is_amount_char_facts z (Hf z Hz)). }
  assert (replace [160] (utf8 " ") (utf8 "US$" ++ a ++ suffix)
          = utf8 "US$" ++ a ++ suffix) as Hrep.
  { apply replace_char_id. rewrite !in_app_iff. intros [H|[H|H]].
    - simpl in H. repeat destruct H as [H|H]; done.
    - destruct (is_amount_char 160) eqn:E.
      + by destruct (is_amount_char_facts 160 E) as (_ & ? & _).
      + exact (Hnot 160 E H).
    - by apply H2. }
  unfold parse_revenue. rewrite Hrep, Hstrip.
  change (utf8 "US$" ++ a ++ suffix) with (85 :: 83 :: 36 :: a ++ suffix) at 1 2.
  cbv iota. unfold re_search.
  rewrite (search_from_here _ _ _ _ (revenue_match None a x suffix Ha H1 _ Hst)).
  cbn [groups caps].
  assert (group 1 (match u with
                   | Some t => (2%nat, t) :: [(1%nat, a)]
                   | None => [(1%nat, a)]
                   end) = Some a) as -> by (by destruct u).
  cbn [option_map]. change (utf8 ",") with [44].
  rewrite (replace_char_id 44 [] a) by (by apply Hnot).
  rewrite (amount_py_float a x Ha).
  destruct u as [[|c t]|]; cbn [group Nat.eqb]; try reflexivity.
  repeat destruct (mem_str _ _); reflexivity.
Qed.

(** C2, as amended.  [parse_revenue] reads an amount after [US$] (the
    letter [U] is required): followed by the word [billion], with a blank
    before it, or by the letter [B], in small letters or in capitals, it
    is multiplied by 1000 and tagged ["B"]; followed in the same way by
    [million] or [M], or by nothing, it is tagged ["M"].
    [parse_currency_field] reads an amount after [$] that is directly
    followed by a capital [M] or [B], and multiplies by 1000 for [B].  A
    bare number gives [(None, None)] in both, so does [$4.5B] in
    [parse_revenue] and [US$12.3 billion] in [parse_currency_field]. *)
Theorem currency_amounts_in_millions (a : str) (x : float) :
  amount_text a x ->
  let thousand := fmul x (float_of_Z 1000) in
  (parse_revenue (utf8 "US$" ++ a ++ utf8 " billion")
     = Ok (Some thousand, Some (utf8 "B"))
   /\ parse_revenue (utf8 "US$" ++ a ++ utf8 "B") = Ok (Some thousand, Some (utf8 "B"))
   /\ parse_revenue (utf8 "US$" ++ a ++ utf8 " million")
      = Ok (Some x, Some (utf8 "M"))
   /\ parse_revenue (utf8 "US$" ++ a ++ utf8 "M") = Ok (Some x, Some (utf8 "M"))
   /\ parse_revenue (utf8 "US$" ++ a) = Ok (Some x, Some (utf8 "M")))
  /\ (parse_revenue (utf8 "US$" ++ a ++ utf8 " Billion")
       = Ok (Some thousand, Some (utf8 "B"))
      /\ parse_revenue (utf8 "US$" ++ a ++ utf8 " BILLION")
         = Ok (Some thousand, Some (utf8 "B"))
      /\ parse_revenue (utf8 "US$" ++ a ++ utf8 "b")
         = Ok (Some thousand, Some (utf8 "B"))
      /\ parse_revenue (utf8 "US$" ++ a ++ utf8 " Million")
         = Ok (Some x, Some (utf8 "M"))
      /\ parse_revenue (utf8 "US$" ++ a ++ utf8 " MILLION")
         = Ok (Some x, Some (utf8 "M"))
      /\ parse_revenue (utf8 "US$" ++ a ++ utf8 "m")
         = Ok (Some x, Some (utf8 "M")))
  /\ (StartupsCleaner.parse_currency_field (utf8 "$" ++ a ++ utf8 "B")
        = Ok (Some thousand, Some (utf8 "B"))
      /\ StartupsCleaner.parse_currency_field (utf8 "$" ++ a ++ utf8 "M")
         = Ok (Some x, Some (utf8 "M")))
  /\ (parse_revenue (utf8 "US$4.5 billion")
        = Ok (Some (float_of_Z 4500), Some (utf8 "B"))
      /\ parse_revenue (utf8 "US$12.3 billion")
         = Ok (Some (float_of_Z 12300), Some (utf8 "B"))
      /\ parse_revenue (utf8 "US$4M") = Ok (Some (float_of_Z 4), Some (utf8 "M"))
      /\ StartupsCleaner.parse_currency_field (utf8 "$4M")
         = Ok (Some (float_of_Z 4), Some (utf8 "M"))
      /\ StartupsCleaner.parse_currency_field (utf8 "US$4M")
         = Ok (Some (float_of_Z 4), Some (utf8 "M"))
      /\ StartupsCleaner.parse_currency_field (utf8 "$4.5B")
         = Ok (Some (float_of_Z 4500), Some (utf8 "B")))
  /\ (parse_revenue (utf8 "$4.5B") = Ok (None, None)
      /\ parse_revenue (utf8 "$4M") = Ok (None, None)
      /\ parse_revenue (utf8 "42") = Ok (None, None)
      /\ StartupsCleaner.parse_currency_field (utf8 "US$12.3 billion")
         = Ok (None, None)
      /\ StartupsCleaner.parse_currency_field (utf8 "42") = Ok (None, None)).
Proof.
  intros Ha thousand.
  assert (forall suffix : str, Forall (fun c => c <> 160) suffix ->
            ~ In 160 suffix) as Hno.
  { intros suffix Hs Hin. rewrite List.Forall_forall in Hs.
    exact (Hs 160 Hin eq_refl). }
  split; [|split; [|split; [|split]]].
  - repeat split.
    + apply (parse_revenue_with a x (utf8 " billion") (Some (utf8 "billion"))
               (fun _ => Some 110)); try done.
      apply Hno. by repeat constructor.
    + apply (parse_revenue_with a x (utf8 "B") (Some (utf8 "B"))
               (fun _ => Some 66)); try done.
      apply Hno. by repeat constructor.
    + apply (parse_revenue_with a x (utf8 " million") (Some (utf8 "million"))
               (fun _ => Some 110)); try done.
      apply Hno. by repeat constructor.
    + apply (parse_revenue_with a x (utf8 "M") (Some (utf8 "M"))
               (fun _ => Some 77)); try done.
      apply Hno. by repeat constructor.
    + rewrite <- (app_nil_r a) at 1.
      apply (parse_revenue_with a x [] None (fun pv => pv)); try done.
      by intros [].
  - repeat split.
    + apply (parse_revenue_with a x (utf8 " Billion") (Some (utf8 "Billion"))
               (fun _ => Some 110)); try done.
      apply Hno. by repeat constructor.
    + apply (parse_revenue_with a x (utf8 " BILLION") (Some (utf8 "BILLION"))
               (fun _ => Some 78)); try done.
      apply Hno. by repeat constructor.
    + apply (parse_revenue_with a x (utf8 "b") (Some (utf8 "b"))
               (fun _ => Some 98)); try done.
      apply Hno. by repeat constructor.
    + apply (parse_revenue_with a x (utf8 " Million") (Some (utf8 "Million"))
               (fun _ => Some 110)); try done.
      apply Hno. by repeat constructor.
    + apply (parse_revenue_with a x (utf8 " MILLION") (Some (utf8 "MILLION"))
               (fun _ => Some 78)); try done.
      apply Hno. by repeat constructor.
    + apply (parse_revenue_with a x (utf8 "m") (Some (utf8 "m"))
               (fun _ => Some 109)); try done.
      apply Hno. by repeat constructor.
  - split.
    + exact (parse_currency_field_amount a x (ch "B") Ha (or_intror eq_refl)).
    + exact (parse_currency_field_amount a x (ch "M") Ha (or_introl eq_refl)).
  - repeat split; vm_compute; reflexivity.
  - repeat split; vm_compute; reflexivity.
Qed.

End CompaniesFacts.

(** ** A list entry, worked out *)

Section ListEntry.
Context {U : UnicodeTables}.
Import WikiScraper.

(** *** Runs and marks *)

(** A non-empty end of a list ends as the list does. *)
Lemma suffix_last {A} (l1 l2 a : list A) z :
  l1 ++ l2 = a ++ [z] -> l2 <> [] -> exists l2', l2 = l2' ++ [z].
Proof.
  intros H Hne. destruct (exists_last Hne) as (l2' & z' & ->).
  rewrite app_assoc in H. apply app_inj_tail in H as [_ ->]. by exists l2'.
Qed.

(** A run of characters of a class followed by a marked character does
    not fit at the start of a text whose first stretch has no marked
    character and ends outside the class. *)
Lemma run_then_mark (P Q : char -> bool) (l : str) z (t ws : str) q r :
  P z = false -> forallb (fun c => negb (Q c)) (l ++ [z]) = true ->
  forallb P ws = true -> Q q = true ->
  (l ++ [z]) ++ t = ws ++ q :: r -> False.
Proof.
  intros Hz Hq Hws Hm H. apply app_eq_app in H as [w [[H1 H2]|[H1 H2]]].
  - destruct w as [|q' w].
    + rewrite app_nil_r in H1. rewrite <- H1, forallb_app in Hws.
      simpl in Hws. rewrite Hz in Hws. by destruct (forallb P l).
    + injection H2 as -> _. rewrite H1, forallb_app in Hq.
      simpl in Hq. rewrite Hm in Hq. by destruct (forallb _ ws).
  - rewrite H1, !forallb_app in Hws. simpl in Hws. rewrite Hz in Hws.
    by destruct (forallb P l).
Qed.

Lemma trimmed_ends (s : str) :
  s <> [] -> trimmed s ->
  (exists c s', s = c :: s' /\ is_space c = false)
  /\ (exists s' z, s = s' ++ [z] /\ is_space z = false).
Proof.
  intros Hne [H1 H2]. split.
  - destruct s as [|c s']; [done|]. by exists c, s'.
  - destruct (exists_last Hne) as (s' & z & ->). exists s', z.
    split; [done|]. by rewrite rev_app_distr in H2.
Qed.

(** *** The separator *)

Lemma no_dash_app (a b : str) :
  forallb (fun c => negb (is_dash c)) (a ++ b) = true ->
  forallb (fun c => negb (is_dash c)) b = true.
Proof. rewrite forallb_app. by intros [_ ?]%andb_true_iff. Qed.

(** No separator starts in a stretch without dash that ends with a
    character other than white space. *)
Lemma sep_none_before (left : str) z t pv :
  is_space z = false ->
  forallb (fun c => negb (is_dash c)) (left ++ [z]) = true ->
  forall l1 l2, left ++ [z] = l1 ++ l2 -> l2 <> [] ->
    match_here sep_re (after_run pv l1) (l2 ++ t) = None.
Proof.
  intros Hz Hd l1 l2 Hl Hne.
  destruct (suffix_last l1 l2 left z (eq_sym Hl) Hne) as [l2' ->].
  rewrite Hl in Hd. apply no_dash_app in Hd.
  destruct (match_here _ _ _) as [st|] eqn:E; [exfalso|done].
  apply m_sound in E as (st' & Hm & _).
  unfold sep_re, cat in Hm; simpl in Hm. inv_matches. simpl in *.
  match goal with
  | H1 : (l2' ++ [z]) ++ t = ?c :: ?ds ++ rest ?s1,
    H2 : rest ?s1 = ?d :: rest ?s2,
    Hc : is_space ?c = true, Hds : forallb is_space ?ds = true |- _ =>
    rewrite H2 in H1;
    apply (run_then_mark is_space is_dash l2' z t (c :: ds) d (rest s2));
      [exact Hz | exact Hd | by simpl; rewrite Hc, Hds | assumption | exact H1]
  end.
Qed.



(** *** The first separator of any line *)

Lemma leading_run (p : char -> bool) (s : str) :
  exists ws r, s = ws ++ r /\ forallb p ws = true
               /\ match r with c :: _ => p c = false | [] => True end.
Proof.
  induction s as [|c s (ws & r & E & Hw & Hr)]; [by exists [], []|].
  destruct (p c) eqn:Hc.
  - exists (c :: ws), r. cbn [forallb app]. by rewrite Hc, Hw, <- E.
  - by exists [], (c :: s).
Qed.

Lemma trailing_run (p : char -> bool) (s : str) :
  exists l ws, s = l ++ ws /\ forallb p ws = true
               /\ match rev l with c :: _ => p c = false | [] => True end.
Proof.
  destruct (leading_run p (rev s)) as (ws & r & E & Hw & Hr).
  exists (rev r), (rev ws). rewrite rev_involutive. split; [|split; [|done]].
  - rewrite <- rev_app_distr, <- E. by rewrite rev_involutive.
  - rewrite forallb_forall in *. intros c Hc. apply Hw. by apply in_rev.
Qed.

Lemma drop_while_all p (ws s : str) :
  forallb p ws = true -> drop_while p (ws ++ s) = drop_while p s.
Proof.
  induction ws as [|c ws IH]; [done|]. cbn [forallb app drop_while].
  intros [-> H]%andb_true_iff. by apply IH.
Qed.

Lemma strip_by_app_l p (ws s : str) :
  forallb p ws = true -> strip_by p (ws ++ s) = strip_by p s.
Proof.
  intros H. unfold strip_by, lstrip_by. by rewrite drop_while_all.
Qed.

Lemma strip_by_app_r p (s ws : str) :
  forallb p ws = true -> strip_by p (s ++ ws) = strip_by p s.
Proof.
  intros H. unfold strip_by, lstrip_by.
  assert (forall x : str, rstrip_by p (x ++ ws) = rstrip_by p x) as Hr.
  { intros x. unfold rstrip_by. f_equal. rewrite rev_app_distr.
    apply drop_while_all. rewrite forallb_forall in *. intros c Hc.
    apply H. by apply in_rev. }
  induction s as [|c s IH]; cbn [app drop_while].
  - rewrite <- (app_nil_r ws), drop_while_all by done. done.
  - destruct (p c); [exact IH|]. exact (Hr (c :: s)).
Qed.

Lemma is_dash_not_space d : is_dash d = true -> is_space d = false.
Proof.
  unfold is_dash. intros [H|H]%orb_true_iff; apply N.eqb_eq in H; by subst d.
Qed.

(** The search for the separator stops at the first dash that has white
    space on both sides, and takes the white space with it. *)
Lemma sep_search_split (text left : str) d (right : str) :
  splits_at text left d right ->
  exists f, re_search sep_re text = Some f
            /\ strip (before f) = strip left /\ strip (after f) = strip right.
Proof.
  intros (-> & Hd & (l & a & El & Ha) & (b & r & Er & Hb) & Hno).
  destruct (trailing_run is_space left) as (l0 & ws & E0 & Hws & Hl0).
  destruct (leading_run is_space right) as (ws2 & r0 & E2 & Hws2 & Hr0).
  destruct ws as [|w ws].
  { exfalso. rewrite app_nil_r in E0. subst l0. rewrite El, rev_app_distr in Hl0.
    cbn in Hl0. congruence. }
  destruct ws2 as [|w2 ws2].
  { exfalso. cbn [app] in E2. subst r0. rewrite Er in Hr0. congruence. }
  cbn [forallb] in Hws, Hws2.
  apply andb_true_iff in Hws as [Hw Hws].
  apply andb_true_iff in Hws2 as [Hw2 Hws2].
  assert (match_here sep_re (after_run None l0)
            ((w :: ws) ++ d :: (w2 :: ws2) ++ r0)
          = Some (MState (after_run (Some w2) ws2) r0 [])) as Hm.
  { unfold match_here, sep_re, cat. cbn [fold_right app].
    apply m_cat_some.
    apply (m_plus_some is_space _ w ws (d :: w2 :: ws2 ++ r0));
      [exact Hw | exact Hws | by apply is_dash_not_space |].
    apply m_cat_some, m_chr_some; [exact Hd|]. apply m_cat_some.
    by apply (m_plus_some is_space _ w2 ws2 r0). }
  assert (forall l1 l2, l0 = l1 ++ l2 -> l2 <> [] ->
            match_here sep_re (after_run None l1)
              (l2 ++ (w :: ws) ++ d :: (w2 :: ws2) ++ r0) = None) as Hnone.
  { intros l1 l2 El0 Hl2. clear Hm.
    destruct (match_here _ _ _) as [st|] eqn:E; [exfalso|done].
    destruct (exists_last Hl2) as (l2' & z & ->).
    assert (is_space z = false) as Hz.
    { rewrite El0, app_assoc, rev_app_distr in Hl0. exact Hl0. }
    apply m_sound in E as (st' & Hs & _).
    unfold sep_re, cat in Hs; cbn [fold_right] in Hs.
    apply matches_cat_inv in Hs as (s1 & H1 & Hs).
    apply matches_cat_inv in Hs as (s2 & H2 & Hs).
    apply matches_cat_inv in Hs as (s3 & H3 & _).
    apply matches_plus_inv in H1 as (c & ds & Hc & Hds & Hr1 & _).
    apply matches_chr_inv in H2 as (d' & Hd' & Hr2 & _).
    apply matches_plus_inv in H3 as (b' & ds2 & Hb' & _ & Hr3 & _).
    cbn [rest] in Hr1. rewrite Hr2, Hr3 in Hr1.
    change (c :: ds ++ d' :: b' :: ds2 ++ rest s3)
      with ((c :: ds) ++ d' :: b' :: ds2 ++ rest s3) in Hr1.
    assert (forallb is_space (c :: ds) = true) as Hcds
      by (simpl; by rewrite Hc, Hds).
    destruct (forallb_last is_space (c :: ds)) as (x' & a0 & Ex & Ha0);
      [done | exact Hcds |].
    rewrite Ex in *. clear Ex.
    apply app_eq_app in Hr1 as [w0 [[H1 H4]|[H1 H4]]].
    - destruct w0 as [|d0 w0].
      + rewrite app_nil_r in H1. rewrite <- H1, forallb_app in Hcds.
        simpl in Hcds. rewrite Hz in Hcds. by destruct (forallb is_space l2').
      + injection H4 as <- H4. apply Hno. rewrite E0, El0.
        rewrite <- app_assoc, H1.
        destruct w0 as [|b0 w0].
        * simpl in H4. injection H4 as -> _.
          exists (l1 ++ x'), a0, d', w, ws.
          split; [by rewrite <- !app_assoc|done].
        * injection H4 as <- H4.
          exists (l1 ++ x'), a0, d', b', (w0 ++ w :: ws).
          split; [by rewrite <- !app_assoc|done].
    - rewrite H1, !forallb_app in Hcds. simpl in Hcds. rewrite Hz in Hcds.
      by destruct (forallb is_space l2'). }
  unfold re_search. rewrite E0, E2, <- app_assoc.
  rewrite (search_from_skip sep_re l0 None _ _ Hnone Hm).
  eexists. split; [reflexivity|]. cbn [before after rest]. split.
  - unfold strip. rewrite strip_by_app_r; [done|].
    cbn [forallb]. by rewrite Hw, Hws.
  - unfold strip. rewrite strip_by_app_l; [done|].
    cbn [forallb]. by rewrite Hw2, Hws2.
Qed.

Lemma contains_absent (c : char) (s : str) :
  ~ In c s -> contains [c] s = false.
Proof.
  induction s as [|a s IH]; intros H; [done|]. cbn [contains is_prefix].
  assert ((c =? a) = false) as ->.
  { apply N.eqb_neq. intros ->. apply H. by left. }
  cbn [andb orb]. apply IH. intros Hin. apply H. by right.
Qed.

Lemma rank_search_absent (s : str) :
  ~ In (ch "(") s -> re_search rank_re s = None.
Proof.
  intros H. apply search_from_none. intros pre [|a t] ->; [done|].
  unfold match_here, rank_re, cat. cbn [fold_right].
  apply match_first_char. apply N.eqb_neq. intros <-.
  apply H, in_or_app. right. by left.
Qed.


(** A line without parentheses: the name is the text before the first
    separator and the location the text after it, both trimmed. *)
Lemma parse_list_entry_split (text left right industry : str) d :
  splits_at text left d right -> ~ In (ch "(") text ->
  parse_list_entry text industry
  = (Some (entry_record (strip left) industry (strip right) None None), []).
Proof.
  intros Hs Hp. destruct (sep_search_split _ _ _ _ Hs) as (f & Ef & Hb & Ha).
  destruct Hs as (Et & _).
  assert (forall x : str, ~ In (ch "(") (strip x) \/ In (ch "(") x) as Hin.
  { intros x. destruct (in_dec N.eq_dec (ch "(") (strip x)) as [H|H]; [|by left].
    right. by apply strip_by_incl in H. }
  unfold parse_list_entry, parse_list_entry_body, re_split1. rewrite Ef.
  cbn beta iota. rewrite Hb, Ha.
  change (utf8 "(") with [ch "("].
  rewrite contains_absent.
  - cbn [bind]. rewrite rank_search_absent; [done|].
    destruct (Hin left) as [H|H]; [exact H|]. exfalso. apply Hp. rewrite Et.
    apply in_or_app. by left.
  - destruct (Hin right) as [H|H]; [exact H|]. exfalso. apply Hp. rewrite Et.
    apply in_or_app. right. by right.
Qed.

(** *** The location and the notes *)

Lemma no_paren_suffix (P : char -> bool) (a b : str) :
  forallb (fun c => negb (c =? ch "(") && P c) (a ++ b) = true ->
  forallb (fun c => negb (ch "(" =? c)) b = true.
Proof.
  rewrite forallb_app. intros [_ H]%andb_true_iff.
  revert H. apply forallb_weaken. intros c [H _]%andb_true_iff.
  by rewrite N.eqb_sym.
Qed.

(** The lazy first group stops at the end of the location: before it,
    what follows is neither the parenthesized end nor the end of the
    text. *)
Lemma location_match (location notes : str) :
  location_ok location -> notes_ok notes ->
  match_here location_re None (location ++ 32 :: 40 :: notes ++ [41])
  = Some (MState (Some 41) [] [(2%nat, notes); (1%nat, location)]).
Proof.
  intros (Hne & Htr & Hl) Hn.
  destruct (trimmed_ends _ Hne Htr) as [_ (loc' & z & Hz & Hzs)].
  unfold match_here, location_re, cat, opt. cbn [fold_right].
  apply m_cat_some, m_grp_some, m_lazy_some.
  - revert Hl. apply forallb_weaken. by intros c [_ H]%andb_true_iff.
  - intros t1 t2 -> Ht2. cbn beta. cbn [prev rest caps].
    destruct (suffix_last t1 t2 loc' z Hz Ht2) as [t2' ->].
    apply no_paren_suffix in Hl.
    destruct (m _ _ _) as [x|] eqn:E; [exfalso|done].
    apply m_sound in E as (st' & Hm & _). inv_matches; cbn [rest] in *.
    + match goal with
      | H1 : (t2' ++ [z]) ++ ?t = ?ws ++ rest ?s1,
        H2 : rest ?s1 = ?q :: rest ?s2 |- _ =>
        rewrite H2 in H1;
        by apply (run_then_mark is_space (N.eqb (ch "(")) t2' z t ws q (rest s2))
      end.
    + match goal with
      | H1 : (t2' ++ [z]) ++ ?t = ?ws ++ rest ?s1,
        H2 : rest ?s1 = [] \/ rest ?s1 = [10],
        Hw : forallb is_space ?ws = true |- _ =>
        change ((t2' ++ [z]) ++ 32 :: 40 :: notes ++ [41])
          with ((t2' ++ [z]) ++ [32; 40] ++ notes ++ [41]) in H1;
        rewrite !app_assoc in H1;
        destruct H2 as [H2|H2]; rewrite H2 in H1;
          [rewrite app_nil_r in H1; rewrite <- H1, forallb_app in Hw;
           simpl in Hw; by rewrite andb_false_r in Hw
          |by apply app_inj_tail in H1 as [_ ?]]
      end.
  - cbn beta. cbn [prev rest caps].
    rewrite (taken_app location (32 :: 40 :: notes ++ [41])).
    apply m_cat_some.
    apply (m_star_some is_space _ [32] (40 :: notes ++ [41])); [done..|].
    apply m_cat_some, m_alt_some_l, m_cat_some, m_chr_some; [done|].
    apply m_cat_some, m_grp_some, m_lazy_some.
    + exact Hn.
    + intros t1 t2 -> Ht2. cbn beta. cbn [prev rest caps].
      destruct (m _ _ _) as [x|] eqn:E; [exfalso|done].
      apply m_sound in E as (st1 & Hm1 & E).
      apply m_sound in E as (st2 & Hm2 & _). inv_matches; cbn [rest] in *.
      match goal with
      | H1 : t2 ++ [41] = ?c :: rest ?s1,
        H2 : rest ?s1 = [] \/ rest ?s1 = [10] |- _ =>
        destruct t2 as [|c' t2]; [done|]; injection H1 as _ H1;
        destruct H2 as [H2|H2]; rewrite H2 in H1;
        by destruct t2 as [|? [|? ?]]
      end.
    + cbn beta. cbn [prev rest caps].
      rewrite (taken_app notes [41]).
      apply m_cat_some, m_chr_some; [done|]. reflexivity.
Qed.

(** *** The rank *)

Lemma rank_match pv c (ds : str) :
  is_decimal c = true -> forallb is_decimal ds = true ->
  match_here rank_re pv (40 :: c :: ds ++ [41])
  = Some (MState (Some 41) [] [(1%nat, c :: ds)]).
Proof.
  intros Hc Hds. unfold match_here, rank_re, cat. cbn [fold_right].
  apply m_cat_some, m_chr_some; [done|].
  apply m_cat_some, m_grp_some, m_plus_some; [exact Hc | exact Hds | done |].
  cbn [prev rest caps].
  rewrite (taken_app (c :: ds) [41] : taken (c :: ds ++ [41]) [41] = c :: ds).
  apply m_cat_some, m_chr_some; [done|]. reflexivity.
Qed.




(** *** The whole line *)





(** The line of the specification's example. *)
Lemma parse_list_entry_example (industry : str) :
  parse_list_entry
    (utf8 "Acme Corp (42) – San Francisco, California (formerly Acme Inc.)")
    industry
  = (Some (entry_record (utf8 "Acme Corp") industry
             (utf8 "San Francisco, California") (Some 42%Z)
             (Some (utf8 "formerly Acme Inc."))), []).
Proof. vm_compute. reflexivity. Qed.


End ListEntry.

(** ** The scripts, the pages and the loop *)

(** ** More on the startups cleaner *)

Section StartupsMore.
Context {U : UnicodeTables}.
Import StartupsCleaner.

(** What [parse_company_size] can do: it returns, or [int] refuses a run
    of more digits than it reads. *)
Lemma parse_company_size_outcome (size_str : str) :
  returns (parse_company_size size_str)
  \/ (parse_company_size size_str = Raise ValueError /\ ~ int_sized size_str).
Proof.
  unfold parse_company_size, returns.
  destruct (re_match size_range_re size_str) as [mt|] eqn:Er.
  { apply range_match_shape in Er
      as (low & high & [Hl1 Hl2] & [Hh1 Hh2] & E & -> & ->).
    cbn [py_int_opt].
    rewrite (py_int_run low Hl1 Hl2), (py_int_run high Hh1 Hh2).
    destruct (max_str_digits <? N.of_nat (length low)) eqn:E1.
    { right. split; [done|]. apply N.ltb_lt in E1. unfold int_sized.
      rewrite E, !length_app. lia. }
    cbn [bind]. destruct (max_str_digits <? N.of_nat (length high)) eqn:E2.
    { right. split; [done|]. apply N.ltb_lt in E2. unfold int_sized.
      rewrite E, !length_app. lia. }
    left. cbn [bind]. eauto. }
  destruct (re_match size_plus_re size_str) as [mt|] eqn:Ep; [|eauto].
  apply plus_match_shape in Ep as (n & [Hn1 Hn2] & E & ->).
  cbn [py_int_opt]. rewrite (py_int_run n Hn1 Hn2).
  destruct (max_str_digits <? N.of_nat (length n)) eqn:E1.
  { right. split; [done|]. apply N.ltb_lt in E1. unfold int_sized.
    rewrite E, !length_app. lia. }
  left. cbn [bind]. eauto.
Qed.

Lemma parse_company_size_ok (size_str : str) :
  int_sized size_str -> returns (parse_company_size size_str).
Proof.
  intros H. by destruct (parse_company_size_outcome size_str) as [?|[_ ?]].
Qed.

Lemma parse_company_size_anchored (size_str : str) :
  match size_str with c :: _ => is_decimal c = false | [] => True end ->
  parse_company_size size_str = Ok None.
Proof.
  intros Hc. unfold parse_company_size.
  destruct (re_match size_range_re size_str) as [mt|] eqn:Er.
  { apply range_match_shape in Er as (low & high & [Hl1 Hl2] & _ & -> & _).
    destruct low as [|c low]; [done|]. cbn [app forallb] in *.
    apply andb_true_iff in Hl2 as [Hl2 _]. congruence. }
  destruct (re_match size_plus_re size_str) as [mt|] eqn:Ep; [|done].
  apply plus_match_shape in Ep as (n & [Hn1 Hn2] & -> & _).
  destruct n as [|c n]; [done|]. cbn [app forallb] in *.
  apply andb_true_iff in Hn2 as [Hn2 _]. congruence.
Qed.

(** [parse_company_size] returns on every label of no more characters
    than [int] reads digits: the groups it passes to [int] are runs of
    decimal digits.  It raises nothing but the [ValueError] of [int] on a
    longer run.  The patterns are tried at the start of the label only,
    so a label that does not begin with a decimal digit gives [None]
    whatever follows. *)
Theorem parse_company_size_returns (size_str : str) :
  (int_sized size_str -> returns (parse_company_size size_str))
  /\ (forall e, parse_company_size size_str = Raise e ->
                e = ValueError /\ ~ int_sized size_str)
  /\ (match size_str with c :: _ => is_decimal c = false | [] => True end ->
      parse_company_size size_str = Ok None).
Proof.
  split; [apply parse_company_size_ok|].
  split; [|apply parse_company_size_anchored].
  intros e He.
  destruct (parse_company_size_outcome size_str) as [[v Hv]|[Hr Hs]].
  - by rewrite Hv in He.
  - rewrite Hr in He. by injection He as <-.
Qed.

Lemma currency_search_shape (s : str) mt :
  re_search currency_re s = Some mt ->
  exists a u,
    group 1 (groups mt) = Some a /\ group 2 (groups mt) = Some [u]
    /\ (u = ch "M" \/ u = ch "B") /\ In (ch "$") s.
Proof.
  intros H. apply search_from_some in H as (st & Hm & Hs & _ & Hc & _).
  apply m_sound in Hm as (st' & Hm & [= ->]).
  unfold currency_re, cat in Hm; cbn [fold_right] in Hm.
  inv_matches. cbn [rest prev caps] in *. rewrite <- Hc. clear Hc.
  caps_chain. cbn [group Nat.eqb].
  match goal with
  | Hd : (ch "$" =? ?d) = true, Hw : whole mt ++ after mt = ?d :: _,
    Hu : (?u =? ch "M") || (?u =? ch "B") = true,
    Hr : rest ?a = ?u :: rest ?b |- _ =>
    eexists _, u; split; [reflexivity|]; split;
      [by rewrite Hr, (taken_app [u] (rest b) : taken (u :: rest b) (rest b) = [u])|]; split;
      [apply orb_true_iff in Hu as [Hu|Hu]; apply N.eqb_eq in Hu; auto|];
    rewrite Hw; apply N.eqb_eq in Hd; rewrite <- Hd;
    apply in_or_app; right; by left
  end.
Qed.

(** What [parse_currency_field] can do: it raises nothing but
    [ValueError]; an amount comes with its unit, which is [M] or [B], and
    an amount in billions is a multiple by 1000; a text without dollar
    sign gives no amount. *)
Theorem parse_currency_field_outcomes (value_str : str) :
  (parse_currency_field value_str = Raise ValueError
   \/ parse_currency_field value_str = Ok (None, None)
   \/ (exists x, parse_currency_field value_str = Ok (Some x, Some (utf8 "M")))
   \/ (exists x, parse_currency_field value_str
                 = Ok (Some (fmul x (float_of_Z 1000)), Some (utf8 "B"))))
  /\ (~ In (ch "$") value_str ->
      parse_currency_field value_str = Ok (None, None)).
Proof.
  unfold parse_currency_field.
  destruct value_str as [|c0 v]; [by split; [right; left|]|].
  destruct (strip (c0 :: v)) as [|c1 v1]; [by split; [right; left|]|].
  destruct (re_search currency_re (c0 :: v)) as [mt|] eqn:E;
    [|by split; [right; left|]].
  apply currency_search_shape in E as (a & u & -> & -> & Hu & Hin).
  split; [|done]. cbn [py_float_opt].
  assert (py_float a = Raise ValueError \/ exists x, py_float a = Ok x) as [->|[x ->]].
  { unfold py_float. destruct (dec_digits 0 0 a) as [[ip n1] s1].
    destruct s1 as [|c s2]; [destruct (n1 =? 0); eauto|].
    destruct (c =? 46); [|by left].
    destruct (dec_digits ip 0 s2) as [[mant n2] s3].
    destruct s3; [destruct ((n1 =? 0) && (n2 =? 0)); eauto|by left]. }
  - by left.
  - cbn [bind]. right. right. destruct Hu as [-> | ->].
    + left. exists x. by rewrite decide_False.
    + right. exists x. by rewrite decide_True.
Qed.

End StartupsMore.

(** ** More on the companies cleaner *)

Section CompaniesMore.
Context {U : UnicodeTables}.
Import CompaniesCleaner.

Lemma revenue_search_group1 (s : str) mt :
  re_search revenue_re s = Some mt -> exists a, group 1 (groups mt) = Some a.
Proof.
  intros H. apply search_from_some in H as (st & Hm & _ & _ & Hc & _).
  apply m_sound in Hm as (st' & Hm & [= ->]).
  unfold revenue_re, cat, alt in Hm; cbn [fold_right ilits] in Hm.
  inv_matches; rewrite <- Hc; clear Hc; caps_chain; cbn [group Nat.eqb]; eauto.
Qed.

(** [parse_revenue] never raises, and an amount always comes with the unit
    tag [M] or [B]. *)
Theorem parse_revenue_returns (value : str) :
  parse_revenue value = Ok (None, None)
  \/ (exists x, parse_revenue value = Ok (Some x, Some (utf8 "M")))
  \/ (exists x, parse_revenue value
                = Ok (Some (fmul x (float_of_Z 1000)), Some (utf8 "B"))).
Proof.
  unfold parse_revenue. destruct value as [|c0 v]; [by left|].
  destruct (strip (c0 :: v)) as [|c1 v1]; [by left|].
  destruct (re_search revenue_re _) as [mt|] eqn:E; [|by left].
  destruct (revenue_search_group1 _ _ E) as [a ->]. cbn [option_map].
  destruct (py_float _) as [x|e]; [|by left].
  right. destruct (group 2 (groups mt)) as [[|c u]|]; [by left; exists x..| |by left; exists x].
  destruct (mem_str _ _); [by right; exists x|].
  destruct (mem_str _ _); by left; exists x.
Qed.

(** *** Employees *)

Lemma forallb_incl {A} (p : A -> bool) (a b : list A) :
  (forall c, In c a -> In c b) -> forallb p b = true -> forallb p a = true.
Proof. rewrite !forallb_forall. auto. Qed.

Lemma replace_loop_incl (old : str) : forall (s : str) skip c,
  In c (replace_loop old [] s skip) -> In c s.
Proof.
  induction s as [|a s IH]; intros skip c H; [done|]. cbn [replace_loop] in H.
  destruct skip as [|n]; [|right; by eapply IH].
  destruct (is_prefix old (a :: s)).
  - right. by eapply IH.
  - destruct H as [->|H]; [by left|right; by eapply IH].
Qed.

Lemma employees_match pv (s : str) st :
  match_here employees_re pv s = Some st ->
  exists d ds,
    s = d :: ds ++ rest st /\ is_decimal d = true
    /\ forallb employees_char ds = true /\ caps st = [(1%nat, d :: ds)].
Proof.
  intros Hm. apply m_sound in Hm as (st' & Hm & [= ->]).
  unfold employees_re, cat in Hm; cbn [fold_right] in Hm.
  inv_matches. cbn [rest prev caps] in *. subst s.
  caps_chain. rest_chain.
  match goal with
  | Hd : is_decimal ?d = true, Hds : forallb _ ?ds = true
    |- context [taken (?d :: ?ds ++ ?r) ?r] =>
    exists d, ds;
    rewrite (taken_app (d :: ds) r : taken (d :: ds ++ r) r = d :: ds)
  end.
  by repeat split.
Qed.

Lemma employees_tokens (s t : str) :
  In t (re_findall1 employees_re s) -> forallb employees_char t = true.
Proof.
  unfold re_findall1. rewrite in_map_iff. intros ([w cs] & <- & Hin).
  apply find_loop_sound in Hin as (pv' & s' & st & Hm & _ & ->).
  apply employees_match in Hm as (d & ds & _ & Hd & Hds & ->).
  cbn [snd group Nat.eqb forallb]. unfold employees_char at 1.
  by rewrite Hd, Hds.
Qed.

Lemma find_loop_length r : forall (s : str) pv skip t cs,
  In (t, cs) (find_loop r pv s skip) -> (length t <= length s)%nat.
Proof.
  induction s as [|c s IH]; intros pv skip t cs H; simpl in H.
  - destruct skip; [|done].
    destruct (match_here r pv []) as [st|]; [|done].
    by destruct H as [[= <- <-]|[]].
  - destruct skip as [|n]; [|apply IH in H; simpl; lia].
    destruct (match_here r pv (c :: s)) as [st|] eqn:E;
      [|apply IH in H; simpl; lia].
    destruct H as [[= <- <-]|H]; [|apply IH in H; simpl; lia].
    unfold taken. rewrite length_firstn. lia.
Qed.

Lemma replace_loop_length (old : str) : forall (s : str) skip,
  (length (replace_loop old [] s skip) <= length s)%nat.
Proof.
  induction s as [|a s IH]; intros skip; [done|]. cbn [replace_loop].
  destruct skip as [|n]; [|specialize (IH n); simpl; lia].
  destruct (is_prefix old (a :: s)).
  - specialize (IH (pred (length old))). simpl. lia.
  - specialize (IH 0%nat). simpl. lia.
Qed.

Lemma rstrip_by_length p (s : str) : (length (rstrip_by p s) <= length s)%nat.
Proof.
  unfold rstrip_by. rewrite length_rev.
  destruct (drop_while_suffix p (rev s)) as [t Ht].
  apply (f_equal (@length N)) in Ht. rewrite length_rev, length_app in Ht. lia.
Qed.

(** What [parse_employees] can do: it returns, or [int], called outside
    the [try], refuses a number of more digits than it reads. *)
Lemma parse_employees_outcome (value : str) :
  returns (parse_employees value)
  \/ (parse_employees value = Raise ValueError /\ ~ int_sized value).
Proof.
  unfold parse_employees, returns. destruct value as [|c0 v]; [eauto|].
  destruct (re_findall1 employees_re (c0 :: v)) as [|d0 ds] eqn:E; [eauto|].
  assert (forallb employees_char d0 = true) as Hd0.
  { apply (employees_tokens (c0 :: v)). rewrite E. by left. }
  assert (length d0 <= length (c0 :: v))%nat as Hlen.
  { assert (In d0 (re_findall1 employees_re (c0 :: v))) as Hin
      by (rewrite E; by left).
    unfold re_findall1 in Hin. apply in_map_iff in Hin as ([w cs] & <- & Hin).
    pose proof (find_loop_length _ _ _ _ _ _ Hin) as Hw.
    apply find_loop_sound in Hin as (pv' & s' & st & Hm & -> & ->).
    apply employees_match in Hm as (d & ds' & Es & _ & _ & ->).
    cbn [snd group Nat.eqb]. rewrite Es in Hw.
    rewrite (taken_app (d :: ds') (rest st)
             : taken (d :: ds' ++ rest st) (rest st) = d :: ds') in Hw.
    exact Hw. }
  set (num_str := rstrip_chars _ _).
  assert (forallb employees_char num_str = true) as Hn.
  { revert Hd0. apply forallb_incl. intros c Hc.
    apply rstrip_by_incl, strip_by_incl in Hc.
    by apply replace_loop_incl, replace_loop_incl in Hc. }
  assert (length num_str <= length d0)%nat as Hnl.
  { unfold num_str, rstrip_chars, strip.
    pose proof (rstrip_by_length (mem (utf8 "."))
                  (strip_by is_space
                     (replace (utf8 "~") [] (replace (utf8 ",") [] d0)))).
    pose proof (strip_by_length is_space
                  (replace (utf8 "~") [] (replace (utf8 ",") [] d0))).
    pose proof (replace_loop_length (utf8 "~") (replace (utf8 ",") [] d0) 0).
    pose proof (replace_loop_length (utf8 ",") d0 0).
    unfold replace in *. lia. }
  destruct (isdigit num_str) eqn:Hi.
  - assert (num_str <> [] /\ forallb is_decimal num_str = true) as [Hne Hdec].
    { unfold isdigit in Hi. destruct num_str as [|c t] eqn:En; [done|].
      split; [done|]. rewrite <- En in *. clear En.
      rewrite forallb_forall in *. intros a Ha.
      pose proof (Hn a Ha) as H1. pose proof (Hi a Ha) as H2.
      unfold employees_char in H1.
      apply orb_true_iff in H1 as [H1|H1]; [apply orb_true_iff in H1 as [H1|H1]|];
        [done|..]; apply N.eqb_eq in H1; subst a; by vm_compute in H2. }
    rewrite (py_int_run num_str Hne Hdec).
    destruct (max_str_digits <? N.of_nat (length num_str)) eqn:El.
    + right. split; [done|]. apply N.ltb_lt in El. unfold int_sized. lia.
    + left. cbn [bind]. eauto.
  - left. unfold try_except.
    destruct (py_float num_str) as [x|e]; cbn [bind]; [|eauto].
    destruct (int_of_float x); cbn [bind]; eauto.
Qed.

Lemma parse_employees_ok (value : str) :
  int_sized value -> returns (parse_employees value).
Proof.
  intros H. by destruct (parse_employees_outcome value) as [?|[_ ?]].
Qed.

(** [re.findall] passes over a stretch of text in which the pattern
    matches nowhere. *)
Lemma find_loop_skip r (left : str) : forall pv (t : str),
  (forall l1 l2, left = l1 ++ l2 -> l2 <> [] ->
     match_here r (after_run pv l1) (l2 ++ t) = None) ->
  find_loop r pv (left ++ t) 0 = find_loop r (after_run pv left) t 0.
Proof.
  induction left as [|c left IH]; intros pv t Hn; [done|].
  cbn [app find_loop].
  pose proof (Hn [] (c :: left) eq_refl ltac:(done)) as H0. simpl in H0.
  rewrite H0. apply IH.
  intros l1 l2 -> Hl2. exact (Hn (c :: l1) l2 eq_refl Hl2).
Qed.

Lemma replace_char_filter o : forall s : str,
  replace [o] [] s = List.filter (fun c => negb (o =? c)) s.
Proof.
  unfold replace. induction s as [|c s IH]; [done|].
  cbn [replace_loop is_prefix List.filter length pred].
  destruct (o =? c); cbn [andb negb app]; by rewrite IH.
Qed.

Lemma filter_id {A} (p : A -> bool) (l : list A) :
  forallb p l = true -> List.filter p l = l.
Proof.
  induction l as [|a l IH]; [done|]. cbn [forallb List.filter].
  intros [-> H]%andb_true_iff. by rewrite IH.
Qed.

Lemma ascii_digit_facts c :
  ascii_digit c = true ->
  is_decimal c = true /\ is_digit_char c = true /\ is_space c = false
  /\ (ch "," =? c) = false /\ (ch "~" =? c) = false /\ (ch "." =? c) = false.
Proof.
  intros H. pose proof (is_decimal_ascii c H) as Hd.
  split; [exact Hd|]. split.
  - unfold is_digit_char. unfold ascii_digit in H. rewrite H.
    apply andb_true_iff in H as [_ H]. apply N.leb_le in H.
    by assert ((c <? 128) = true) as -> by (apply N.ltb_lt; lia).
  - split; [by apply is_decimal_not_space|].
    unfold ascii_digit in H. apply andb_true_iff in H as [H1 H2].
    apply N.leb_le in H1, H2.
    repeat split; apply N.eqb_neq; intros <-; vm_compute in H1, H2; done.
Qed.

Lemma grouped_join (g : str) (gs : list str) :
  Forall (fun g => g <> [] /\ forallb ascii_digit g = true) (g :: gs) ->
  replace (utf8 ",") [] (join (utf8 ",") (g :: gs)) = concat (g :: gs)
  /\ (exists ds, join (utf8 ",") (g :: gs) = g ++ ds
                 /\ forallb employees_char ds = true)
  /\ forallb ascii_digit (concat (g :: gs)) = true.
Proof.
  change (utf8 ",") with [ch ","]. rewrite replace_char_filter.
  revert g. induction gs as [|g' gs IH]; intros g Hg.
  - apply Forall_cons_1 in Hg as [[_ Hg] _]. cbn [join concat].
    rewrite app_nil_r. split; [|split; [|exact Hg]].
    + apply filter_id. revert Hg. apply forallb_weaken. intros c Hc.
      by destruct (ascii_digit_facts c Hc) as (_ & _ & _ & -> & _).
    + exists []. by rewrite app_nil_r.
  - apply Forall_cons_1 in Hg as [[_ Hg] Hgs].
    destruct (IH g' Hgs) as (H1 & (ds & H2 & H3) & H4).
    change (join [ch ","] (g :: g' :: gs))
      with (g ++ [ch ","] ++ join [ch ","] (g' :: gs)).
    change (concat (g :: g' :: gs)) with (g ++ concat (g' :: gs)).
    split; [|split].
    + rewrite !List.filter_app, H1. f_equal. apply filter_id.
      revert Hg. apply forallb_weaken. intros c Hc.
      by destruct (ascii_digit_facts c Hc) as (_ & _ & _ & -> & _).
    + eexists. split; [reflexivity|]. rewrite H2.
      rewrite !forallb_app, H3, andb_true_r. apply andb_true_iff. split; [done|].
      apply Forall_cons_1 in Hgs as [[_ Hg'] _]. revert Hg'.
      apply forallb_weaken. intros c Hc. unfold employees_char.
      by rewrite (is_decimal_ascii c Hc).
    + by rewrite forallb_app, Hg, H4.
Qed.

Lemma strip_by_none p (s : str) :
  forallb (fun c => negb (p c)) s = true ->
  strip_by p s = s /\ rstrip_by p s = s.
Proof.
  intros H.
  assert (forall l : str, forallb (fun c => negb (p c)) l = true ->
            drop_while p l = l) as Hd.
  { intros [|c l] Hl; [done|]. apply drop_while_id. cbn [forallb] in Hl.
    apply andb_true_iff in Hl as [Hl _]. by apply negb_true_iff in Hl. }
  assert (rstrip_by p s = s) as Hr.
  { unfold rstrip_by. rewrite Hd; [apply rev_involutive|].
    rewrite forallb_forall in *. intros c Hc. apply H. by apply in_rev. }
  split; [|exact Hr]. unfold strip_by, lstrip_by. by rewrite (Hd s H).
Qed.

Lemma employees_first pv d (ds post : str) :
  is_decimal d = true -> forallb employees_char ds = true ->
  match post with c :: _ => employees_char c = false | [] => True end ->
  match_here employees_re pv (d :: ds ++ post)
  = Some (MState (after_run (Some d) ds) post [(1%nat, d :: ds)]).
Proof.
  intros Hd Hds Hp. unfold match_here, employees_re, cat. cbn [fold_right].
  apply m_grp_some, m_cat_some, m_chr_some; [exact Hd|].
  apply m_cat_some, m_star_some; [exact Hds | exact Hp |].
  cbn [m rest prev caps].
  by rewrite (taken_app (d :: ds) post : taken (d :: ds ++ post) post = d :: ds).
Qed.

(** The first number of the text is the one read, with its commas taken
    out: digit groups joined by commas, after a text without digits, give
    the number the digits denote; unless there are more digits than
    [int] reads, which raises, the call being outside the [try]. *)
Theorem parse_employees_grouped (pre post g : str) (gs : list str) :
  forallb (fun c => negb (is_decimal c)) pre = true ->
  Forall (fun g => g <> [] /\ forallb ascii_digit g = true) (g :: gs) ->
  match post with c :: _ => employees_char c = false | [] => True end ->
  parse_employees (pre ++ join (utf8 ",") (g :: gs) ++ post)
  = if max_str_digits <? N.of_nat (length (concat (g :: gs)))
    then Raise ValueError
    else Ok (Some (Z.of_N (numeral (concat (g :: gs))))).
Proof.
  intros Hpre Hg Hpost.
  destruct (grouped_join g gs Hg) as (Hrep & (ds & Hj & Hds) & Hcat).
  pose proof Hg as [[Hg0 Hgd] _]%Forall_cons_1.
  destruct g as [|d g']; [done|]. clear Hg0.
  cbn [forallb] in Hgd. apply andb_true_iff in Hgd as [Hd Hg'].
  assert (forallb employees_char (g' ++ ds) = true) as Hcl.
  { rewrite forallb_app, Hds, andb_true_r. revert Hg'.
    apply forallb_weaken. intros c Hc. unfold employees_char.
    by rewrite (is_decimal_ascii c Hc). }
  unfold parse_employees.
  destruct (pre ++ _) as [|c0 v] eqn:Ev.
  { rewrite Hj in Ev. by destruct pre. }
  rewrite <- Ev. clear Ev c0 v.
  assert (exists more,
    re_findall1 employees_re (pre ++ join (utf8 ",") ((d :: g') :: gs) ++ post)
    = join (utf8 ",") ((d :: g') :: gs) :: more) as [more ->].
  { unfold re_findall1. rewrite find_loop_skip.
    - rewrite Hj. rewrite <- app_assoc. cbn [app find_loop].
      rewrite (app_assoc g' ds post).
      rewrite (employees_first _ d (g' ++ ds) post (is_decimal_ascii d Hd) Hcl Hpost).
      cbn [map snd caps group Nat.eqb]. eauto.
    - intros l1 [|a l2] -> Hl2; [done|].
      rewrite forallb_app in Hpre. apply andb_true_iff in Hpre as [_ Hpre].
      cbn [forallb] in Hpre. apply andb_true_iff in Hpre as [Ha _].
      apply negb_true_iff in Ha.
      unfold match_here, employees_re, cat. cbn [fold_right app m rest].
      by rewrite Ha. }
  rewrite Hrep. set (n := concat ((d :: g') :: gs)) in *.
  assert (n <> []) as Hne by done.
  assert (replace (utf8 "~") [] n = n) as ->.
  { apply (replace_char_id (ch "~")). intros Hin.
    rewrite forallb_forall in Hcat. by pose proof (Hcat _ Hin). }
  assert (strip n = n) as ->.
  { apply strip_by_none. revert Hcat. apply forallb_weaken. intros c Hc.
    by destruct (ascii_digit_facts c Hc) as (_ & _ & -> & _). }
  assert (rstrip_chars (utf8 ".") n = n) as ->.
  { change (utf8 ".") with [ch "."]. apply strip_by_none. revert Hcat.
    apply forallb_weaken. intros c Hc.
    destruct (ascii_digit_facts c Hc) as (_ & _ & _ & _ & _ & H).
    unfold mem. cbn [existsb]. by rewrite N.eqb_sym, H. }
  assert (isdigit n = true) as ->.
  { unfold isdigit. destruct n; [done|]. revert Hcat.
    apply forallb_weaken. intros c Hc. apply (ascii_digit_facts c Hc). }
  rewrite (py_int_run n Hne).
  - by destruct (max_str_digits <? N.of_nat (length n)).
  - revert Hcat. apply forallb_weaken, is_decimal_ascii.
Qed.

(** *** Locations *)

Lemma us_followed_at (pre post : str) w :
  is_word w = true -> us_followed (pre ++ utf8 "U.S." ++ w :: post) = true.
Proof.
  intros Hw. change (utf8 "U.S.") with [ch "U"; ch "."; ch "S"; ch "."].
  induction pre as [|a pre IH].
  - cbn [app us_followed]. apply orb_true_iff. left.
    cbn [nth_error word_opt]. rewrite Hw. reflexivity.
  - cbn [app] in *. cbn [us_followed]. rewrite IH. apply orb_true_r.
Qed.

Lemma us_match_followed pv (s : str) st :
  match_here us_re pv s = Some st ->
  exists w post, s = utf8 "U.S." ++ w :: post /\ is_word w = true.
Proof.
  intros Hm. apply m_sound in Hm as (st' & Hm & [= ->]).
  unfold us_re, cat in Hm; cbn [fold_right] in Hm.
  inv_matches. cbn [rest prev caps] in *. subst s. rest_chain.
  repeat match goal with
         | H : (ch _ =? _) = true |- _ => apply N.eqb_eq in H; subst
         end.
  match goal with
  | Hp : prev ?x = Some (ch "."),
    Hx : xorb (word_opt (prev ?x)) (word_opt (head (rest ?x))) = true |- _ =>
    rewrite Hp in Hx; destruct (rest x) as [|w post]; [done|];
    exists w, post; split; [reflexivity|exact Hx]
  end.
Qed.

Lemma sub_loop_none r repl (s : str) pv :
  (forall pre t, s = pre ++ t -> match_here r (after_run pv pre) t = None) ->
  sub_loop r repl pv s 0 = s.
Proof.
  intros H. rewrite <- (app_nil_r s) at 1. rewrite sub_loop_keep.
  - cbn [sub_loop]. rewrite (H s [] (eq_sym (app_nil_r s))). apply app_nil_r.
  - intros l1 l2 -> _. rewrite app_nil_r. by apply H.
Qed.

Lemma after_run_last (ds : str) : forall pv,
  after_run pv ds = match last ds with Some c => Some c | None => pv end.
Proof.
  induction ds as [|d ds IH]; intros pv; [done|].
  change (after_run pv (d :: ds)) with (after_run (Some d) ds).
  rewrite IH. destruct ds as [|e ds]; [done|]. cbn [last].
  destruct (last (e :: ds)) eqn:E; [done|]. by apply last_None in E.
Qed.

(** [re.sub] at a match that is not empty: the replacement, and the scan
    goes on after the match. *)
Lemma sub_loop_hit r repl pv (w t : str) st :
  w <> [] -> match_here r pv (w ++ t) = Some st -> rest st = t ->
  sub_loop r repl pv (w ++ t) 0 = repl ++ sub_loop r repl (after_run pv w) t 0.
Proof.
  intros Hw Hm Hr. destruct w as [|c w]; [done|]. cbn [app] in *.
  cbn [sub_loop]. rewrite Hm, Hr. cbn [length]. rewrite length_app.
  replace (S (length w + length t) - length t)%nat with (S (length w)) by lia.
  f_equal. rewrite sub_loop_skip by (rewrite length_app; lia).
  by rewrite take_app_length, drop_app_length.
Qed.

(** [normalize_location] rewrites [U.S.] only where a letter, a digit or an
    underscore follows it directly (the pattern ends with a word
    boundary): a text in which no [U.S.] is so followed, such as one that
    ends with [U.S.], is only trimmed; and [U.S.] between a character that
    is not of a word and one that is becomes [US]. *)
Theorem normalize_location_word_boundary (location_str : str) :
  (us_followed location_str = false ->
   normalize_location location_str = strip location_str)
  /\ (forall pre w post,
        location_str = pre ++ utf8 "U.S." ++ w :: post ->
        ~ In (ch "U") pre -> ~ In (ch "U") (w :: post) ->
        word_opt (last pre) = false -> is_word w = true ->
        normalize_location location_str
        = strip (pre ++ utf8 "US" ++ w :: post)).
Proof.
  split.
  - intros Hn. unfold normalize_location.
    destruct location_str as [|c t] eqn:Es; [done|]. rewrite <- Es in *.
    unfold re_sub. rewrite sub_loop_none; [done|].
    intros pre t0 ->.
    destruct (match_here us_re _ t0) as [st|] eqn:E; [exfalso|done].
    apply us_match_followed in E as (w & post & -> & Hw).
    by rewrite (us_followed_at pre post w Hw) in Hn.
  - intros pre w post -> Hpre Hpost Hl Hw. unfold normalize_location.
    destruct (pre ++ _) as [|c t] eqn:Es; [by destruct pre|].
    rewrite <- Es. clear Es. unfold re_sub. f_equal.
    rewrite sub_loop_keep.
    + f_equal.
      rewrite (sub_loop_hit us_re (utf8 "US") _ (utf8 "U.S.") (w :: post)
                 (MState (Some (ch ".")) (w :: post) [])); [|done| |done].
      { f_equal. by apply sub_us_id. }
      change (utf8 "U.S." ++ w :: post)
        with (ch "U" :: ch "." :: ch "S" :: ch "." :: w :: post).
      assert (match_here us_re (after_run None pre)
                (ch "U" :: ch "." :: ch "S" :: ch "." :: w :: post)
              = Some (MState (Some (ch ".")) (w :: post) [])) as ->.
      { unfold match_here, us_re, cat. cbn [fold_right m rest prev caps head].
        assert (word_opt (after_run None pre) = false) as ->.
        { rewrite after_run_last. by destruct (last pre). }
        assert (is_word (ch "U") = true) as HU by reflexivity.
        assert (is_word (ch ".") = false) as Hdot by reflexivity.
        cbn [word_opt]. rewrite HU. cbn [xorb]. unfold lit.
        cbn [m rest prev caps head word_opt]. rewrite !N.eqb_refl.
        cbn [m rest prev caps head word_opt]. by rewrite Hdot, Hw. }
      reflexivity.
    + intros l1 [|a l2] -> Hl2; [done|].
      destruct (match_here us_re _ _) as [st|] eqn:E; [exfalso|done].
      apply us_match in E. injection E as -> _.
      apply Hpre, in_or_app. right. by left.
Qed.

End CompaniesMore.

(** ** More on the directory scraper *)

Section SplitFacts.
Context {U : UnicodeTables}.

(** The first piece of [s.split(c)] for a one-character separator: the
    text before the first [c]. *)
Lemma split_char_first c : forall (s cur : str),
  exists u rest more,
    split_loop [c] s 0 cur = (rev cur ++ u) :: more
    /\ s = u ++ rest /\ ~ In c u
    /\ (rest = [] \/ exists r, rest = c :: r).
Proof.
  induction s as [|a s IH]; intros cur.
  - exists [], [], []. cbn [split_loop]. rewrite app_nil_r. by auto.
  - cbn [split_loop is_prefix]. destruct (c =? a) eqn:E; cbn [andb].
    + apply N.eqb_eq in E as <-. exists [], (c :: s). eexists.
      rewrite app_nil_r. repeat split; [by auto|]. right. by exists s.
    + destruct (IH (a :: cur)) as (u & rest & more & H1 & H2 & H3 & H4).
      exists (a :: u), rest, more. rewrite H1. cbn [rev].
      rewrite <- app_assoc. repeat split; [by rewrite H2| |exact H4].
      intros [<-|Hin]; [by rewrite N.eqb_refl in E|done].
Qed.

(** Without the separator in it, the text is the only piece. *)
Lemma split_absent (sep : str) : forall (s cur : str),
  contains sep s = false -> split_loop sep s 0 cur = [rev cur ++ s].
Proof.
  induction s as [|a s IH]; intros cur H.
  - cbn [split_loop]. by rewrite app_nil_r.
  - cbn [contains] in H. apply orb_false_iff in H as [H1 H2].
    cbn [split_loop]. rewrite H1, (IH _ H2). cbn [rev].
    by rewrite <- app_assoc.
Qed.

Lemma split_loop_skip (sep : str) : forall (s : str) n cur,
  (n <= length s)%nat ->
  split_loop sep s n cur = split_loop sep (skipn n s) 0 cur.
Proof.
  induction s as [|a s IH]; intros n cur Hn; cbn [length] in Hn.
  - by replace n with 0%nat by lia.
  - destruct n as [|n]; [done|]. cbn [split_loop skipn]. apply IH. lia.
Qed.

Lemma is_prefix_app (p s : str) : is_prefix p (p ++ s) = true.
Proof.
  induction p as [|a p IH]; [done|]. cbn [app is_prefix].
  by rewrite N.eqb_refl, IH.
Qed.

(** A stretch of text without the first character of the separator goes
    to the piece being read. *)
Lemma split_loop_keep (sep : str) c0 (sep' : str) :
  sep = c0 :: sep' ->
  forall (pre s cur : str),
    ~ In c0 pre ->
    split_loop sep (pre ++ s) 0 cur = split_loop sep s 0 (rev pre ++ cur).
Proof.
  intros ->. induction pre as [|a pre IH]; intros s cur Hn; [done|].
  cbn [app split_loop is_prefix].
  assert ((c0 =? a) = false) as ->.
  { apply N.eqb_neq. intros ->. apply Hn. by left. }
  cbn [andb]. rewrite IH by (intros H; apply Hn; by right).
  cbn [rev]. by rewrite <- app_assoc.
Qed.

(** At an occurrence of the separator the piece ends. *)
Lemma split_loop_at (sep : str) (s cur : str) :
  sep <> [] ->
  split_loop sep (sep ++ s) 0 cur = rev cur :: split_loop sep s 0 [].
Proof.
  intros Hne. destruct sep as [|c0 sep'] eqn:E; [done|]. rewrite <- E.
  assert (sep ++ s = c0 :: (sep' ++ s)) as Hs by (by rewrite E).
  rewrite Hs. cbn [split_loop]. rewrite <- Hs, is_prefix_app. f_equal.
  rewrite split_loop_skip by (rewrite E, length_app; cbn [length]; lia).
  rewrite E. cbn [length pred]. by rewrite drop_app_length.
Qed.

(** The first piece is read from the start of the text. *)
Lemma split_first_prefix (sep : str) : forall (s cur : str),
  exists u r more,
    split_loop sep s 0 cur = (rev cur ++ u) :: more /\ s = u ++ r.
Proof.
  induction s as [|a s IH]; intros cur.
  - exists [], [], []. cbn [split_loop]. by rewrite app_nil_r.
  - cbn [split_loop]. destruct (is_prefix sep (a :: s)).
    + exists [], (a :: s). eexists. by rewrite app_nil_r.
    + destruct (IH (a :: cur)) as (u & r & more & H1 & H2).
      exists (a :: u), r, more. rewrite H1, H2. cbn [rev].
      by rewrite <- app_assoc.
Qed.

End SplitFacts.

Section ScraperMore.
Context {U : UnicodeTables} {node : Type} {D : Document node}.
Import Scraper.

(** The website of a card is its link up to the first question mark, so
    it has no query string; a link without [href] gives [None]. *)
Theorem website_without_query (card : node) :
  let website := fst (extract_startup_info card) !! "website"%string in
  match find card q_website with
  | None => website = Some VNone
  | Some a =>
    match attr a "href" with
    | None => website = Some VNone
    | Some href =>
      exists u rest,
        website = Some (VStr u) /\ href = u ++ rest /\ ~ In (ch "?") u
        /\ (rest = [] \/ exists r, rest = ch "?" :: r)
    end
  end.
Proof.
  intros website.
  destruct (extract_startup_info_fields card)
    as (d & vl & vw & E & _ & _ & Hweb & Hwd & Hrest).
  assert (website = Some vw) as ->.
  { unfold website. rewrite E. apply Hrest. }
  pose proof (Hweb ∅) as H0. unfold website_block in H0. cbv zeta in H0.
  rewrite try_assign_ok in H0. apply insert_value_inj in H0.
  destruct (find card q_website) as [a|]; [|by rewrite <- H0].
  destruct (attr a "href") as [href|]; [|by rewrite <- H0].
  cbn [bind] in H0. unfold split in H0. change (utf8 "?") with [ch "?"] in H0.
  destruct (split_char_first (ch "?") href [])
    as (u & rest & more & Hsp & Hh & Hu & Hr).
  rewrite Hsp in H0. exists u, rest. by rewrite <- H0.
Qed.

(** The location of a card is the text after the first HQ marker of the
    quick facts, up to the end of its line or to the next marker.  It
    never has a line feed in it, and quick facts without the marker give
    [None].  When the trimmed quick facts read [pre], the marker, [loc]
    and [rest], with no pin character (the first of the marker) in [pre]
    and [loc], no line feed in [loc], and [rest] empty or beginning with
    a line feed or with the marker, the location is [loc]. *)
Theorem location_after_marker (card : node) :
  let location := fst (extract_startup_info card) !! "location"%string in
  (location = Some VNone
   \/ exists loc, location = Some (VStr loc) /\ ~ In 10 loc)
  /\ (forall q t,
        find card q_quick = Some q -> next_text q = Some t ->
        contains hq_marker (strip t) = false -> location = Some VNone)
  /\ (forall q t pre loc rest,
        find card q_quick = Some q -> next_text q = Some t ->
        strip t = pre ++ hq_marker ++ loc ++ rest ->
        ~ In 128205 pre -> ~ In 128205 loc -> ~ In 10 loc ->
        (rest = [] \/ (exists r, rest = 10 :: r)
         \/ exists r, rest = hq_marker ++ r) ->
        location = Some (VStr loc)).
Proof.
  intros location.
  destruct (extract_startup_info_fields card)
    as (d & vl & vw & E & Hloc & _ & _ & _ & _ & _ & _ & Hl & _).
  assert (location = Some vl) as ->.
  { unfold location. by rewrite E. }
  pose proof (Hloc ∅) as H0. unfold location_block in H0.
  rewrite try_assign_ok in H0. apply insert_value_inj in H0.
  change (utf8 "📍HQ: ") with hq_marker in H0. subst vl.
  split; [|split].
  - destruct (find card q_quick) as [q|]; [|by left]. cbn [deref bind].
    destruct (next_text q) as [[|c t]|]; [by left| |by left].
    destruct (index (split hq_marker _) 1) as [tl|]; [|by left]. cbn [bind].
    unfold split.
    destruct (split_char_first 10 tl []) as (u & rest & more & -> & _ & Hu & _).
    right. by exists u.
  - intros q t -> Hn Hc. cbn [deref bind]. rewrite Hn.
    destruct t as [|c t]; [done|].
    unfold split. by rewrite (split_absent _ _ _ Hc).
  - intros q t pre loc rest -> Hn Ht Hpre Hl1 Hl2 Hrest. cbn [deref bind].
    rewrite Hn. destruct t as [|c t]; [by destruct pre|]. rewrite Ht.
    unfold split.
    rewrite (split_loop_keep hq_marker 128205 (utf8 "HQ: ") eq_refl) by done.
    rewrite split_loop_at by done.
    rewrite (split_loop_keep hq_marker 128205 (utf8 "HQ: ") eq_refl) by done.
    assert (exists u more,
      split_loop hq_marker rest 0 (rev loc ++ []) = (loc ++ u) :: more
      /\ (u = [] \/ exists u', u = 10 :: u')) as (u & more & -> & Hu).
    { destruct Hrest as [->|[[r0 ->]|[r0 ->]]].
      - exists [], []. cbn [split_loop].
        rewrite !app_nil_r, rev_involutive. by split; [|left].
      - destruct (split_first_prefix hq_marker (10 :: r0) (rev loc ++ []))
          as (u & r & more & -> & Hr).
        exists u, more. rewrite app_nil_r, rev_involutive. split; [done|].
        destruct u as [|a u]; [by left|]. right. exists u. by injection Hr as <-.
      - exists [], (split_loop hq_marker r0 0 []).
        rewrite split_loop_at by done.
        rewrite !app_nil_r, rev_involutive. by split; [|left]. }
    cbn [index nth_error bind].
    rewrite (split_loop_keep [10] 10 [] eq_refl) by done.
    destruct Hu as [->|[u' ->]].
    + cbn [split_loop]. by rewrite app_nil_r, rev_involutive.
    + cbn [split_loop is_prefix]. rewrite N.eqb_refl. cbn [andb index nth_error bind].
      by rewrite app_nil_r, rev_involutive.
Qed.

End ScraperMore.

(** ** More on the wiki list scraper *)

Section WikiMore.
Context {U : UnicodeTables}.
Import WikiScraper.

Lemma sep_match_dash pv d c (s : str) :
  is_dash d = true -> is_space c = false ->
  match_here sep_re pv (32 :: d :: 32 :: c :: s)
  = Some (MState (Some 32) (c :: s) []).
Proof.
  intros Hd Hc. unfold match_here, sep_re, cat. cbn [fold_right].
  assert (is_space d = false) as Hds.
  { unfold is_dash in Hd. apply orb_true_iff in Hd as [Hd|Hd];
      apply N.eqb_eq in Hd; by subst d. }
  apply m_cat_some.
  apply (m_plus_some is_space pv 32 [] (d :: 32 :: c :: s)); [done..|].
  apply m_cat_some, m_chr_some; [exact Hd|]. apply m_cat_some.
  by apply (m_plus_some is_space _ 32 [] (c :: s)).
Qed.

(** A line without parentheses: the name before the first dash between
    spaces, the location after it, whatever dashes the location has; no
    rank and no notes. *)
Theorem parse_list_entry_plain (name location industry : str) d :
  is_dash d = true -> name_ok name ->
  location <> [] -> trimmed location -> ~ In (ch "(") location ->
  parse_list_entry (name ++ 32 :: d :: 32 :: location) industry
  = (Some (entry_record name industry location None None), []).
Proof.
  intros Hd (Hn0 & Hntr & Hn) Hl0 Hltr Hlp.
  destruct (trimmed_ends _ Hn0 Hntr) as [_ (name' & z & Hz & Hzs)].
  destruct (trimmed_ends _ Hl0 Hltr) as [(l0 & loc' & Hle & Hls) _].
  assert (~ In (ch "(") name) as Hnp.
  { intros Hin. rewrite forallb_forall in Hn. pose proof (Hn _ Hin) as H.
    by rewrite N.eqb_refl in H. }
  unfold parse_list_entry, parse_list_entry_body, re_split1, re_search.
  rewrite (search_from_skip sep_re name None _
             (MState (Some 32) location [])).
  - cbn [before after rest]. rewrite (strip_by_id is_space name (proj1 Hntr) (proj2 Hntr)
           : strip name = name).
    rewrite (strip_by_id is_space location (proj1 Hltr) (proj2 Hltr)
           : strip location = location).
    change (utf8 "(") with [ch "("]. rewrite (contains_absent _ _ Hlp).
    cbn [bind].
    by rewrite (rank_search_absent _ Hnp : search_from rank_re None name = None).
  - rewrite Hz. apply sep_none_before; [exact Hzs|]. rewrite <- Hz.
    revert Hn. apply forallb_weaken. by intros c [_ H]%andb_true_iff.
  - rewrite Hle. apply sep_match_dash; [exact Hd|exact Hls].
Qed.

End WikiMore.

Section WikiPages.
Context {U : UnicodeTables} {node : Type} {D : Document node}.
Variable parse_html : str -> node.
Import WikiScraper.

Lemma map_result_inv {A B} (f : A -> result B) (l : list A) : forall l',
  CompaniesCleaner.map_result f l = Ok l' ->
  Forall (fun b => exists a, In a l /\ f a = Ok b) l'.
Proof.
  induction l as [|a l IH]; intros l' H; cbn [CompaniesCleaner.map_result] in H.
  - injection H as <-. constructor.
  - destruct (f a) as [b|] eqn:Ea; [|discriminate]. cbn [bind] in H.
    destruct (CompaniesCleaner.map_result f l) as [bs|]; [|discriminate].
    injection H as <-. constructor.
    + exists a. split; [by left|done].
    + eapply Forall_impl; [exact (IH bs eq_refl)|].
      intros b' (a' & Hin & Hb). exists a'. split; [by right|done].
Qed.

Lemma company_list_loop_items (sections : list node) :
  forall elements current_industry items,
    (forall i, current_industry = Some i -> from_heading sections i) ->
    (forall e, In e elements -> In e sections) ->
    company_list_loop elements current_industry = Ok items ->
    Forall (fun it => item_industry it <> []
                      /\ from_heading sections (item_industry it)
                      /\ trimmed (item_text it)) items.
Proof.
  induction elements as [|e elements IH]; intros cur items Hcur Hin H;
    cbn [company_list_loop] in H.
  - injection H as <-. constructor.
  - assert (forall e', In e' elements -> In e' sections) as Hin'
      by (intros e' He'; apply Hin; by right).
    case_bool_decide as Hh.
    + eapply IH; [|exact Hin'|exact H]. intros i [= <-].
      exists e. split; [apply Hin; by left|]. split; [exact Hh|reflexivity].
    + destruct cur as [[|c ind]|]; [by apply (IH _ _ Hcur Hin' H)| |
                                    by apply (IH _ _ Hcur Hin' H)].
      case_bool_decide as Hu; [|by apply (IH _ _ Hcur Hin' H)].
      destruct (CompaniesCleaner.map_result _ _) as [its|] eqn:Em;
        [|discriminate].
      cbn [bind] in H.
      destruct (company_list_loop elements _) as [more|] eqn:El;
        [|discriminate].
      injection H as <-. apply Forall_app. split.
      * apply map_result_inv in Em. eapply Forall_impl; [exact Em|].
        intros it (a & _ & Ha). unfold read_item in Ha.
        destruct (find a q_link) as [lk|]; [destruct (attr lk "href")|];
          try discriminate; injection Ha as <-; cbn [item_industry item_text];
          (split; [done|split; [by apply Hcur|apply strip_trimmed]]).
      * by apply (IH _ _ Hcur Hin' El).
Qed.

(** Every item of the company list stands under a heading: its industry
    is the text of an [h2] or [h3] of the page and is not empty, so the
    lists before the first heading and those under a heading without text
    give no item; and the text of an item is trimmed. *)
Theorem company_list_items_under_heading (content : str) items :
  parse_company_list parse_html content = Ok items ->
  Forall (fun it =>
            item_industry it <> []
            /\ from_heading (find_all (parse_html content) q_sections)
                 (item_industry it)
            /\ trimmed (item_text it)) items.
Proof.
  unfold parse_company_list. apply company_list_loop_items; [done|auto].
Qed.

Lemma mapping_get_in (m : list (string * string)) h f :
  mapping_get m h = Some f -> In f (map snd m).
Proof.
  induction m as [|[k0 f0] m IH]; cbn [mapping_get map snd]; [done|].
  case_bool_decide; [intros [= ->]; by left | intros ?; right; by apply IH].
Qed.

Lemma infobox_row_values data row :
  (forall k v, data !! k = Some v -> infobox_value k v) ->
  forall k v, infobox_row data row !! k = Some v -> infobox_value k v.
Proof.
  intros Hd k v. unfold infobox_row.
  destruct (find row q_th) as [header|]; [|apply Hd].
  destruct (mapping_get field_mapping _) as [f|] eqn:Hf; [|apply Hd].
  apply mapping_get_in in Hf.
  destruct (find row q_td) as [value|]; [|apply Hd].
  destruct (decide (f = k)) as [->|Hne].
  - unfold infobox_value. case_bool_decide as Hk.
    + destruct (find_all value q_li) as [|i0 its] eqn:Ei;
        rewrite lookup_insert_eq; intros [= <-]; (split; [exact Hf|]);
        eexists; (split; [reflexivity|]); apply List.Forall_forall;
        intros t Ht; apply in_map_iff in Ht as (x & <- & _);
        apply strip_trimmed.
    + rewrite lookup_insert_eq. intros [= <-]. split; [exact Hf|].
      eexists. split; [reflexivity|apply strip_trimmed].
  - case_bool_decide; [destruct (find_all value q_li)|];
      rewrite lookup_insert_ne by done; apply Hd.
Qed.

(** The fields of an infobox: each is one of the twelve of the mapping;
    the four list fields hold lists and the others hold strings, all
    trimmed. *)
Theorem parse_infobox_values (soup : node) k v :
  parse_infobox soup !! k = Some v -> infobox_value k v.
Proof.
  unfold parse_infobox. destruct (find soup q_infobox) as [ib|]; [|done].
  assert (forall rows data,
    (forall k v, data !! k = Some v -> infobox_value k v) ->
    forall k v, fold_left infobox_row rows data !! k = Some v ->
                infobox_value k v) as Hfold.
  { induction rows as [|r rows IH]; intros data Hd; [exact Hd|].
    cbn [fold_left]. apply IH. by apply infobox_row_values. }
  apply Hfold. intros k0 v0 H0. by rewrite lookup_empty in H0.
Qed.

Lemma infobox_row_other data row f :
  row_field row <> Some f -> infobox_row data row !! f = data !! f.
Proof.
  unfold row_field, infobox_row. intros H.
  destruct (find row q_th) as [header|]; [|done].
  destruct (find row q_td) as [value|];
    destruct (mapping_get field_mapping _) as [g|]; try done.
  assert (g <> f) as Hne by congruence.
  case_bool_decide; [destruct (find_all value q_li)|];
    by rewrite lookup_insert_ne.
Qed.

Lemma infobox_row_same data data' row f :
  row_field row = Some f ->
  infobox_row data row !! f = infobox_row data' row !! f
  /\ is_Some (infobox_row data row !! f).
Proof.
  unfold row_field, infobox_row. intros H.
  destruct (find row q_th) as [header|]; [|done].
  destruct (find row q_td) as [value|]; [|done]. rewrite H.
  case_bool_decide; [destruct (find_all value q_li)|];
    rewrite !lookup_insert_eq; eauto.
Qed.

(** When several rows of the infobox fill the same field, the last one
    gives the value: the field is what that row alone would give. *)
Theorem infobox_last_row_wins (soup infobox : node) rows1 row rows2 f :
  find soup q_infobox = Some infobox ->
  find_all infobox q_tr = rows1 ++ row :: rows2 ->
  row_field row = Some f ->
  Forall (fun r => row_field r <> Some f) rows2 ->
  parse_infobox soup !! f = infobox_row ∅ row !! f
  /\ is_Some (parse_infobox soup !! f).
Proof.
  intros Hib Hrows Hf Hlater. unfold parse_infobox. rewrite Hib, Hrows.
  rewrite fold_left_app. cbn [fold_left].
  set (data := fold_left infobox_row rows1 ∅).
  assert (forall rows d,
    Forall (fun r => row_field r <> Some f) rows ->
    fold_left infobox_row rows d !! f = d !! f) as Hkeep.
  { induction rows as [|r rows IH]; intros d Hr; [done|].
    apply Forall_cons_1 in Hr as [Hr Hrs]. cbn [fold_left].
    rewrite (IH _ Hrs). by apply infobox_row_other. }
  rewrite (Hkeep _ _ Hlater).
  destruct (infobox_row_same data ∅ row f Hf) as [-> _].
  split; [done|]. by destruct (infobox_row_same ∅ ∅ row f Hf) as [_ ?].
Qed.

End WikiPages.

Section WikiDetails.
Context {U : UnicodeTables} {node : Type} {D : Document node}.
Variable urljoin : str -> str -> str.
Import WikiScraper.

Lemma add_details_no_wiki fetch company basic_data :
  no_wiki_link company ->
  add_details fetch urljoin company basic_data = (basic_data, []).
Proof.
  unfold no_wiki_link, add_details. destruct (item_link company) as [[|c l]|];
    [done| |done]. by intros ->.
Qed.

Lemma parse_list_entry_cases text industry :
  (exists name location rank notes,
     parse_list_entry text industry
     = (Some (entry_record name industry location rank notes), []))
  \/ exists lg, parse_list_entry text industry = (None, lg).
Proof.
  destruct (has_separator_dec text) as [Hs|Hs].
  - destruct (parse_list_entry_found text industry Hs) as [H|[-> _]];
      [by left|right; eauto].
  - right. rewrite (parse_list_entry_missing _ _ Hs). eauto.
Qed.

Lemma entry_record_no_url name industry location rank notes :
  entry_record name industry location rank notes !! "wikipedia_url"%string
  = None.
Proof. unfold entry_record. by rewrite !lookup_insert_ne. Qed.

(** Items without a wiki link ask for no page: the run does not depend on
    what the network answers, and the records it adds have no page URL. *)
Theorem no_wiki_link_no_request (fetch1 fetch2 : str -> option node)
    (companies : list list_item) st :
  Forall no_wiki_link companies ->
  process_entries fetch1 urljoin companies st
  = process_entries fetch2 urljoin companies st
  /\ exists added,
       fst (process_entries fetch1 urljoin companies st) = fst st ++ added
       /\ Forall (fun r => r !! "wikipedia_url"%string = None) added.
Proof.
  intros Hc.
  assert (forall fetch c, no_wiki_link c ->
            item_effect fetch urljoin c
            = match parse_list_entry (item_text c) (item_industry c) with
              | (Some basic, lg) => ([basic], Processing (item_text c) :: lg)
              | (None, lg) => ([], Processing (item_text c) :: lg)
              end) as Heff.
  { intros fetch c Hn. unfold item_effect, process_company.
    destruct (parse_list_entry_cases (item_text c) (item_industry c))
      as [(n & l & r & nt & ->)|[lg ->]]; [|done].
    rewrite bool_decide_eq_false_2 by apply entry_record_nonempty.
    by rewrite (add_details_no_wiki _ _ _ Hn). }
  split.
  - unfold process_entries. revert st.
    induction Hc as [|c cs Hn _ IH]; intros st; [done|]. cbn [fold_left].
    rewrite !process_company_effect, (Heff fetch1 c Hn), (Heff fetch2 c Hn).
    apply IH.
  - rewrite process_entries_records. eexists. split; [reflexivity|].
    induction Hc as [|c cs Hn _ IH]; [constructor|]. cbn [flat_map].
    apply Forall_app. split; [|exact IH]. rewrite (Heff fetch1 c Hn).
    destruct (parse_list_entry_cases (item_text c) (item_industry c))
      as [(n & l & r & nt & ->)|[lg ->]]; [|constructor].
    constructor; [apply entry_record_no_url|constructor].
Qed.

(** A detail page that cannot be fetched does not cost the company its
    record.  A line with a separator, of no more characters than [int]
    reads digits, gives a record; and whenever the line gives a record,
    that record is kept as it is, without page URL, and the failure is
    logged. *)
Theorem fetch_failure_keeps_record (fetch : str -> option node)
    (company : list_item) (link : str) :
  item_link company = Some link ->
  startswith (utf8 "/wiki/") link = true ->
  fetch (urljoin base_url link) = None ->
  (has_separator (item_text company) -> int_sized (item_text company) ->
   exists basic,
     fst (parse_list_entry (item_text company) (item_industry company))
     = Some basic)
  /\ forall basic,
       fst (parse_list_entry (item_text company) (item_industry company))
       = Some basic ->
       parse_list_entry (item_text company) (item_industry company)
       = (Some basic, [])
       /\ basic !! "wikipedia_url"%string = None
       /\ item_effect fetch urljoin company
          = ([basic], [Processing (item_text company);
                       ErrorFetching (urljoin base_url link)]).
Proof.
  intros Hl Hw Hf. split.
  { intros Hs Hz.
    destruct (parse_list_entry_found _ (item_industry company) Hs)
      as [(n & l & rk & nt & E)|[_ H]]; [|done].
    rewrite E. eauto. }
  intros basic Hb.
  destruct (parse_list_entry_some _ _ _ Hb) as (_ & E & n & l & r & nt & ->).
  split; [exact E|]. split; [apply entry_record_no_url|].
  unfold item_effect, process_company. rewrite E.
  rewrite bool_decide_eq_false_2 by apply entry_record_nonempty.
  unfold add_details. rewrite Hl. destruct link as [|c t]; [done|].
  rewrite Hw. unfold get_page. by rewrite Hf.
Qed.

End WikiDetails.

(** ** Entries that give no record *)

Section SkippedEntries.
Context {U : UnicodeTables} {node : Type} {D : Document node}.
Variable fetch : str -> option node.
Variable urljoin : str -> str -> str.
Import WikiScraper.

Lemma add_details_name company basic :
  fst (add_details fetch urljoin company basic) !! "name"%string
  = basic !! "name"%string.
Proof.
  unfold add_details. destruct (item_link company) as [[|c l]|]; [done| |done].
  destruct (startswith _ _); [|done]. unfold get_page.
  destruct (fetch _) as [page|]; [|done]. cbn [fst].
  rewrite lookup_insert_ne by done. unfold update.
  apply lookup_union_r.
  destruct (parse_infobox page !! "name"%string) as [v|] eqn:E; [|done].
  apply parse_infobox_keys in E. simpl in E.
  repeat destruct E as [E|E]; done.
Qed.

(** C7, as amended.  [parse_list_entry] returns [None] for a line without
    a dash between white space, and logs the line.  A line with such a
    dash gives a record with the five keys of an entry and the heading it
    was listed under, and nothing is logged; unless the rank is of more
    digits than [int] reads, which gives [None] and an error in the log,
    and takes a line longer than that.  So for a line of no more
    characters than [int] reads digits, [None] comes exactly without
    separator.  A line without parentheses gives the text before the
    first separator as name and the text after it as headquarters, both
    trimmed.  In [process_companies] an item that gives [None] adds no
    record: the run goes on with the items after it from the records
    before it, and the log has the line and what the parser logged.  An
    item that gives a record adds one record, with the name of that
    record; without a wiki link it is that record. *)
Theorem malformed_entry_is_skipped (text industry : str) :
  (~ has_separator text ->
   parse_list_entry text industry = (None, [CouldNotParse text]))
  /\ (has_separator text ->
      (exists r, parse_list_entry text industry = (Some r, [])
                 /\ r !! "industry"%string = Some (VStr industry)
                 /\ (forall k, is_Some (r !! k) <-> In k entry_keys))
      \/ (parse_list_entry text industry
          = (None, [ErrorParsing text ValueError])
          /\ ~ int_sized text))
  /\ (int_sized text ->
      (fst (parse_list_entry text industry) = None <-> ~ has_separator text))
  /\ (forall left d right,
        splits_at text left d right -> ~ In (ch "(") text ->
        exists r, parse_list_entry text industry = (Some r, [])
          /\ r !! "name"%string = Some (VStr (strip left))
          /\ r !! "headquarters"%string = Some (VStr (strip right))
          /\ r !! "fortune_500_rank"%string = Some VNone
          /\ r !! "notes"%string = Some VNone)
  /\ (fst (parse_list_entry text industry) = None ->
      forall link items1 items2 st,
        let bad := ListItem industry text link in
        let st1 := process_entries fetch urljoin items1 st in
        process_entries fetch urljoin (items1 ++ bad :: items2) st
        = process_entries fetch urljoin items2
            (fst st1,
             snd st1 ++ Processing text
                     :: snd (parse_list_entry text industry)))
  /\ (forall r, fst (parse_list_entry text industry) = Some r ->
      forall link st,
        let good := ListItem industry text link in
        exists r',
          fst (process_company fetch urljoin st good) = fst st ++ [r']
          /\ r' !! "name"%string = r !! "name"%string
          /\ (no_wiki_link good -> r' = r)).
Proof.
  split; [apply parse_list_entry_missing|].
  split; [|split; [|split; [|split]]].
  - intros Hs.
    destruct (parse_list_entry_found text industry Hs)
      as [(n & l & rk & nt & E)|H]; [left|by right].
    eexists. split; [exact E|].
    destruct (entry_record_fields n industry l rk nt)
      as (_ & H2 & _ & _ & _ & H6). by split.
  - intros Hsz. split.
    + intros Hn Hs.
      destruct (parse_list_entry_found text industry Hs)
        as [(n & l & rk & nt & E)|[_ H]]; [by rewrite E in Hn|done].
    + intros Hs. by rewrite (parse_list_entry_missing _ _ Hs).
  - intros left d right Hs Hp. eexists.
    split; [exact (parse_list_entry_split _ _ _ industry _ Hs Hp)|].
    destruct (entry_record_fields (strip left) industry (strip right) None None)
      as (H1 & _ & H3 & H4 & H5 & _). by repeat split.
  - intros Hn link items1 items2 st bad st1.
    unfold process_entries. rewrite fold_left_app. cbn [fold_left].
    fold (process_entries fetch urljoin items1 st). fold st1. f_equal.
    destruct st1 as [cs lg]. unfold process_company, bad. cbn [item_text item_industry fst snd].
    destruct (parse_list_entry text industry) as [[d|] lg1]; [done|].
    cbn [snd]. by rewrite <- app_assoc.
  - intros r Hr link st good.
    destruct (parse_list_entry_some _ _ _ Hr) as (_ & E & n & l & rk & nt & Er).
    exists (fst (add_details fetch urljoin good r)).
    split; [|split].
    + destruct st as [cs lg]. unfold process_company, good.
      cbn [item_text item_industry]. rewrite E.
      rewrite bool_decide_eq_false_2
        by (rewrite Er; apply entry_record_nonempty).
      by destruct (add_details _ _ _ _).
    + apply add_details_name.
    + intros Hn.
      by rewrite (add_details_no_wiki urljoin fetch good r Hn).
Qed.

End SkippedEntries.

(** ** The cleaning scripts *)

Section CsvFacts.
Import Csv.

Lemma zip_row_lookup (fieldnames row : list str) k v :
  zip_row fieldnames row !! k = Some v ->
  (exists key s, k = Some key /\ v = CStr s /\ In key fieldnames).
Proof.
  unfold zip_row.
  assert (forall (kvs : list (str * str)) (d : rowdict),
    (forall k v, d !! k = Some v ->
       exists key s, k = Some key /\ v = CStr s /\ In key fieldnames) ->
    (forall kv, In kv kvs -> In (fst kv) fieldnames) ->
    forall k v,
      fold_left (fun d kv => <[Some (fst kv) := CStr (snd kv)]> d) kvs d !! k
      = Some v ->
      exists key s, k = Some key /\ v = CStr s /\ In key fieldnames) as H.
  { induction kvs as [|kv kvs IH]; intros d Hd Hin k0 v0; [apply Hd|].
    cbn [fold_left]. apply IH; [|intros kv' ?; apply Hin; by right].
    intros k1 v1. cbn beta. destruct (decide (k1 = Some (fst kv))) as [->|Hne].
    - rewrite lookup_insert_eq. intros [= <-].
      exists (fst kv), (snd kv). repeat split. apply Hin. by left.
    - rewrite lookup_insert_ne by done. apply Hd. }
  apply H.
  - intros k0 v0 H0. by rewrite lookup_empty in H0.
  - intros [a b] Hin. by apply in_combine_l in Hin.
Qed.

(** What [DictReader] puts in a row: under the name of a column a string
    or [None]; under [None] something only when the row has more cells
    than the header. *)
Lemma dict_row_lookup (fieldnames row : list str) k v :
  dict_row fieldnames row !! k = Some v ->
  match k with
  | Some key => In key fieldnames /\ is_text v
  | None => (length fieldnames < length row)%nat
  end.
Proof.
  unfold dict_row. cbv zeta.
  assert (forall k v, zip_row fieldnames row !! k = Some v ->
    match k with
    | Some key => In key fieldnames /\ is_text v
    | None => False
    end) as Hz.
  { intros k0 v0 H0. apply zip_row_lookup in H0 as (key & s & -> & -> & Hin).
    split; [done|]. right. by exists s. }
  destruct (length fieldnames <? length row)%nat eqn:E1.
  - apply Nat.ltb_lt in E1. destruct k as [key|].
    + rewrite lookup_insert_ne by done. apply Hz.
    + done.
  - destruct (length row <? length fieldnames)%nat eqn:E2.
    + assert (forall (keys : list str) (d : rowdict),
        (forall k v, d !! k = Some v ->
           match k with
           | Some key => In key fieldnames /\ is_text v
           | None => False
           end) ->
        (forall key, In key keys -> In key fieldnames) ->
        forall k v,
          fold_left (fun d key => <[Some key := CNone]> d) keys d !! k = Some v ->
          match k with
          | Some key => In key fieldnames /\ is_text v
          | None => False
          end) as H.
      { induction keys as [|key keys IH]; intros d Hd Hin k0 v0; [apply Hd|].
        cbn [fold_left]. apply IH; [|intros key' ?; apply Hin; by right].
        intros k1 v1. cbn beta. destruct (decide (k1 = Some key)) as [->|Hne].
        - rewrite lookup_insert_eq. intros [= <-].
          split; [apply Hin; by left|by left].
        - rewrite lookup_insert_ne by done. apply Hd. }
      intros H0. apply H in H0.
      * destruct k; [exact H0|done].
      * exact Hz.
      * intros key Hin. rewrite <- (firstn_skipn (length row) fieldnames).
        apply in_or_app. by right.
    + intros H0. apply Hz in H0. destruct k; [exact H0|done].
Qed.

(** [writerow] accepts a row exactly when each of its keys is a column
    of the writer. *)
Lemma dict_to_list_ok (fieldnames : list str) (row : rowdict) :
  (forall k v, row !! k = Some v -> exists key, k = Some key /\ In key fieldnames) ->
  dict_to_list fieldnames row
  = Ok (map (fun key => default (CStr []) (row !! Some key)) fieldnames).
Proof.
  intros H. unfold dict_to_list.
  assert (forallb (fun kv : option str * cell =>
                     bool_decide (fst kv ∈ map Some fieldnames))
                  (map_to_list row) = true) as ->; [|done].
  apply forallb_forall. intros [k v] Hin. apply bool_decide_eq_true.
  apply list_elem_of_In, elem_of_map_to_list in Hin.
  destruct (H k v Hin) as (key & -> & Hk). cbn [fst].
  apply list_elem_of_In, in_map_iff. by exists key.
Qed.

Lemma dict_to_list_wrong (fieldnames : list str) (row : rowdict) k v :
  row !! k = Some v -> ~ In k (map Some fieldnames) ->
  dict_to_list fieldnames row = Raise ValueError.
Proof.
  intros Hk Hn. unfold dict_to_list.
  destruct (forallb _ _) eqn:E; [exfalso|done].
  rewrite forallb_forall in E.
  assert (In (k, v) (map_to_list row)) as Hin
    by (by apply list_elem_of_In, elem_of_map_to_list).
  apply E, bool_decide_eq_true, list_elem_of_In in Hin. by apply Hn.
Qed.

End CsvFacts.

Ltac key_ne := let H := fresh in intros H; vm_compute in H; discriminate H.

Section CompaniesScriptFacts.
Context {U : UnicodeTables}.
Import Csv CompaniesScript.

Lemma parse_revenue_ok (value : str) :
  returns (CompaniesCleaner.parse_revenue value).
Proof.
  unfold CompaniesCleaner.parse_revenue, returns.
  destruct value as [|c0 v]; [eauto|].
  destruct (strip (c0 :: v)) as [|c1 v1]; [eauto|].
  destruct (re_search CompaniesCleaner.revenue_re _) as [mt|] eqn:E; [|eauto].
  destruct (revenue_search_group1 _ _ E) as [a ->]. cbn [option_map].
  destruct (py_float _) as [x|e]; [|eauto].
  destruct (group 2 (groups mt)) as [[|c u]|]; [eauto| |eauto].
  destruct (mem_str _ _); [eauto|]. destruct (mem_str _ _); eauto.
Qed.

Lemma get_text (row : rowdict) key :
  (forall k v, row !! Some k = Some v -> is_text v) -> is_text (get row key).
Proof.
  intros H. unfold get. destruct (row !! Some (utf8 key)) as [v|] eqn:E.
  - exact (H _ _ E).
  - right. by exists [].
Qed.

Lemma text_cells_ok (v : cell) :
  is_text v ->
  (exists h, clean_headquarters v = Ok h /\ is_text h)
  /\ (exists f, clean_founded v = Ok f /\ is_text f)
  /\ returns (parse_year_field v)
  /\ returns (parse_revenue v)
  /\ (returns (parse_employees v)
      \/ (parse_employees v = Raise ValueError
          /\ exists s, v = CStr s /\ ~ int_sized s)).
Proof.
  unfold clean_headquarters, clean_founded, parse_year_field, parse_revenue,
    parse_employees, returns.
  intros [->|[s ->]]; cbn [truthy].
  - repeat split; eauto; eexists; (split; [reflexivity|by left]).
  - destruct s as [|c s].
    + repeat split; eauto; eexists; (split; [reflexivity|right; by eexists]).
    + split; [eexists; split; [reflexivity|right; by eexists]|].
      split; [eexists; split; [reflexivity|right; by eexists]|].
      split; [rewrite parse_year_field_eq; eauto|].
      split; [apply parse_revenue_ok|].
      destruct (parse_employees_outcome (c :: s)) as [H|[H Hs]];
        [by left|right; eauto].
Qed.

(** The row the loop body leaves: the four added columns set, the
    headquarters replaced where the column exists, nothing else touched.
    Nothing fails before the employees are read. *)
Lemma clean_row_shape (row : rowdict) :
  (forall k v, row !! Some k = Some v -> is_text v) ->
  exists h fy rm ru,
    clean_row row
    = (let* emp_num := parse_employees (get row "employees") in
       Ok (<[Some (utf8 "employees_numeric") := int_or_blank emp_num]>
          (<[Some (utf8 "revenue_original_unit") := ru]>
          (<[Some (utf8 "revenue_in_millions") := rm]>
          (<[Some (utf8 "founded_year") := fy]>
          (match row !! hq_key with
           | Some _ => <[hq_key := h]> row
           | None => row
           end))))))
    /\ (forall v, row !! hq_key = Some v -> clean_headquarters v = Ok h)
    /\ is_text (get row "employees").
Proof.
  intros Hrow. unfold clean_row. fold hq_key.
  assert (exists h row1,
    match row !! hq_key with
    | Some v => let* h := clean_headquarters v in Ok (<[hq_key := h]> row)
    | None => Ok row
    end = Ok row1
    /\ row1 = match row !! hq_key with
              | Some _ => <[hq_key := h]> row
              | None => row
              end
    /\ (forall v, row !! hq_key = Some v -> clean_headquarters v = Ok h)
    /\ (forall k v, row1 !! Some k = Some v -> is_text v)
    /\ get row1 "employees" = get row "employees")
    as (h & row1 & -> & Er & Hh & Hrow1 & Hemp).
  { destruct (row !! hq_key) as [v|] eqn:E.
    - destruct (text_cells_ok v (Hrow _ _ E)) as ((h & Eh & Hth) & _).
      exists h. eexists. rewrite Eh. cbn [bind].
      split; [reflexivity|]. split; [reflexivity|]. split; [|split].
      + by intros v' [= <-].
      + intros k v'. destruct (decide (Some k = hq_key)) as [->|Hne].
        * rewrite lookup_insert_eq. by intros [= <-].
        * rewrite lookup_insert_ne by done. apply Hrow.
      + unfold get. by rewrite lookup_insert_ne by key_ne.
    - exists CNone, row. repeat split; [done|exact Hrow]. }
  cbn [bind].
  destruct (text_cells_ok _ (get_text row1 "founded" Hrow1))
    as (_ & (f & -> & Hf) & _).
  cbn [bind].
  destruct (text_cells_ok _ Hf) as (_ & _ & [fy ->] & _). cbn [bind].
  set (row2 := <[_ := _]> row1).
  assert (get row2 "revenue" = get row1 "revenue") as ->.
  { unfold get, row2. by rewrite lookup_insert_ne by key_ne. }
  destruct (text_cells_ok _ (get_text row1 "revenue" Hrow1))
    as (_ & _ & _ & [[rm ru] ->] & _).
  cbn [bind].
  assert (get (<[Some (utf8 "revenue_original_unit") := unit_or_blank ru]>
               (<[Some (utf8 "revenue_in_millions") := float_or_blank rm]> row2))
            "employees" = get row "employees") as ->.
  { rewrite <- Hemp. unfold get, row2. by rewrite !lookup_insert_ne by key_ne. }
  exists h. do 3 eexists. split; [|split; [exact Hh|by apply get_text]].
  unfold row2. rewrite Er. reflexivity.
Qed.

Lemma dict_row_text fieldnames row k v :
  dict_row fieldnames row !! Some k = Some v -> is_text v.
Proof. intros H. by apply dict_row_lookup in H as [_ ?]. Qed.

Lemma write_row_cases (fieldnames row : list str) :
  ((length row <= length fieldnames)%nat ->
   employees_sized (dict_row fieldnames row) ->
   exists out,
     write_row fieldnames (fieldnames ++ added_fields) row = Ok out
     /\ keeps_cells fieldnames row out)
  /\ ((length fieldnames < length row)%nat ->
      write_row fieldnames (fieldnames ++ added_fields) row = Raise ValueError)
  /\ (forall e,
        write_row fieldnames (fieldnames ++ added_fields) row = Raise e ->
        e = ValueError
        /\ ((length fieldnames < length row)%nat
            \/ ~ employees_sized (dict_row fieldnames row))).
Proof.
  unfold write_row.
  destruct (clean_row_shape (dict_row fieldnames row) (dict_row_text _ _))
    as (h & fy & rm & ru & -> & _ & Hemp).
  destruct (text_cells_ok _ Hemp)
    as (_ & _ & _ & _ & [[en ->]|(-> & s & Es & Hs)]).
  2: { cbn [bind]. split; [|split; [done|]].
       - intros _ Hsz. destruct Hs. by apply Hsz.
       - intros e [= <-]. split; [done|]. right. intros Hsz.
         by apply Hs, Hsz. }
  cbn [bind]. set (d := dict_row fieldnames row).
  set (d1 := match d !! hq_key with Some _ => <[hq_key := h]> d | None => d end).
  set (d5 := <[Some (utf8 "employees_numeric") := int_or_blank en]> _).
  assert (forall k, k <> hq_key -> d1 !! k = d !! k) as Hd1.
  { intros k Hk. unfold d1. destruct (d !! hq_key); [|done].
    by rewrite lookup_insert_ne. }
  assert (forall v, d1 !! hq_key = Some v -> is_Some (d !! hq_key)) as Hhq.
  { intros v. unfold d1. destruct (d !! hq_key) eqn:E; [eauto|].
    intros H. by rewrite E in H. }
  assert ((length fieldnames < length row)%nat ->
          dict_to_list (fieldnames ++ added_fields) d5 = Raise ValueError)
    as Hlong.
  { intros Hlen.
    apply (dict_to_list_wrong _ _ None (CList (skipn (length fieldnames) row))).
    + unfold d5. rewrite !lookup_insert_ne by done. rewrite Hd1 by done.
      unfold d, dict_row. cbv zeta.
      apply Nat.ltb_lt in Hlen. rewrite Hlen. by rewrite lookup_insert_eq.
    + intros Hin. apply in_map_iff in Hin as (x & Hx & _). done. }
  assert ((length row <= length fieldnames)%nat ->
          dict_to_list (fieldnames ++ added_fields) d5
          = Ok (map (fun key => default (CStr []) (d5 !! Some key))
                    (fieldnames ++ added_fields))) as Hshort.
  { intros Hlen. apply dict_to_list_ok. intros k v Hk.
    assert (forall v, d !! k = Some v ->
              exists key, k = Some key /\ In key (fieldnames ++ added_fields))
      as Hd.
    { intros v' Hv. apply dict_row_lookup in Hv. destruct k as [key|]; [|lia].
      exists key. split; [done|]. apply in_or_app. left. apply Hv. }
    unfold d5 in Hk.
    repeat match type of Hk with
    | <[?a := _]> _ !! _ = _ =>
      destruct (decide (k = a)) as [->|?];
        [eexists; split; [reflexivity|]; apply in_or_app; right;
         vm_compute; tauto
        |rewrite lookup_insert_ne in Hk by done]
    end.
    destruct (decide (k = hq_key)) as [->|Hne].
    * destruct (Hhq _ Hk) as [v' Hv']. by eapply Hd.
    * rewrite Hd1 in Hk by done. by eapply Hd. }
  split; [|split; [exact Hlong|]].
  - intros Hlen _. rewrite (Hshort Hlen).
    eexists. split; [reflexivity|]. split.
    + rewrite length_map, length_app. reflexivity.
    + intros i key Hi Hk. rewrite nth_error_map, nth_error_app1
        by (apply nth_error_Some; congruence).
      rewrite Hi. cbn [option_map]. do 2 f_equal.
      assert (forall a, In a touched_fields -> Some key <> Some a) as Hne
        by (intros a Ha [= ->]; done).
      unfold d5. rewrite !lookup_insert_ne
        by (apply not_eq_sym, Hne; vm_compute; tauto).
      apply Hd1. apply Hne. by left.
  - intros e He.
    destruct (le_lt_dec (length row) (length fieldnames)) as [Hlen|Hlen].
    + by rewrite (Hshort Hlen) in He.
    + rewrite (Hlong Hlen) in He. injection He as <-. split; [done|by left].
Qed.





(** A row of the companies file with no more cells than the header, and
    an employees cell of no more characters than [int] reads digits, is
    written: the written row has the four added cells after those of the
    input, and every column but the headquarters and the added ones has
    the cell of the input.  A row with more cells than the header is
    refused by the writer.  A row is refused with a [ValueError] only,
    and only when it has more cells than the header or its employees
    cell is longer than that. *)
Theorem companies_row_written (fieldnames row : list str) :
  ((length row <= length fieldnames)%nat ->
   employees_sized (dict_row fieldnames row) ->
   exists out,
     write_row fieldnames (fieldnames ++ added_fields) row = Ok out
     /\ keeps_cells fieldnames row out)
  /\ ((length fieldnames < length row)%nat ->
      write_row fieldnames (fieldnames ++ added_fields) row = Raise ValueError)
  /\ (forall e,
        write_row fieldnames (fieldnames ++ added_fields) row = Raise e ->
        e = ValueError
        /\ ((length fieldnames < length row)%nat
            \/ ~ employees_sized (dict_row fieldnames row))).
Proof. exact (write_row_cases fieldnames row). Qed.


End CompaniesScriptFacts.

Section StartupsScriptFacts.
Context {U : UnicodeTables}.
Import Csv StartupsScript.

Lemma founded_year_value_error (s : str) c t :
  strip s = c :: t -> is_decimal c = false -> c <> ch "-" -> c <> ch "+" ->
  StartupsCleaner.parse_founded_year s = Raise ValueError.
Proof.
  intros Hs Hc Hm Hp. unfold StartupsCleaner.parse_founded_year, py_int.
  unfold strip in *. rewrite strip_by_idem, Hs.
  apply N.eqb_neq in Hm, Hp. change (ch "-") with 45 in Hm.
  change (ch "+") with 43 in Hp. rewrite Hm, Hp. cbn [int_digits].
  unfold is_decimal in Hc. destruct (decimal_value c); [done|].
  by rewrite andb_false_r.
Qed.

(** The row the loop body leaves, when it leaves one. *)
Lemma startups_clean_row_shape (row row' : rowdict) :
  clean_row row = Ok row' ->
  exists size year lfn lfu vn vu,
    (if truthy (get row "company_size")
     then parse_company_size (get row "company_size") else Ok None) = Ok size
    /\ (if truthy (get row "founded_year")
        then parse_founded_year (get row "founded_year") else Ok None) = Ok year
    /\ row'
       = <[Some (utf8 "valuation_original_unit") := vu]>
         (<[Some (utf8 "valuation_in_millions") := vn]>
         (<[Some (utf8 "latest_funding_original_unit") := lfu]>
         (<[Some (utf8 "latest_funding_in_millions") := lfn]>
         (<[year_key := int_or_blank year]>
         (<[size_key := int_or_blank size]> row))))).
Proof.
  unfold clean_row. cbv zeta.
  destruct (if truthy (get row "company_size") then _ else _) as [size|];
    [|discriminate].
  cbn [bind].
  destruct (if truthy (get row "founded_year") then _ else _) as [year|];
    [|discriminate].
  cbn [bind].
  destruct (parse_currency_field (get row "valuation")) as [[vn vu]|];
    [|discriminate].
  cbn [bind].
  destruct (parse_currency_field (get row "latest_funding")) as [[lfn lfu]|];
    [|discriminate].
  cbn [bind]. intros [= <-]. by eexists size, year, _, _, _, _.
Qed.

(** The startups cleaner writes over the two columns it reads: whatever
    the row had under [company_size] and [founded_year], the row it
    leaves has a number or nothing there, and a size label that does not
    begin with a digit is blanked; the columns it does not name are left
    as they are. *)
Theorem startups_row_overwrites (row row' : rowdict) :
  clean_row row = Ok row' ->
  (exists v, row' !! size_key = Some v /\ number_or_blank v)
  /\ (exists v, row' !! year_key = Some v /\ number_or_blank v)
  /\ (forall c t,
        get row "company_size" = CStr (c :: t) -> is_decimal c = false ->
        row' !! size_key = Some (CStr []))
  /\ (forall k, (forall a, In a startups_touched -> k <> Some a) ->
                row' !! k = row !! k).
Proof.
  intros H.
  apply startups_clean_row_shape in H
    as (size & year & lfn & lfu & vn & vu & Hs & Hy & ->).
  assert (forall o, number_or_blank (int_or_blank o)) as Hnb.
  { intros [z|]; [left; by exists z|by right]. }
  split; [|split; [|split]].
  - exists (int_or_blank size). split; [|apply Hnb].
    rewrite !lookup_insert_ne by key_ne. apply lookup_insert_eq.
  - exists (int_or_blank year). split; [|apply Hnb].
    rewrite !lookup_insert_ne by key_ne. apply lookup_insert_eq.
  - intros c t Hc Hd. rewrite Hc in Hs. cbn [truthy parse_company_size] in Hs.
    rewrite (parse_company_size_anchored (c :: t) Hd) in Hs.
    injection Hs as <-.
    rewrite !lookup_insert_ne by key_ne. apply lookup_insert_eq.
  - intros k Hk.
    rewrite !lookup_insert_ne
      by (apply not_eq_sym, Hk; vm_compute; tauto). done.
Qed.

Lemma startups_write_row_needs fieldnames row :
  ~ In (utf8 "company_size") fieldnames
  \/ ~ In (utf8 "founded_year") fieldnames ->
  exists e, write_row fieldnames (fieldnames ++ added_fields) row = Raise e.
Proof.
  intros Hn. unfold write_row.
  destruct (clean_row (dict_row fieldnames row)) as [row'|e] eqn:E; [|eauto].
  cbn [bind]. exists ValueError.
  apply startups_clean_row_shape in E
    as (size & year & lfn & lfu & vn & vu & _ & _ & ->).
  destruct Hn as [Hn|Hn].
  - apply (dict_to_list_wrong _ _ size_key (int_or_blank size)).
    + rewrite !lookup_insert_ne by key_ne. apply lookup_insert_eq.
    + intros Hin. apply in_map_iff in Hin as (x & [= ->] & Hx).
      apply in_app_or in Hx as [Hx|Hx]; [done|].
      vm_compute in Hx. repeat destruct Hx as [Hx|Hx]; done.
  - apply (dict_to_list_wrong _ _ year_key (int_or_blank year)).
    + rewrite !lookup_insert_ne by key_ne. apply lookup_insert_eq.
    + intros Hin. apply in_map_iff in Hin as (x & [= ->] & Hx).
      apply in_app_or in Hx as [Hx|Hx]; [done|].
      vm_compute in Hx. repeat destruct Hx as [Hx|Hx]; done.
Qed.

(** The startups cleaner needs both columns it writes over: on a file
    whose header lacks [company_size] or [founded_year] no row can be
    written, and the run stops at the first row, with the header alone in
    the output. *)
Theorem startups_columns_required (fieldnames : list str)
    (rest : list (list str)) :
  ~ In (utf8 "company_size") fieldnames
  \/ ~ In (utf8 "founded_year") fieldnames ->
  (forall row, exists e,
     write_row fieldnames (fieldnames ++ added_fields) row = Raise e)
  /\ (data_rows rest <> [] ->
      exists e, run (fieldnames :: rest)
                = ([map CStr (fieldnames ++ added_fields)], Some e)).
Proof.
  intros Hn. split; [intros row; by apply startups_write_row_needs|].
  intros Hd. unfold run. destruct (data_rows rest) as [|r rows]; [done|].
  cbn [clean_rows].
  destruct (startups_write_row_needs fieldnames r Hn) as [e ->]. by exists e.
Qed.

Lemma startups_clean_rows_app fieldnames new_fields rows1 : forall rows2 outs1,
  Forall2 (fun r out => write_row fieldnames new_fields r = Ok out) rows1 outs1 ->
  clean_rows fieldnames new_fields (rows1 ++ rows2)
  = (outs1 ++ fst (clean_rows fieldnames new_fields rows2),
     snd (clean_rows fieldnames new_fields rows2)).
Proof.
  induction rows1 as [|r rows1 IH]; intros rows2 outs1 H.
  - apply Forall2_nil_inv_l in H as ->. cbn [app].
    by destruct (clean_rows _ _ rows2).
  - apply Forall2_cons_inv_l in H as (out & outs & Hr & Hrs & ->).
    cbn [app clean_rows]. rewrite Hr, (IH _ _ Hrs). reflexivity.
Qed.

(** A year that is not a number ends the run of the startups cleaner: a
    row whose [founded_year] is a text that begins, once trimmed, with a
    character that is neither a digit nor a sign raises [ValueError]; the
    rows before it are in the output, those after it are not read. *)
Theorem startups_run_ends_at_bad_year (fieldnames : list str)
    (rest rows1 rows2 : list (list str)) (r : list str) outs y c t :
  data_rows rest = rows1 ++ r :: rows2 ->
  Forall2 (fun r out =>
             write_row fieldnames (fieldnames ++ added_fields) r = Ok out)
          rows1 outs ->
  dict_row fieldnames r !! year_key = Some (CStr y) ->
  strip y = c :: t -> is_decimal c = false -> c <> ch "-" -> c <> ch "+" ->
  run (fieldnames :: rest)
  = (map CStr (fieldnames ++ added_fields) :: outs, Some ValueError).
Proof.
  intros Hrest Houts Hy Hs Hc Hm Hp. unfold run.
  rewrite Hrest, (startups_clean_rows_app _ _ _ _ _ Houts). cbn [clean_rows].
  assert (write_row fieldnames (fieldnames ++ added_fields) r
          = Raise ValueError) as ->.
  { unfold write_row, clean_row. cbv zeta.
    assert ((exists size,
      (if truthy (get (dict_row fieldnames r) "company_size")
       then parse_company_size (get (dict_row fieldnames r) "company_size")
       else Ok None) = Ok size)
      \/ (if truthy (get (dict_row fieldnames r) "company_size")
          then parse_company_size (get (dict_row fieldnames r) "company_size")
          else Ok None) = Raise ValueError) as [[size ->]| ->]; [|cbn [bind]|done].
    { assert (is_text (get (dict_row fieldnames r) "company_size")) as [->|[s ->]].
      { unfold get.
        destruct (dict_row fieldnames r !! Some (utf8 "company_size"))
          as [v|] eqn:E.
        - apply dict_row_lookup in E. exact (proj2 E).
        - right. by exists []. }
      - cbn [truthy]. eauto.
      - destruct s as [|a s]; cbn [truthy]; [eauto|].
        cbn [parse_company_size].
        destruct (parse_company_size_outcome (a :: s))
          as [H|[H _]]; [by left|by right]. } unfold get at 1 2. fold year_key. rewrite Hy. cbn [default from_option id].
    assert (y <> []) as Hne by (intros ->; done).
    destruct y as [|a y']; [done|]. cbn [truthy parse_founded_year].
    by rewrite (founded_year_value_error _ c t Hs Hc Hm Hp). }
  cbn [fst snd]. by rewrite app_nil_r.
Qed.

End StartupsScriptFacts.

Section ScraperRunFacts.
Context {U : UnicodeTables} {node : Type} {D : Document node}.
Variable get_page_content : nat -> str.
Variable parse_html : str -> node.
Import Scraper ScraperRun.

Local Abbreviation startups_of := (page_startups get_page_content parse_html).
Local Abbreviation more_after := (goes_on get_page_content parse_html).

Lemma add_card_eq startups card :
  add_card startups card
  = Ok (startups ++
        List.filter
          (fun d => match d !! "name"%string with
                    | Some v => truthy_val v
                    | None => false
                    end)
          [fst (extract_startup_info card)]).
Proof.
  unfold add_card.
  destruct (extract_startup_info_fields card)
    as (d & vl & vw & E & _ & _ & _ & _ & Hn & _).
  rewrite E, Hn. cbn [fst List.filter]. rewrite Hn.
  destruct (truthy_val _); [done|by rewrite app_nil_r].
Qed.

Lemma process_cards_eq cards : forall startups,
  process_cards cards startups
  = Ok (startups ++
        List.filter
          (fun d => match d !! "name"%string with
                    | Some v => truthy_val v
                    | None => false
                    end)
          (map (fun card => fst (extract_startup_info card)) cards)).
Proof.
  induction cards as [|card cards IH]; intros startups.
  - cbn [process_cards map List.filter]. by rewrite app_nil_r.
  - cbn [process_cards]. rewrite add_card_eq. cbn [bind]. rewrite IH.
    rewrite <- app_assoc. do 2 f_equal. cbn [map List.filter].
    by destruct (match _ with Some v => truthy_val v | None => false end).
Qed.

Lemma page_startups_named p : Forall named (startups_of p).
Proof.
  apply List.Forall_forall. intros d Hd. unfold page_startups in Hd.
  apply filter_In in Hd as [Hin Ht]. apply in_map_iff in Hin as (card & <- & _).
  destruct (extract_startup_info_fields card)
    as (d & vl & vw & E & _ & _ & _ & _ & Hn & _).
  rewrite E in *. cbn [fst] in *. rewrite Hn in Ht.
  destruct (find card q_h3) as [h|]; [|done].
  cbn [truthy_val] in Ht. exists (strip (text_of h)). split; [exact Hn|].
  by destruct (strip (text_of h)).
Qed.

Lemma scrape_loop_from n : forall p startups fuel,
  (forall q, (p <= q < p + n)%nat -> more_after q) ->
  ~ more_after (p + n) ->
  scrape_loop get_page_content parse_html fuel p startups
  = if (n <? fuel)%nat
    then Some (Ok (startups ++ flat_map startups_of (List.seq p (S n))))
    else None.
Proof.
  induction n as [|n IH]; intros p startups fuel Hgo Hlast.
  - destruct fuel as [|fuel]; [done|]. cbn [Nat.ltb Nat.leb scrape_loop].
    rewrite Nat.add_0_r in Hlast. cbn [List.seq flat_map]. rewrite app_nil_r.
    unfold page_startups. unfold goes_on in Hlast.
    destruct (find_all (parse_html (get_page_content p)) q_cards)
      as [|c cs] eqn:Ec.
    + cbn [map List.filter]. by rewrite app_nil_r.
    + rewrite process_cards_eq.
      destruct (find (parse_html (get_page_content p)) q_more) eqn:Em; [|done].
      exfalso. apply Hlast. by split.
  - destruct fuel as [|fuel]; [done|]. cbn [scrape_loop].
    destruct (Hgo p ltac:(lia)) as [Hc Hm].
    destruct (find_all (parse_html (get_page_content p)) q_cards)
      as [|c cs] eqn:Ec; [done|].
    rewrite process_cards_eq.
    destruct (find (parse_html (get_page_content p)) q_more) eqn:Em; [|done].
    rewrite (IH (S p) _ fuel).
    + change (S n <? S fuel)%nat with (n <? fuel)%nat.
      destruct (n <? fuel)%nat; [|done]. do 2 f_equal.
      rewrite <- app_assoc. f_equal.
      change (List.seq p (S (S n))) with (p :: List.seq (S p) (S n)).
      cbn [flat_map]. f_equal. unfold page_startups. by rewrite Ec.
    + intros q Hq. apply Hgo. lia.
    + by replace (S p + n)%nat with (p + S n)%nat by lia.
Qed.

(** The loop of [scrape_startups] ends at the first page that has no
    cards or no link to more: run for that many pages or more it returns,
    without raising, the named cards of the pages up to that one, in
    order, and no page beyond is loaded; the cards without a name are
    left out. *)
Theorem scrape_stops_at_last_page (k fuel : nat) :
  (forall q, (1 <= q < S k)%nat -> more_after q) -> ~ more_after (S k) ->
  scrape_startups get_page_content parse_html fuel
  = (if (k <? fuel)%nat
     then Some (Ok (flat_map startups_of (List.seq 1 (S k))))
     else None)
  /\ Forall named (flat_map startups_of (List.seq 1 (S k))).
Proof.
  intros Hgo Hlast. split.
  - unfold scrape_startups. by rewrite (scrape_loop_from k 1 [] fuel).
  - apply List.Forall_forall. intros d Hd. apply in_flat_map in Hd as (p & _ & Hd).
    pose proof (page_startups_named p) as H. rewrite List.Forall_forall in H.
    by apply H.
Qed.

End ScraperRunFacts.

(** ** The statements above on written-out inputs *)

#[local] Existing Instance latin1_tables.
#[local] Existing Instance Html.html_document.
Import Samples.

(** C2: neither normalizer reads all the formats; [parse_revenue]
    refuses ["$4M"] and [parse_currency_field] refuses
    ["US$4.5 billion"]. *)
Lemma normalize_currency_counterexample :
  CompaniesCleaner.parse_revenue (utf8 "$4M") = Ok (None, None)
  /\ StartupsCleaner.parse_currency_field (utf8 "US$4.5 billion")
     = Ok (None, None).
Proof. split; vm_compute; reflexivity. Qed.

Lemma currency_amounts_in_millions_witness :
  amount_text (utf8 "4.5") (float_of_decimal 45 1)
  /\ CompaniesCleaner.parse_revenue (utf8 "US$4.5 billion")
     = Ok (Some (fmul (float_of_decimal 45 1) (float_of_Z 1000)), Some (utf8 "B")).
Proof.
  assert (amount_text (utf8 "4.5") (float_of_decimal 45 1)) as Ha.
  { apply (amount_frac (utf8 "4") (utf8 "5"));
      (split; [discriminate | reflexivity]). }
  split; [exact Ha|].
  exact (proj1 (proj1 (currency_amounts_in_millions (utf8 "4.5") _ Ha))).
Defined.

(** C3: lower-case [u.s.] is not rewritten. *)
Lemma lowercase_us_counterexample :
  CompaniesCleaner.clean_headquarters (utf8 "u.s.") = utf8 "u.s."
  /\ CompaniesCleaner.clean_headquarters (utf8 "u.s.") <> utf8 "US".
Proof. split; [reflexivity | discriminate]. Qed.

Lemma clean_headquarters_annotations_trimmed_witness :
  ~ In (ch "U") (utf8 " San Jose [citation needed] ")
  /\ no_bracket_span
       (CompaniesCleaner.clean_headquarters (utf8 " San Jose [citation needed] "))
  /\ CompaniesCleaner.clean_headquarters (utf8 " San Jose [citation needed] ")
     = utf8 "San Jose".
Proof.
  assert (~ In (ch "U") (utf8 " San Jose [citation needed] ")) as Hn.
  { intros H. vm_compute in H. repeat destruct H as [H|H]; try discriminate H.
    exact H. }
  destruct (clean_headquarters_annotations_trimmed
              (utf8 " San Jose [citation needed] ")) as (H1 & _ & H3 & _).
  split; [exact Hn|]. split; [exact H1|]. rewrite (H3 Hn). reflexivity.
Defined.

(** C1 on a year given as [circa 2000], with white space around. *)
Lemma parse_founded_year_raises_witness :
  strip (utf8 " circa 2000 ") = utf8 "circa 2000"
  /\ StartupsCleaner.parse_founded_year (utf8 " circa 2000 ") = Raise ValueError.
Proof.
  assert (strip (utf8 " circa 2000 ") = utf8 "circa 2000") as Hs by reflexivity.
  split; [exact Hs|].
  apply (proj1 parse_founded_year_raises (utf8 " circa 2000 ")
           (ch "c") (utf8 "irca 2000") Hs); [reflexivity|discriminate..].
Defined.

(** C4: a label that does not end with the word [employees] is read all
    the same, and so is a date. *)
Lemma parse_company_size_counterexample :
  ~ range_label (utf8 "201-500 staff") /\ ~ plus_label (utf8 "201-500 staff")
  /\ StartupsCleaner.parse_company_size (utf8 "201-500 staff")
     = Ok (Some 350%Z)
  /\ ~ range_label (utf8 "2015-01-31") /\ ~ plus_label (utf8 "2015-01-31")
  /\ StartupsCleaner.parse_company_size (utf8 "2015-01-31")
     = Ok (Some 1008%Z).
Proof.
  repeat split; try (vm_compute; reflexivity).
  - intros (low & high & _ & _ & E). apply (f_equal (@rev N)) in E.
    rewrite !rev_app_distr in E. vm_compute in E. discriminate E.
  - intros (n & _ & E). apply (f_equal (@rev N)) in E.
    rewrite !rev_app_distr in E. vm_compute in E. discriminate E.
  - intros (low & high & _ & _ & E). apply (f_equal (@rev N)) in E.
    rewrite !rev_app_distr in E. vm_compute in E. discriminate E.
  - intros (n & _ & E). apply (f_equal (@rev N)) in E.
    rewrite !rev_app_distr in E. vm_compute in E. discriminate E.
Qed.

Lemma parse_company_size_midpoint_witness :
  is_numeral (utf8 "201") /\ is_numeral (utf8 "500") /\ is_numeral (utf8 "5000")
  /\ int_sized (utf8 "201") /\ int_sized (utf8 "500") /\ int_sized (utf8 "5000")
  /\ StartupsCleaner.parse_company_size (utf8 "201-500 employees")
     = Ok (Some 350%Z)
  /\ StartupsCleaner.parse_company_size (utf8 "5000+ employees")
     = Ok (Some 5000%Z).
Proof.
  assert (is_numeral (utf8 "201")) as H1 by (split; [discriminate | reflexivity]).
  assert (is_numeral (utf8 "500")) as H2 by (split; [discriminate | reflexivity]).
  assert (is_numeral (utf8 "5000")) as H3 by (split; [discriminate | reflexivity]).
  assert (int_sized (utf8 "201")) as S1 by (vm_compute; discriminate).
  assert (int_sized (utf8 "500")) as S2 by (vm_compute; discriminate).
  assert (int_sized (utf8 "5000")) as S3 by (vm_compute; discriminate).
  destruct (parse_company_size_midpoint (utf8 "201") (utf8 "500") (utf8 "5000")
              (utf8 " employees") H1 H2 H3 S1 S2 S3 eq_refl) as (Ha & _ & Hb & _).
  do 6 (split; [assumption|]). split; [exact Ha|]. exact (Hb []).
Defined.

(** C6 on a card with a single size tag: the tag is the company size,
    whatever it reads; the founding year and the website have their
    default. *)
Lemma extract_startup_info_never_fails_witness :
  nth_error (find_all lone_size_card Scraper.q_size) 1 = None
  /\ find lone_size_card Scraper.q_website = None
  /\ exists d,
       Scraper.extract_startup_info lone_size_card = (d, None)
       /\ d !! "founded_year"%string = Some VNone
       /\ d !! "website"%string = Some VNone
       /\ d !! "company_size"%string = Some (VStr (utf8 "Founded: 2015")).
Proof.
  assert (nth_error (find_all lone_size_card Scraper.q_size) 1 = None) as H1
    by (vm_compute; reflexivity).
  assert (find lone_size_card Scraper.q_website = None) as H2
    by (vm_compute; reflexivity).
  split; [exact H1|]. split; [exact H2|].
  destruct (extract_startup_info_never_fails lone_size_card)
    as (d & Hd & _ & _ & _ & _ & _ & _ & _ & Hfy & _ & _ & _ & Hw).
  exists d. split; [exact Hd|]. split; [exact (Hfy H1)|].
  split; [exact (Hw H2)|].
  pose proof (f_equal fst Hd) as E. cbn [fst] in E. rewrite <- E.
  vm_compute. reflexivity.
Defined.

(** C9: a tag that reads [series A] has the word [series], yet it goes to
    the investors and [latest_funding] stays [None]. *)
Lemma lowercase_series_counterexample :
  contains (utf8 "series") (utf8 "series A") = true
  /\ (fst (Scraper.extract_startup_info series_card)) !! "latest_funding"%string
     = Some VNone
  /\ (fst (Scraper.extract_startup_info series_card)) !! "investors"%string
     = Some (VList [utf8 "series A"]).
Proof. repeat split; vm_compute; reflexivity. Qed.

Lemma funding_tags_classified_witness :
  classify (utf8 "series A") = ToInvestors
  /\ (fst (Scraper.extract_startup_info series_card)) !! "investors"%string
     = Some (VList [utf8 "series A"]).
Proof.
  split; [reflexivity|].
  destruct (funding_tags_classified series_card) as (_ & _ & _ & H).
  rewrite H. reflexivity.
Defined.

(** C7: a line with a separator, whose rank has 4301 digits, gives no
    record. *)
Lemma long_rank_counterexample :
  has_separator long_rank_line
  /\ WikiScraper.parse_list_entry long_rank_line (utf8 "Technology")
     = (None, [WikiScraper.ErrorParsing long_rank_line ValueError]).
Proof.
  split.
  - exists (utf8 "Acme Corp (" ++ repeat (ch "1") 4301 ++ utf8 ")"),
      32, 45, 32, (utf8 "Oakland").
    split; [vm_compute; reflexivity|]. by repeat split.
  - vm_compute. reflexivity.
Qed.

(** C7 on a line without a separator, between two lines that have
    one. *)
Lemma malformed_entry_is_skipped_witness :
  int_sized (utf8 "Acme Corp, San Francisco")
  /\ ~ has_separator (utf8 "Acme Corp, San Francisco")
  /\ WikiScraper.parse_list_entry (utf8 "Acme Corp, San Francisco")
       (utf8 "Technology")
     = (None, [WikiScraper.CouldNotParse (utf8 "Acme Corp, San Francisco")])
  /\ WikiScraper.process_entries fetch_none join_path
       [acme_item; bad_item; acme_item] ([], [])
     = WikiScraper.process_entries fetch_none join_path [acme_item]
         (fst (WikiScraper.process_entries fetch_none join_path
                 [acme_item] ([], [])),
          snd (WikiScraper.process_entries fetch_none join_path
                 [acme_item] ([], []))
            ++ [WikiScraper.Processing (utf8 "Acme Corp, San Francisco");
                WikiScraper.CouldNotParse (utf8 "Acme Corp, San Francisco")]).
Proof.
  assert (int_sized (utf8 "Acme Corp, San Francisco")) as Hsz
    by (vm_compute; discriminate).
  destruct (malformed_entry_is_skipped fetch_none join_path
              (utf8 "Acme Corp, San Francisco") (utf8 "Technology"))
    as (Hmiss & _ & Hiff & _ & Hskip & _).
  assert (~ has_separator (utf8 "Acme Corp, San Francisco")) as Hn.
  { apply (proj1 (Hiff Hsz)). reflexivity. }
  do 2 (split; [assumption|]). split; [exact (Hmiss Hn)|].
  assert (fst (WikiScraper.parse_list_entry (utf8 "Acme Corp, San Francisco")
                 (utf8 "Technology")) = None) as Hnone
    by (rewrite (Hmiss Hn); reflexivity).
  pose proof (Hskip Hnone None [acme_item] [acme_item] ([], [])) as H.
  cbv zeta in H. rewrite (Hmiss Hn) in H. exact H.
Defined.


(** C10 on a company whose infobox gives the industry and the
    headquarters. *)
Lemma infobox_overrides_list_fields_witness :
  fst (WikiScraper.parse_list_entry (WikiScraper.item_text acme_item)
         (WikiScraper.item_industry acme_item))
  = Some (WikiScraper.entry_record (utf8 "Acme Corp") (utf8 "Technology")
            (utf8 "San Francisco, California") (Some 42%Z) None)
  /\ WikiScraper.item_link acme_item = Some (utf8 "/wiki/Acme")
  /\ startswith (utf8 "/wiki/") (utf8 "/wiki/Acme") = true
  /\ fetch_acme (join_path WikiScraper.base_url (utf8 "/wiki/Acme"))
     = Some acme_page
  /\ exists r,
       fst (item_effect fetch_acme join_path acme_item) = [r]
       /\ r !! "industry"%string = Some (VStr (utf8 "Software"))
       /\ r !! "headquarters"%string = Some (VStr (utf8 "Oakland, California"))
       /\ r !! "name"%string = Some (VStr (utf8 "Acme Corp"))
       /\ r !! "fortune_500_rank"%string = Some (VInt 42).
Proof.
  assert (fst (WikiScraper.parse_list_entry (WikiScraper.item_text acme_item)
                 (WikiScraper.item_industry acme_item))
          = Some (WikiScraper.entry_record (utf8 "Acme Corp") (utf8 "Technology")
                    (utf8 "San Francisco, California") (Some 42%Z) None)) as Eb
    by (vm_compute; reflexivity).
  assert (WikiScraper.item_link acme_item = Some (utf8 "/wiki/Acme")) as Hl
    by reflexivity.
  assert (startswith (utf8 "/wiki/") (utf8 "/wiki/Acme") = true) as Hw
    by (vm_compute; reflexivity).
  assert (fetch_acme (join_path WikiScraper.base_url (utf8 "/wiki/Acme"))
          = Some acme_page) as Hf by reflexivity.
  do 4 (split; [assumption|]).
  destruct (proj2 (infobox_overrides_list_fields fetch_acme join_path
                     acme_item (utf8 "/wiki/Acme") acme_page Hl Hw Hf) _ Eb)
    as (r & Hr & Hover & _ & _ & Hname & Hrank & _).
  exists r. split; [exact Hr|].
  split; [apply Hover; vm_compute; reflexivity|].
  split; [apply Hover; vm_compute; reflexivity|].
  split.
  - rewrite Hname. vm_compute. reflexivity.
  - rewrite Hrank. vm_compute. reflexivity.
Defined.

(** ** The statements on the scripts, the pages and the loop, on
    written-out inputs *)

Import MoreSamples.

(** A label that begins with a word is not read. *)
Lemma parse_company_size_returns_witness :
  int_sized (utf8 "about 200-500 employees")
  /\ returns (StartupsCleaner.parse_company_size
                (utf8 "about 200-500 employees"))
  /\ is_decimal (ch "a") = false
  /\ StartupsCleaner.parse_company_size (utf8 "about 200-500 employees")
     = Ok None.
Proof.
  assert (int_sized (utf8 "about 200-500 employees")) as Hs
    by (vm_compute; discriminate).
  destruct (parse_company_size_returns (utf8 "about 200-500 employees"))
    as (Hr & _ & Ha).
  split; [exact Hs|]. split; [exact (Hr Hs)|]. split; [reflexivity|].
  apply Ha. reflexivity.
Defined.

Lemma parse_currency_field_outcomes_witness :
  ~ In (ch "$") (utf8 "Series B")
  /\ StartupsCleaner.parse_currency_field (utf8 "Series B") = Ok (None, None).
Proof.
  assert (~ In (ch "$") (utf8 "Series B")) as Hn.
  { intros H. vm_compute in H. repeat destruct H as [H|H]; try discriminate H.
    exact H. }
  split; [exact Hn|].
  exact (proj2 (parse_currency_field_outcomes (utf8 "Series B")) Hn).
Defined.

Lemma parse_employees_grouped_witness :
  CompaniesCleaner.parse_employees (utf8 "Approx. 1,500 (2020)")
  = Ok (Some 1500%Z).
Proof.
  assert (forallb (fun c => negb (is_decimal c)) (utf8 "Approx. ") = true)
    as H1 by reflexivity.
  assert (Forall (fun g => g <> [] /\ forallb ascii_digit g = true)
            [utf8 "1"; utf8 "500"]) as H2
    by (repeat constructor; discriminate).
  exact (parse_employees_grouped (utf8 "Approx. ") (utf8 " (2020)")
           (utf8 "1") [utf8 "500"] H1 H2 eq_refl).
Defined.

Lemma normalize_location_word_boundary_witness :
  us_followed (utf8 "San Jose, California, U.S.") = false
  /\ CompaniesCleaner.normalize_location (utf8 "San Jose, California, U.S.")
     = utf8 "San Jose, California, U.S."
  /\ CompaniesCleaner.normalize_location (utf8 "Reno, U.S.A")
     = utf8 "Reno, USA".
Proof.
  assert (us_followed (utf8 "San Jose, California, U.S.") = false) as H
    by reflexivity.
  split; [exact H|]. split.
  - exact (proj1 (normalize_location_word_boundary _) H).
  - apply (proj2 (normalize_location_word_boundary (utf8 "Reno, U.S.A"))
             (utf8 "Reno, ") (ch "A") []); try reflexivity.
    + intros Hin. vm_compute in Hin.
      repeat destruct Hin as [Hin|Hin]; try discriminate Hin. exact Hin.
    + intros Hin. vm_compute in Hin.
      repeat destruct Hin as [Hin|Hin]; try discriminate Hin. exact Hin.
Defined.

(** The location of the card: the text after the marker, up to the end
    of the line. *)
Lemma location_after_marker_witness :
  fst (Scraper.extract_startup_info quick_card) !! "location"%string
  = Some (VStr (utf8 "Oakland")).
Proof.
  destruct (location_after_marker quick_card) as (_ & _ & H).
  assert (exists q, find quick_card Scraper.q_quick = Some q
                    /\ next_text q
                       = Some (hq_marker ++ utf8 "Oakland"
                                 ++ 10 :: utf8 "💰 Funding: $5M"))
    as (q & Hq & Ht).
  { eexists. split; vm_compute; reflexivity. }
  apply (H q _ [] (utf8 "Oakland") (10 :: utf8 "💰 Funding: $5M") Hq Ht).
  - vm_compute. reflexivity.
  - intros [].
  - intros Hin. vm_compute in Hin.
    repeat destruct Hin as [Hin|Hin]; try discriminate Hin. exact Hin.
  - intros Hin. vm_compute in Hin.
    repeat destruct Hin as [Hin|Hin]; try discriminate Hin. exact Hin.
  - right. left. by eexists.
Defined.

Lemma parse_list_entry_plain_witness :
  WikiScraper.is_dash (ch "-") = true /\ name_ok (utf8 "Apple Inc.")
  /\ WikiScraper.parse_list_entry (utf8 "Apple Inc. - Cupertino - California")
       (utf8 "Technology")
     = (Some (WikiScraper.entry_record (utf8 "Apple Inc.") (utf8 "Technology")
                (utf8 "Cupertino - California") None None), []).
Proof.
  assert (name_ok (utf8 "Apple Inc.")) as Hn
    by (split; [discriminate | split; [split; reflexivity | reflexivity]]).
  split; [reflexivity|]. split; [exact Hn|].
  apply (parse_list_entry_plain (utf8 "Apple Inc.")
           (utf8 "Cupertino - California") (utf8 "Technology") (ch "-"));
    [reflexivity | exact Hn | discriminate | split; reflexivity |].
  intros Hin. vm_compute in Hin.
  repeat destruct Hin as [Hin|Hin]; try discriminate Hin. exact Hin.
Defined.

(** The list page: the item before the heading is left out, the other
    has the heading's industry. *)
Lemma company_list_items_under_heading_witness :
  exists it,
    WikiScraper.parse_company_list (fun _ => list_page) [] = Ok [it]
    /\ WikiScraper.item_industry it = utf8 "Technology"
    /\ WikiScraper.item_text it = utf8 "Acme Corp – Oakland, California"
    /\ from_heading (find_all list_page WikiScraper.q_sections)
         (WikiScraper.item_industry it).
Proof.
  eexists. split; [vm_compute; reflexivity|].
  split; [vm_compute; reflexivity|]. split; [vm_compute; reflexivity|].
  assert (WikiScraper.parse_company_list (fun _ => list_page) []
          = Ok [WikiScraper.ListItem (utf8 "Technology")
                  (utf8 "Acme Corp – Oakland, California")
                  (Some (utf8 "/wiki/Acme"))]) as H
    by (vm_compute; reflexivity).
  pose proof (company_list_items_under_heading (fun _ => list_page) [] _ H)
    as Hf.
  apply Forall_cons_1 in Hf as [(_ & Hh & _) _]. exact Hh.
Defined.

Lemma parse_infobox_values_witness :
  WikiScraper.parse_infobox acme_page !! "industry"%string
  = Some (VStr (utf8 "Software"))
  /\ infobox_value "industry" (VStr (utf8 "Software")).
Proof.
  assert (WikiScraper.parse_infobox acme_page !! "industry"%string
          = Some (VStr (utf8 "Software"))) as H by (vm_compute; reflexivity).
  split; [exact H|]. exact (parse_infobox_values acme_page _ _ H).
Defined.

(** Of the two [Founded] rows the second gives the value. *)
Lemma infobox_last_row_wins_witness :
  WikiScraper.parse_infobox twice_page !! "founded"%string
  = Some (VStr (utf8 "2001 (as Acme Corp)")).
Proof.
  pose (ib := match find twice_page WikiScraper.q_infobox with
              | Some ib => ib
              | None => twice_page
              end).
  pose (rows := find_all ib WikiScraper.q_tr).
  destruct (infobox_last_row_wins twice_page ib (firstn 1 rows)
              (nth 1 rows twice_page) (skipn 2 rows) "founded") as [H _].
  - vm_compute. reflexivity.
  - vm_compute. reflexivity.
  - vm_compute. reflexivity.
  - repeat constructor. vm_compute. discriminate.
  - rewrite H. vm_compute. reflexivity.
Defined.

Lemma no_wiki_link_no_request_witness :
  Forall no_wiki_link [external_item]
  /\ WikiScraper.process_entries fetch_acme join_path [external_item] ([], [])
     = WikiScraper.process_entries fetch_none join_path [external_item] ([], []).
Proof.
  assert (Forall no_wiki_link [external_item]) as H
    by (repeat constructor).
  split; [exact H|].
  exact (proj1 (no_wiki_link_no_request join_path fetch_acme fetch_none
                  [external_item] ([], []) H)).
Defined.

Lemma fetch_failure_keeps_record_witness :
  fst (WikiScraper.parse_list_entry (WikiScraper.item_text acme_item)
         (WikiScraper.item_industry acme_item))
  = Some (WikiScraper.entry_record (utf8 "Acme Corp") (utf8 "Technology")
            (utf8 "San Francisco, California") (Some 42%Z) None)
  /\ fetch_none (join_path WikiScraper.base_url (utf8 "/wiki/Acme")) = None
  /\ item_effect fetch_none join_path acme_item
     = ([WikiScraper.entry_record (utf8 "Acme Corp") (utf8 "Technology")
           (utf8 "San Francisco, California") (Some 42%Z) None],
        [WikiScraper.Processing (WikiScraper.item_text acme_item);
         WikiScraper.ErrorFetching
           (join_path WikiScraper.base_url (utf8 "/wiki/Acme"))]).
Proof.
  assert (fst (WikiScraper.parse_list_entry (WikiScraper.item_text acme_item)
                 (WikiScraper.item_industry acme_item))
          = Some (WikiScraper.entry_record (utf8 "Acme Corp") (utf8 "Technology")
                    (utf8 "San Francisco, California") (Some 42%Z) None)) as Eb
    by (vm_compute; reflexivity).
  split; [exact Eb|]. split; [reflexivity|].
  exact (proj2 (proj2 (proj2 (fetch_failure_keeps_record join_path fetch_none
                                acme_item (utf8 "/wiki/Acme")
                                eq_refl eq_refl eq_refl) _ Eb))).
Defined.

(** The first row of the companies file: the headquarters cleaned, the
    year found, no revenue and no employees. *)
Lemma companies_row_written_witness :
  employees_sized
    (Csv.dict_row [utf8 "name"; utf8 "headquarters"; utf8 "founded"]
       [utf8 "Acme"; utf8 " Oakland [1] "; utf8 "1999; 25 years ago"])
  /\ exists out,
    CompaniesScript.write_row
      [utf8 "name"; utf8 "headquarters"; utf8 "founded"]
      ([utf8 "name"; utf8 "headquarters"; utf8 "founded"]
         ++ CompaniesScript.added_fields)
      [utf8 "Acme"; utf8 " Oakland [1] "; utf8 "1999; 25 years ago"]
    = Ok out
    /\ length out = 7%nat
    /\ nth_error out 0 = Some (CStr (utf8 "Acme")).
Proof.
  assert (employees_sized
            (Csv.dict_row [utf8 "name"; utf8 "headquarters"; utf8 "founded"]
               [utf8 "Acme"; utf8 " Oakland [1] "; utf8 "1999; 25 years ago"]))
    as Hs.
  { intros s Hs. vm_compute in Hs. injection Hs as <-.
    vm_compute. discriminate. }
  split; [exact Hs|].
  destruct (proj1 (companies_row_written
                     [utf8 "name"; utf8 "headquarters"; utf8 "founded"]
                     [utf8 "Acme"; utf8 " Oakland [1] ";
                      utf8 "1999; 25 years ago"]))
    as (out & Ho & Hl & Hk); [cbn [length]; lia | exact Hs |].
  exists out. split; [exact Ho|]. split; [exact Hl|].
  rewrite (Hk 0%nat (utf8 "name") eq_refl).
  - vm_compute. reflexivity.
  - intros Hin. vm_compute in Hin.
    repeat destruct Hin as [Hin|Hin]; try discriminate Hin. exact Hin.
Defined.


(** A size label that is not a range is blanked. *)
Lemma startups_row_overwrites_witness :
  exists row',
    StartupsScript.clean_row
      (Csv.dict_row [utf8 "name"; utf8 "company_size"; utf8 "founded_year"]
                    [utf8 "Bolt"; utf8 "N/A"; utf8 "2015"])
    = Ok row'
    /\ row' !! size_key = Some (CStr [])
    /\ row' !! Some (utf8 "name") = Some (CStr (utf8 "Bolt")).
Proof.
  set (row := Csv.dict_row
                [utf8 "name"; utf8 "company_size"; utf8 "founded_year"]
                [utf8 "Bolt"; utf8 "N/A"; utf8 "2015"]).
  assert ((if truthy (Csv.get row "company_size")
           then StartupsScript.parse_company_size (Csv.get row "company_size")
           else Ok None) = Ok None) as Hsize by (vm_compute; reflexivity).
  assert ((if truthy (Csv.get row "founded_year")
           then StartupsScript.parse_founded_year (Csv.get row "founded_year")
           else Ok None) = Ok (Some 2015%Z)) as Hyear
    by (vm_compute; reflexivity).
  assert (StartupsScript.parse_currency_field (Csv.get row "valuation")
          = Ok (None, None)) as Hval by (vm_compute; reflexivity).
  assert (StartupsScript.parse_currency_field (Csv.get row "latest_funding")
          = Ok (None, None)) as Hfun by (vm_compute; reflexivity).
  eassert (StartupsScript.clean_row row = Ok _) as E.
  { unfold StartupsScript.clean_row. cbv zeta.
    rewrite Hsize. cbn [bind]. rewrite Hyear. cbn [bind].
    rewrite Hval. cbn [bind]. rewrite Hfun. cbn [bind]. reflexivity. }
  eexists. split; [exact E|].
  destruct (startups_row_overwrites _ _ E) as (_ & _ & Hs & Hk). split.
  - apply (Hs (ch "N") (utf8 "/A")); vm_compute; reflexivity.
  - rewrite Hk; [vm_compute; reflexivity|].
    intros a Ha [= <-]. vm_compute in Ha.
    repeat destruct Ha as [Ha|Ha]; try discriminate Ha. exact Ha.
Defined.

(** A startups file without the two columns: nothing but the header. *)
Lemma startups_columns_required_witness :
  ~ In (utf8 "company_size") [utf8 "name"]
  /\ exists e,
       StartupsScript.run [[utf8 "name"]; [utf8 "Acme"]]
       = ([map CStr ([utf8 "name"] ++ StartupsScript.added_fields)], Some e).
Proof.
  assert (~ In (utf8 "company_size") [utf8 "name"]) as Hn.
  { intros Hin. vm_compute in Hin.
    repeat destruct Hin as [Hin|Hin]; try discriminate Hin. exact Hin. }
  split; [exact Hn|].
  apply (proj2 (startups_columns_required [utf8 "name"] [[utf8 "Acme"]]
                  (or_introl Hn))).
  discriminate.
Defined.

(** The startups file of the samples: the second row has the year
    [circa 2000], and the run ends there. *)
Lemma startups_run_ends_at_bad_year_witness :
  exists out,
    StartupsScript.run startups_lines
    = ([map CStr ([utf8 "name"; utf8 "company_size"; utf8 "founded_year"]
                    ++ StartupsScript.added_fields); out],
       Some ValueError)
    /\ nth_error out 1 = Some (CInt 30).
Proof.
  eexists. split.
  - apply (startups_run_ends_at_bad_year
             [utf8 "name"; utf8 "company_size"; utf8 "founded_year"]
             (tl startups_lines)
             [[utf8 "Acme"; utf8 "11-50 employees"; utf8 "2015"]]
             [[utf8 "Core"; []; utf8 "2001"]]
             [utf8 "Bolt"; utf8 "N/A"; utf8 "circa 2000"]
             [_] (utf8 "circa 2000") (ch "c") (utf8 "irca 2000")).
    + reflexivity.
    + constructor; [vm_compute; reflexivity|constructor].
    + vm_compute. reflexivity.
    + reflexivity.
    + reflexivity.
    + discriminate.
    + discriminate.
  - vm_compute. reflexivity.
Defined.

(** The directory of the samples: two pages, the cards with a name. *)
Lemma scrape_stops_at_last_page_witness :
  goes_on page_source parse_page 1 /\ ~ goes_on page_source parse_page 2
  /\ ScraperRun.scrape_startups page_source parse_page 5
     = Some (Ok (page_startups page_source parse_page 1
                   ++ page_startups page_source parse_page 2))
  /\ length (page_startups page_source parse_page 1) = 1%nat.
Proof.
  assert (goes_on page_source parse_page 1) as H1.
  { split; vm_compute; discriminate. }
  assert (~ goes_on page_source parse_page 2) as H2.
  { intros [_ H]. apply H. vm_compute. reflexivity. }
  split; [exact H1|]. split; [exact H2|]. split.
  - destruct (scrape_stops_at_last_page page_source parse_page 1 5) as [H _].
    + intros q Hq. by replace q with 1%nat by lia.
    + exact H2.
    + rewrite H. cbn [Nat.ltb Nat.leb List.seq flat_map].
      by rewrite app_nil_r.
  - vm_compute. reflexivity.
Defined.
